(** * Skill capability resolution and activation: a shallow embedding

    Embedding of [src/agents/skills.ts] and [src/agents/skills-install.ts]
    (discovery and merge of skills, frontmatter parsing, eligibility,
    reversible environment activation, installer dispatch).

    Conventions of the embedding.
    - A JavaScript string is a Rocq [string]; a character is a code unit
      from 1 to 255 (the code units from 256 on are left out, and so is
      NUL, which the C interface of the environment cannot carry), so the
      white space of [trim] and of the regular expression class [\s] is the
      set 9..13, 32, 160, and the class [\w] is [A-Za-z0-9_].
    - [undefined] is [None]; an optional field is an [option].
    - [process.env] is a [gmap string string], the variables that are set
      in a POSIX environment: names are compared exactly, the name of a
      variable is not empty and holds no [=], and the C interface refuses
      to set or unset another name, so that such an assignment does
      nothing.  Statements about the read of a required name are made for
      names of that form.
    - A [Record<string, T>] is the list of its own properties in the order
      of [Object.entries] (keys are pairwise distinct in a JavaScript
      object).  A read [object[name]] with a computed name looks among the
      own properties first and then in [Object.prototype], as the language
      does, for plain objects and for [process.env] alike.
    - A number of a parsed document is held as its numeral, the text that
      [String(value)] gives; a timeout is a double: not-a-number, an
      infinity or a fraction.
    - A [Map] keeps insertion order: it is an association list whose [set]
      overwrites in place or appends.
    - The subprocess runner is the only suspending collaborator; code that
      calls it is a tree of [Run] nodes, so that the commands a call spawns
      can be read off the term. *)

From Stdlib Require Import ZArith Ascii String List QArith.
From stdpp Require Import base option list gmap strings pretty fin_maps.

Close Scope Q_scope.
Open Scope string_scope.
Open Scope list_scope.
Set Warnings "-register-all,-clear-no-such-hyp".

(** ** Strings *)

(** White space of [String.prototype.trim] and of [\s], below 256. *)
Definition isSpace (c : ascii) : bool :=
  let n := nat_of_ascii c in
  (((9 <=? n) && (n <=? 13)) || (n =? 32) || (n =? 160))%nat.

(** The class [\w] extended with the hyphen: [[\w-]]. *)
Definition isWordOrDash (c : ascii) : bool :=
  let n := nat_of_ascii c in
  (((48 <=? n) && (n <=? 57)) || ((65 <=? n) && (n <=? 90))
   || ((97 <=? n) && (n <=? 122)) || (n =? 95) || (n =? 45))%nat.

Fixpoint trimStart (s : string) : string :=
  match s with
  | EmptyString => EmptyString
  | String c s' => if isSpace c then trimStart s' else s
  end.

Fixpoint trimEnd (s : string) : string :=
  match s with
  | EmptyString => EmptyString
  | String c s' =>
      match trimEnd s' with
      | EmptyString => if isSpace c then EmptyString else String c EmptyString
      | t => String c t
      end
  end.

Definition trim (s : string) : string := trimEnd (trimStart s).

(** Truthiness of a string, and of an optional string. *)
Definition nonEmpty (s : string) : bool :=
  match s with EmptyString => false | _ => true end.

Definition truthyStr (o : option string) : bool :=
  match o with Some s => nonEmpty s | None => false end.

Definition startsWith (s p : string) : bool := String.prefix p s.

Fixpoint lastChar (s : string) : option ascii :=
  match s with
  | EmptyString => None
  | String c EmptyString => Some c
  | String _ s' => lastChar s'
  end.

Definition endsWithChar (s : string) (c : ascii) : bool :=
  match lastChar s with Some d => bool_decide (d = c) | None => false end.

(** [s.split(d)] for a one-character separator. *)
Fixpoint splitChar (d : ascii) (s : string) : list string :=
  match s with
  | EmptyString => [EmptyString]
  | String c s' =>
      if bool_decide (c = d) then EmptyString :: splitChar d s'
      else match splitChar d s' with
           | [] => [String c EmptyString]
           | w :: ws => String c w :: ws
           end
  end.

(** Own-property read of a [Record<string, T>]. *)
Fixpoint recordGet {T} (k : string) (r : list (string * T)) : option T :=
  match r with
  | [] => None
  | (k', v) :: r' => if bool_decide (k = k') then Some v else recordGet k r'
  end.

(** The names of the members of [Object.prototype], which every plain
    object and [process.env] inherit.  All are functions but [__proto__],
    an accessor that gives the prototype of the object read. *)
Definition objectPrototypeNames : list string :=
  ["constructor"; "__defineGetter__"; "__defineSetter__"; "hasOwnProperty";
   "__lookupGetter__"; "__lookupSetter__"; "isPrototypeOf";
   "propertyIsEnumerable"; "toString"; "valueOf"; "__proto__";
   "toLocaleString"].

Definition inheritedName (k : string) : bool :=
  bool_decide (k ∈ objectPrototypeNames).

(** What [object[k]] gives for an object whose prototype is
    [Object.prototype]: the own property when there is one, else the
    inherited member of that name, else [undefined]. *)
Inductive Member (T : Type) : Type :=
  | Own (v : T)
  | Inherited
  | Missing.
Arguments Own {T} v.
Arguments Inherited {T}.
Arguments Missing {T}.

Definition readMember {T} (own : option T) (k : string) : Member T :=
  match own with
  | Some v => Own v
  | None => if inheritedName k then Inherited else Missing
  end.

(** Truthiness of a read of a string-valued object: an inherited member is
    a function or an object. *)
Definition truthyMember (m : Member string) : bool :=
  match m with
  | Own v => nonEmpty v
  | Inherited => true
  | Missing => false
  end.

(** [s.includes(c)] for one character. *)
Fixpoint hasChar (c : ascii) (s : string) : bool :=
  match s with
  | EmptyString => false
  | String d s' => bool_decide (d = c) || hasChar c s'
  end.

(** ** Installer specs ([skills.ts], [skills-install.ts]) *)

Record SkillInstallSpec := {
  spec_id : option string;
  spec_kind : string;
  spec_label : option string;
  spec_bins : option (list string);
  spec_formula : option string;
  spec_package : option string;
  spec_module : option string;
}.

(** The four values of the declared type of [kind]. *)
Definition validKind (k : string) : Prop :=
  k = "brew" \/ k = "node" \/ k = "go" \/ k = "uv".

(** [(spec.id ?? `${spec.kind}-${index}`).trim()] *)
Definition resolveInstallId (spec : SkillInstallSpec) (index : nat) : string :=
  trim (match spec_id spec with
        | Some i => i
        | None => spec_kind spec +:+ "-" +:+ pretty index
        end).

Fixpoint findInstallSpecFrom (index : nat) (specs : list SkillInstallSpec)
    (installId : string) : option SkillInstallSpec :=
  match specs with
  | [] => None
  | spec :: rest =>
      if bool_decide (resolveInstallId spec index = installId) then Some spec
      else findInstallSpecFrom (S index) rest installId
  end.

(** ** Data model ([skills.ts]) *)

(** Modelled from the spec: the type [Skill] of the external loader is not
    among the sources; a skill record is its name (the unique key), the
    path of its source file and a description payload. *)
Record Skill := {
  skill_name : string;
  skill_filePath : string;
  skill_description : string;
}.

Record SkillRequires := {
  req_bins : option (list string);
  req_env : option (list string);
  req_config : option (list string);
}.

Record ClawdisSkillMetadata := {
  md_always : option bool;
  md_skillKey : option string;
  md_primaryEnv : option string;
  md_emoji : option string;
  md_homepage : option string;
  md_requires : option SkillRequires;
  md_install : option (list SkillInstallSpec);
}.

Record SkillsInstallPreferences := {
  preferBrew : bool;
  nodeManager : string;
}.

Record SkillEntry := {
  entry_skill : Skill;
  entry_frontmatter : gmap string string;
  entry_clawdis : option ClawdisSkillMetadata;
}.

Record SnapshotSkill := {
  snap_name : string;
  snap_primaryEnv : option string;
}.

Record SkillSnapshot := {
  snapshot_prompt : string;
  snapshot_skills : list SnapshotSkill;
}.

(** ** Configuration *)

(** A value of a parsed document or of the configuration tree.  A number
    is held as its numeral, the text that [String(value)] gives for it: both
    zeros are [0], not-a-number is [NaN], a safe integer is its decimal
    digits, any other value is as [Number::toString] writes it.  The code
    only prints a number and compares it with zero.  [undefined] is the
    [None] of an [option JsValue]. *)

Inductive JsValue :=
  | JNull
  | JBool (b : bool)
  | JNum (numeral : string)
  | JStr (s : string)
  | JArr (items : list JsValue)
  | JObj (fields : list (string * JsValue)).

(** What a walk from the configuration can reach: a value of the tree, a
    built-in function (a member of a prototype), or one of the prototypes
    [Object.prototype] and [Array.prototype]. *)
Inductive JsRef :=
  | RData (v : JsValue)
  | RFunction
  | RObjectPrototype
  | RArrayPrototype.

(** [value !== 0] and [Number.isNaN(value)] on a numeral. *)
Definition numeralNonZero (numeral : string) : bool :=
  negb (bool_decide (numeral = "0")).

Definition numeralNaN (numeral : string) : bool :=
  bool_decide (numeral = "NaN").

(** Modelled from the spec: the type [SkillConfig] of [config/config.ts] is
    not among the sources; the per-skill configuration holds the flag
    [enabled], the credential value [apiKey] and the table [env] of
    environment overrides, each optional. *)
Record SkillConfig := {
  sc_enabled : option bool;
  sc_apiKey : option string;
  sc_env : option (list (string * string));
}.

(** Modelled from the spec: the section [skillsInstall] of the missing type
    [ClawdisConfig], the source of the install preferences. *)
Record SkillsInstallConfig := {
  si_preferBrew : option bool;
  si_nodeManager : option string;
}.

(** Modelled from the spec: the section [skillsLoad] of the missing type
    [ClawdisConfig], the list of extra skill directories. *)
Record SkillsLoadConfig := {
  sl_extraDirs : option (list string);
}.

(** Modelled from the spec: the type [ClawdisConfig] of [config/config.ts]
    is not among the sources; the configuration tree holds the sections
    that [skills.ts] reads by name, and [cfg_other] holds every other
    top-level section as a JSON value for the dotted-path traversal. *)
Record ClawdisConfig := {
  cfg_skills : option (list (string * SkillConfig));
  cfg_skillsInstall : option SkillsInstallConfig;
  cfg_skillsLoad : option SkillsLoadConfig;
  cfg_other : list (string * JsValue);
}.

(** An optional field of an object literal: absent when [None]. *)
Definition optField {T} (k : string) (f : T -> JsValue) (o : option T)
    : list (string * JsValue) :=
  match o with Some v => [(k, f v)] | None => [] end.

Definition strRecordToJs (r : list (string * string)) : JsValue :=
  JObj (map (fun kv => (kv.1, JStr kv.2)) r).

Definition skillConfigToJs (c : SkillConfig) : JsValue :=
  JObj (optField "enabled" JBool (sc_enabled c)
        ++ optField "apiKey" JStr (sc_apiKey c)
        ++ optField "env" strRecordToJs (sc_env c)).

(** The configuration as the object tree that [resolveConfigPath] walks. *)
Definition configToJs (c : ClawdisConfig) : JsValue :=
  JObj (optField "skills"
          (fun r => JObj (map (fun kv => (kv.1, skillConfigToJs kv.2)) r))
          (cfg_skills c)
        ++ optField "skillsInstall"
          (fun i => JObj (optField "preferBrew" JBool (si_preferBrew i)
                          ++ optField "nodeManager" JStr (si_nodeManager i)))
          (cfg_skillsInstall c)
        ++ optField "skillsLoad"
          (fun l => JObj (optField "extraDirs"
                            (fun ds => JArr (map JStr ds)) (sl_extraDirs l)))
          (cfg_skillsLoad c)
        ++ cfg_other c).

(** [value.toLowerCase()] below 256: the letters A-Z and the accented
    capitals 192..222 but the multiplication sign. *)
Definition lowerChar (c : ascii) : ascii :=
  let n := nat_of_ascii c in
  if (((65 <=? n) && (n <=? 90))
      || ((192 <=? n) && (n <=? 222) && negb (n =? 215)))%nat
  then ascii_of_nat (n + 32) else c.

Fixpoint toLowerCase (s : string) : string :=
  match s with
  | EmptyString => EmptyString
  | String c s' => String (lowerChar c) (toLowerCase s')
  end.

(** [isTruthy(value)]; [None] is [undefined].  A function and a prototype
    take the last return. *)
Definition isTruthy (value : option JsRef) : bool :=
  match value with
  | None | Some (RData JNull) => false
  | Some (RData (JBool b)) => b
  | Some (RData (JNum numeral)) => numeralNonZero numeral
  | Some (RData (JStr s)) => nonEmpty (trim s)
  | Some _ => true
  end.

(** The table [DEFAULT_CONFIG_VALUES]. *)
Definition DEFAULT_CONFIG_VALUES : list (string * bool) :=
  [("browser.enabled", true)].

Definition resolveSkillsInstallPreferences (config : option ClawdisConfig)
    : SkillsInstallPreferences :=
  let raw := config ≫= cfg_skillsInstall in
  let preferBrew := default true (raw ≫= si_preferBrew) in
  let managerRaw :=
    match raw ≫= si_nodeManager with Some m => trim m | None => "" end in
  let manager := toLowerCase managerRaw in
  let nodeManager :=
    if bool_decide (manager = "pnpm") || bool_decide (manager = "yarn")
       || bool_decide (manager = "npm")
    then manager else "npm" in
  {| preferBrew := preferBrew; nodeManager := nodeManager |}.

(** The own properties that [value[part]] can find: a property of an
    object; an index or [length] of an array. *)
Definition jsGet (current : JsValue) (part : string) : option JsValue :=
  match current with
  | JObj fields => recordGet part fields
  | JArr items =>
      if bool_decide (part = "length") then Some (JNum (pretty (length items)))
      else snd <$> List.find (fun ix => bool_decide (pretty (fst ix) = part))
                     (imap (fun i v => (i, v)) items)
  | _ => None
  end.

(** The names of the function members of [Array.prototype] (ECMAScript
    2023, the edition of the runtime the package asks for); its remaining
    own property is [length]. *)
Definition arrayPrototypeNames : list string :=
  ["at"; "concat"; "constructor"; "copyWithin"; "entries"; "every"; "fill";
   "filter"; "find"; "findIndex"; "findLast"; "findLastIndex"; "flat";
   "flatMap"; "forEach"; "includes"; "indexOf"; "join"; "keys";
   "lastIndexOf"; "map"; "pop"; "push"; "reduce"; "reduceRight"; "reverse";
   "shift"; "slice"; "some"; "sort"; "splice"; "toLocaleString";
   "toReversed"; "toSorted"; "toSpliced"; "toString"; "unshift"; "values";
   "with"].

(** A read that reaches [Object.prototype]: [__proto__] gives [proto], the
    prototype of the object the read started from, and every other member
    is a function. *)
Definition objectPrototypeGet (proto : JsRef) (part : string) : option JsRef :=
  if bool_decide (part = "__proto__") then Some proto
  else if inheritedName part then Some RFunction
  else None.

(** A read that reaches [Array.prototype], whose prototype is
    [Object.prototype]. *)
Definition arrayPrototypeGet (proto : JsRef) (part : string) : option JsRef :=
  if bool_decide (part ∈ arrayPrototypeNames) then Some RFunction
  else objectPrototypeGet proto part.

(** [current[part]] for a value that passed the object test of
    [resolveConfigPath]: own properties first, then the prototype chain. *)
Definition jsMember (current : JsRef) (part : string) : option JsRef :=
  match current with
  | RData (JObj fields) =>
      match recordGet part fields with
      | Some v => Some (RData v)
      | None => objectPrototypeGet RObjectPrototype part
      end
  | RData (JArr items) =>
      match jsGet (JArr items) part with
      | Some v => Some (RData v)
      | None => arrayPrototypeGet RArrayPrototype part
      end
  | RObjectPrototype => objectPrototypeGet (RData JNull) part
  | RArrayPrototype =>
      if bool_decide (part = "length") then Some (RData (JNum "0"))
      else arrayPrototypeGet RObjectPrototype part
  | _ => None
  end.

(** [typeof current === "object" && current !== null] *)
Definition isObjectRef (current : JsRef) : bool :=
  match current with
  | RData (JObj _) | RData (JArr _) | RObjectPrototype | RArrayPrototype => true
  | _ => false
  end.

(** The loop of [resolveConfigPath]: [typeof current !== "object" ||
    current === null] ends the walk with [undefined]. *)
Fixpoint walkConfigPath (current : option JsRef) (parts : list string)
    : option JsRef :=
  match parts with
  | [] => current
  | part :: rest =>
      match current with
      | Some c =>
          if isObjectRef c then walkConfigPath (jsMember c part) rest else None
      | None => None
      end
  end.

Definition resolveConfigPath (config : option ClawdisConfig)
    (pathStr : string) : option JsRef :=
  let parts := filter (fun p => nonEmpty p = true) (splitChar "." pathStr) in
  walkConfigPath (RData <$> (configToJs <$> config)) parts.

(** [DEFAULT_CONFIG_VALUES] is a plain object, so [in] also finds the
    members of [Object.prototype]; none of those is [true]. *)
Definition isConfigPathTruthy (config : option ClawdisConfig)
    (pathStr : string) : bool :=
  let value := resolveConfigPath config pathStr in
  match value, readMember (recordGet pathStr DEFAULT_CONFIG_VALUES) pathStr with
  | None, Own d => d
  | None, Inherited => false
  | _, _ => isTruthy value
  end.

(** What [skills.__proto__] gives when [skills] has no property of that
    name: [Object.prototype], an object without [enabled], [apiKey], [env]. *)
Definition prototypeAsSkillConfig : SkillConfig :=
  {| sc_enabled := None; sc_apiKey := None; sc_env := None |}.

(** [skills[skillKey]] is an own entry, or an inherited member: a function,
    which fails the object test, or for [__proto__] the prototype itself,
    which passes it. *)
Definition resolveSkillConfig (config : option ClawdisConfig)
    (skillKey : string) : option SkillConfig :=
  match config ≫= cfg_skills with
  | None => None
  | Some skills =>
      match readMember (recordGet skillKey skills) skillKey with
      | Own entry => Some entry
      | Inherited =>
          if bool_decide (skillKey = "__proto__")
          then Some prototypeAsSkillConfig else None
      | Missing => None
      end
  end.

(** ** Metadata decoding ([resolveClawdisMetadata]) *)

(** [Boolean(value)]; [None] is [undefined]. *)
Definition jsTruthy (value : option JsValue) : bool :=
  match value with
  | None | Some JNull => false
  | Some (JBool b) => b
  | Some (JNum numeral) => numeralNonZero numeral && negb (numeralNaN numeral)
  | Some (JStr s) => nonEmpty s
  | Some _ => true
  end.

(** [String(value)]; [None] when the conversion throws.  An array joins its
    elements with commas, [null] printing as nothing.  An object prints
    through the inherited [toString]; when it holds a property [toString] of
    its own, which in a parsed document is no function, neither that nor
    [valueOf] yields a primitive and the conversion throws. *)
Fixpoint jsToString (value : JsValue) : option string :=
  match value with
  | JNull => Some "null"
  | JBool b => Some (if b then "true" else "false")
  | JNum numeral => Some numeral
  | JStr s => Some s
  | JArr items =>
      String.concat ","
        <$> mapM (fun x => match x with JNull => Some "" | _ => jsToString x end)
                 items
  | JObj fields =>
      match recordGet "toString" fields with
      | Some _ => None
      | None => Some "[object Object]"
      end
  end.

(** [typeof value === "string" ? value : undefined] *)
Definition asString (value : option JsValue) : option string :=
  match value with Some (JStr s) => Some s | _ => None end.

(** [typeof value === "boolean" ? value : undefined] *)
Definition asBoolean (value : option JsValue) : option bool :=
  match value with Some (JBool b) => Some b | _ => None end.

(** [typeof value === "object" && value !== null ? value : undefined] *)
Definition asObject (value : option JsValue) : option JsValue :=
  match value with
  | Some (JObj fields) => Some (JObj fields)
  | Some (JArr items) => Some (JArr items)
  | _ => None
  end.

(** [normalizeStringList(input)]; [None] when a conversion throws. *)
Definition normalizeStringList (input : option JsValue) : option (list string) :=
  if negb (jsTruthy input) then Some []
  else match input with
       | Some (JArr items) =>
           (fun texts => List.filter nonEmpty (map trim texts))
             <$> mapM jsToString items
       | Some (JStr s) =>
           Some (List.filter nonEmpty (map trim (splitChar ","%char s)))
       | _ => Some []
       end.

(** [parseInstallSpec(input)]; the outer [None] when a conversion throws,
    the inner [None] for [undefined]. *)
Definition parseInstallSpec (input : option JsValue)
    : option (option SkillInstallSpec) :=
  match asObject input with
  | None => Some None
  | Some raw =>
      let kindRaw :=
        match asString (jsGet raw "kind") with
        | Some k => k
        | None => default "" (asString (jsGet raw "type"))
        end in
      let kind := toLowerCase (trim kindRaw) in
      if negb (bool_decide (kind = "brew") || bool_decide (kind = "node")
               || bool_decide (kind = "go") || bool_decide (kind = "uv"))
      then Some None
      else
        bins ← normalizeStringList (jsGet raw "bins");
        Some (Some {| spec_id := asString (jsGet raw "id");
                      spec_kind := kind;
                      spec_label := asString (jsGet raw "label");
                      spec_bins := match bins with [] => None | _ => Some bins end;
                      spec_formula := asString (jsGet raw "formula");
                      spec_package := asString (jsGet raw "package");
                      spec_module := asString (jsGet raw "module") |})
  end.

(** The [requires] field of the result; [None] when a conversion throws. *)
Definition decodeRequires (requiresRaw : option JsValue)
    : option (option SkillRequires) :=
  match requiresRaw with
  | Some r =>
      bins ← normalizeStringList (jsGet r "bins");
      env ← normalizeStringList (jsGet r "env");
      config ← normalizeStringList (jsGet r "config");
      Some (Some {| req_bins := Some bins; req_env := Some env;
                    req_config := Some config |})
  | None => Some None
  end.

(** The body of the [try] of [resolveClawdisMetadata], after [JSON.parse];
    an exception thrown in it is caught and gives [undefined] as well.  The
    names read here are members of no prototype, so each read is a read of
    an own property. *)
Definition decodeClawdis (parsed : JsValue) : option ClawdisSkillMetadata :=
  match asObject (Some parsed) with
  | None => None
  | Some parsedObj =>
      match asObject (jsGet parsedObj "clawdis") with
      | None => None
      | Some clawdisObj =>
          let requiresRaw := asObject (jsGet clawdisObj "requires") in
          let installRaw :=
            match jsGet clawdisObj "install" with
            | Some (JArr items) => items
            | _ => []
            end in
          parsedSpecs ← mapM (fun entry => parseInstallSpec (Some entry)) installRaw;
          let install := omap id parsedSpecs in
          requires ← decodeRequires requiresRaw;
          Some {| md_always := asBoolean (jsGet clawdisObj "always");
                  md_emoji := asString (jsGet clawdisObj "emoji");
                  md_homepage := asString (jsGet clawdisObj "homepage");
                  md_skillKey := asString (jsGet clawdisObj "skillKey");
                  md_primaryEnv := asString (jsGet clawdisObj "primaryEnv");
                  md_requires := requires;
                  md_install :=
                    match install with [] => None | _ => Some install end |}
      end
  end.

(** ** The host: file system, search path, loader, runner *)

Inductive LoaderResult :=
  | LoadedList (skills : list Skill)
  | LoadedWrapper (skills : list Skill)
  | LoadedOther.

Record Host := {
  (** [path.delimiter] and [path.join] *)
  path_delimiter : ascii;
  path_join : string -> string -> string;
  (** [fs.accessSync(candidate, fs.constants.X_OK)] does not throw *)
  accessSync_X_OK : string -> bool;
  (** [fs.existsSync] *)
  existsSync : string -> bool;
  (** [fs.readFileSync(path, "utf-8")]; [None] when it throws *)
  readFileSync : string -> option string;
  (** [path.dirname(process.execPath)]; [None] when it throws *)
  execDir : option string;
  (** the package root of the running module; [None] when it throws *)
  packageRoot : option string;
  (** [CONFIG_DIR] and [resolveUserPath] of [utils.ts] *)
  CONFIG_DIR : string;
  resolveUserPath : string -> string;
  (** the external loader [loadSkillsFromDir({dir, source})] *)
  loadSkillsFromDir : string -> string -> LoaderResult;
  (** [formatSkillsForPrompt] *)
  formatSkillsForPrompt : list Skill -> string;
  (** [JSON.parse]; [None] when it throws *)
  JSON_parse : string -> option JsValue;
}.

(** [process.env[name]] for a computed name: the variable when it is set,
    else what [Object.prototype] holds under that name. *)
Definition readEnv (env : gmap string string) (name : string) : Member string :=
  readMember (env !! name) name.

Section Eligibility.
Variable h : Host.
Variable env : gmap string string.

Definition hasBinary (bin : string) : bool :=
  let pathEnv := default "" (env !! "PATH") in
  let parts :=
    filter (fun p => nonEmpty p = true) (splitChar (path_delimiter h) pathEnv) in
  existsb (fun part => accessSync_X_OK h (path_join h part bin)) parts.

Definition resolveSkillKey (skill : Skill) (entry : option SkillEntry)
    : string :=
  default (skill_name skill) ((entry ≫= entry_clawdis) ≫= md_skillKey).

(** The body of the loop over [requiredEnv]: [true] when the iteration
    continues, [false] when it returns [false]. *)
Definition envRequirementMet (entry : SkillEntry)
    (skillConfig : option SkillConfig) (envName : string) : bool :=
  if truthyMember (readEnv env envName) then true
  else if match skillConfig ≫= sc_env with
          | Some table => truthyMember (readMember (recordGet envName table) envName)
          | None => false
          end
       then true
  else if truthyStr (skillConfig ≫= sc_apiKey)
          && bool_decide (entry_clawdis entry ≫= md_primaryEnv = Some envName)
       then true
  else false.

Definition shouldIncludeSkill (entry : SkillEntry)
    (config : option ClawdisConfig) : bool :=
  let skillKey := resolveSkillKey (entry_skill entry) (Some entry) in
  let skillConfig := resolveSkillConfig config skillKey in
  if bool_decide (skillConfig ≫= sc_enabled = Some false) then false
  else if bool_decide (entry_clawdis entry ≫= md_always = Some true) then true
  else
    let requires := entry_clawdis entry ≫= md_requires in
    let requiredBins := default [] (requires ≫= req_bins) in
    if negb (forallb hasBinary requiredBins) then false
    else
      let requiredEnv := default [] (requires ≫= req_env) in
      if negb (forallb (envRequirementMet entry skillConfig) requiredEnv)
      then false
      else
        let requiredConfig := default [] (requires ≫= req_config) in
        if negb (forallb (isConfigPathTruthy config) requiredConfig)
        then false
        else true.

Definition filterSkillEntries (entries : list SkillEntry)
    (config : option ClawdisConfig) : list SkillEntry :=
  List.filter (fun entry => shouldIncludeSkill entry config) entries.

Definition filterWorkspaceSkillEntries := filterSkillEntries.
End Eligibility.

(** ** Environment activation ([applySkillEnvOverrides]) *)

Abbreviation Env := (gmap string string).

(** One element of [updates]: the key and its prior value. *)
Record EnvUpdate := {
  upd_key : string;
  upd_prev : option string;
}.

(** A name that the environment accepts: [setenv] and [unsetenv] refuse
    the empty name and a name that holds [=]. *)
Definition settable (key : string) : bool :=
  nonEmpty key && negb (hasChar "="%char key).

(** [process.env[key] = value]; a refused name leaves the environment as it
    is, without an exception. *)
Definition setEnv (key value : string) (env : Env) : Env :=
  if settable key then <[key := value]> env else env.

(** [delete process.env[key]] *)
Definition deleteEnv (key : string) (env : Env) : Env :=
  if settable key then delete key env else env.

(** [updates.push({ key, prev }); process.env[key] = value] *)
Definition recordAndSet (key : string) (prev : option string) (value : string)
    (st : Env * list EnvUpdate) : Env * list EnvUpdate :=
  (setEnv key value st.1, st.2 ++ [{| upd_key := key; upd_prev := prev |}]).

(** The guarded write of both loops: [process.env[key]] is read; a truthy
    read (a non-empty value, or a member of [Object.prototype] for a
    variable that is not set) skips the write, a falsy one (the empty string
    or [undefined]) is recorded as [prev] and the variable is assigned. *)
Definition injectVariable (key value : string) (st : Env * list EnvUpdate)
    : Env * list EnvUpdate :=
  match readEnv st.1 key with
  | Own prev =>
      if nonEmpty prev then st else recordAndSet key (Some prev) value st
  | Inherited => st
  | Missing => recordAndSet key None value st
  end.

(** The loop over [Object.entries(skillConfig.env)]. *)
Definition injectEnvTable (table : list (string * string))
    (st : Env * list EnvUpdate) : Env * list EnvUpdate :=
  foldl (fun st kv =>
           if negb (nonEmpty kv.2) then st else injectVariable kv.1 kv.2 st)
        st table.

(** The credential injection that ends each iteration. *)
Definition injectApiKey (primaryEnv apiKey : option string)
    (st : Env * list EnvUpdate) : Env * list EnvUpdate :=
  match primaryEnv, apiKey with
  | Some p, Some a =>
      if nonEmpty p && nonEmpty a then injectVariable p a st else st
  | _, _ => st
  end.

(** The closure that both activation functions return. *)
Definition restoreUpdates (updates : list EnvUpdate) (env : Env) : Env :=
  foldl (fun e update =>
           match upd_prev update with
           | None => deleteEnv (upd_key update) e
           | Some prev => setEnv (upd_key update) prev e
           end)
        env updates.

(** One iteration of the loop of [applySkillEnvOverrides]. *)
Definition activateEntry (config : option ClawdisConfig)
    (st : Env * list EnvUpdate) (entry : SkillEntry) : Env * list EnvUpdate :=
  let skillKey := resolveSkillKey (entry_skill entry) (Some entry) in
  match resolveSkillConfig config skillKey with
  | None => st
  | Some skillConfig =>
      let st1 :=
        match sc_env skillConfig with
        | Some table => injectEnvTable table st
        | None => st
        end in
      injectApiKey (entry_clawdis entry ≫= md_primaryEnv)
                   (sc_apiKey skillConfig) st1
  end.

(** The mutation loop of [applySkillEnvOverrides]: the environment after
    it and the recorded [updates]. *)
Definition skillEnvUpdates (skills : list SkillEntry)
    (config : option ClawdisConfig) (env : Env) : Env * list EnvUpdate :=
  foldl (activateEntry config) (env, []) skills.

(** [applySkillEnvOverrides]: the environment it leaves and the reversal
    function it returns. *)
Definition applySkillEnvOverrides (skills : list SkillEntry)
    (config : option ClawdisConfig) (env : Env) : Env * (Env -> Env) :=
  let st := skillEnvUpdates skills config env in
  (st.1, restoreUpdates st.2).

(** One iteration of the loop of [applySkillEnvOverridesFromSnapshot]. *)
Definition activateSnapshotSkill (config : option ClawdisConfig)
    (st : Env * list EnvUpdate) (skill : SnapshotSkill)
    : Env * list EnvUpdate :=
  match resolveSkillConfig config (snap_name skill) with
  | None => st
  | Some skillConfig =>
      let st1 :=
        match sc_env skillConfig with
        | Some table => injectEnvTable table st
        | None => st
        end in
      injectApiKey (snap_primaryEnv skill) (sc_apiKey skillConfig) st1
  end.

Definition snapshotEnvUpdates (snapshot : option SkillSnapshot)
    (config : option ClawdisConfig) (env : Env) : Env * list EnvUpdate :=
  match snapshot with
  | None => (env, [])
  | Some snap => foldl (activateSnapshotSkill config) (env, []) (snapshot_skills snap)
  end.

Definition applySkillEnvOverridesFromSnapshot (snapshot : option SkillSnapshot)
    (config : option ClawdisConfig) (env : Env) : Env * (Env -> Env) :=
  match snapshot with
  | None => (env, fun e => e)
  | Some _ =>
      let st := snapshotEnvUpdates snapshot config env in
      (st.1, restoreUpdates st.2)
  end.

(** ** Frontmatter ([parseFrontmatter]) *)

Definition LF : ascii := "010"%char.
Definition CR : ascii := "013"%char.
Definition dquote : ascii := "034"%char.
Definition squote : ascii := "039"%char.

(** [content.replace(/\r\n/g, "\n")] *)
Fixpoint replaceCRLF (s : string) : string :=
  match s with
  | EmptyString => EmptyString
  | String c s' =>
      match s' with
      | String d s'' =>
          if bool_decide (c = CR) && bool_decide (d = LF)
          then String LF (replaceCRLF s'')
          else String c (replaceCRLF s')
      | EmptyString => String c EmptyString
      end
  end.

(** [content.replace(/\r/g, "\n")] *)
Fixpoint replaceCR (s : string) : string :=
  match s with
  | EmptyString => EmptyString
  | String c s' => String (if bool_decide (c = CR) then LF else c) (replaceCR s')
  end.

Fixpoint dropStr (n : nat) (s : string) : string :=
  match n, s with
  | S n', String _ s' => dropStr n' s'
  | _, _ => s
  end.

Fixpoint takeStr (n : nat) (s : string) : string :=
  match n, s with
  | S n', String c s' => String c (takeStr n' s')
  | _, _ => EmptyString
  end.

(** [s.slice(start, end)] for non-negative indices. *)
Definition slice (s : string) (start end_ : nat) : string :=
  takeStr (end_ - start) (dropStr start s).

(** Search of [needle] in [s], whose first character has index [pos]. *)
Fixpoint indexOfAt (needle s : string) (pos : nat) : option nat :=
  if String.prefix needle s then Some pos
  else match s with
       | EmptyString => None
       | String _ s' => indexOfAt needle s' (S pos)
       end.

(** [s.indexOf(needle, from)]; [None] is -1. *)
Definition indexOf (s needle : string) (from : nat) : option nat :=
  indexOfAt needle (dropStr from s) from.

Fixpoint removeLast (s : string) : string :=
  match s with
  | EmptyString => EmptyString
  | String c EmptyString => EmptyString
  | String c s' => String c (removeLast s')
  end.

Definition startsWithChar (s : string) (c : ascii) : bool :=
  match s with String d _ => bool_decide (d = c) | EmptyString => false end.

Definition stripQuotes (value : string) : string :=
  if (startsWithChar value dquote && endsWithChar value dquote)
     || (startsWithChar value squote && endsWithChar value squote)
  then removeLast (dropStr 1 value)
  else value.

(** The longest prefix in the class [[\w-]] and what follows it. *)
Fixpoint spanWord (s : string) : string * string :=
  match s with
  | EmptyString => (EmptyString, EmptyString)
  | String c s' =>
      if isWordOrDash c
      then let r := spanWord s' in (String c r.1, r.2)
      else (EmptyString, s)
  end.

(** The match of a line against the pattern of [parseFrontmatter]: a
    non-empty run of [[\w-]], a colon, white space, and the rest of the
    line; the result is the two groups.  The line holds no line terminator,
    so the second group is all that follows the white space. *)
Definition matchLine (line : string) : option (string * string) :=
  match spanWord line with
  | (String k ks, String c rest) =>
      if bool_decide (c = ":"%char) then Some (String k ks, trimStart rest)
      else None
  | _ => None
  end.

(** [frontmatter[key] = value] on the plain object [frontmatter], held as
    the map of its own properties: the name [__proto__] reaches the setter
    of [Object.prototype], which ignores a string and adds no property. *)
Definition assignProperty (key value : string) (object : gmap string string)
    : gmap string string :=
  if bool_decide (key = "__proto__") then object else <[key := value]> object.

Definition parseFrontmatter (content : string) : gmap string string :=
  let normalized := replaceCR (replaceCRLF content) in
  if negb (startsWith normalized "---") then ∅
  else
    match indexOf normalized (String LF "---") 3 with
    | None => ∅
    | Some endIndex =>
        let block := slice normalized 4 endIndex in
        foldl (fun frontmatter line =>
                 match matchLine line with
                 | None => frontmatter
                 | Some (key, raw) =>
                     let value := stripQuotes (trim raw) in
                     if negb (nonEmpty key) || negb (nonEmpty value)
                     then frontmatter
                     else assignProperty key value frontmatter
                 end)
              ∅ (splitChar LF block)
    end.

(** [typeof frontmatter[key] === "string" ? frontmatter[key] : undefined]:
    an own property is a string, an inherited member is not. *)
Definition getFrontmatterValue (frontmatter : gmap string string)
    (key : string) : option string :=
  match readMember (frontmatter !! key) key with
  | Own raw => Some raw
  | _ => None
  end.

(** ** Source merge ([loadSkillEntries]) *)

(** [merged.set(key, value)] on a [Map] in insertion order. *)
Fixpoint Map_set {V} (key : string) (value : V) (m : list (string * V))
    : list (string * V) :=
  match m with
  | [] => [(key, value)]
  | (k, v) :: m' =>
      if bool_decide (k = key) then (k, value) :: m'
      else (k, v) :: Map_set key value m'
  end.

(** [for (const skill of skills) merged.set(skill.name, skill)] *)
Definition setAll (skills : list Skill) (merged : list (string * Skill))
    : list (string * Skill) :=
  foldl (fun m skill => Map_set (skill_name skill) skill m) merged skills.

(** Precedence: extra < bundled < managed < workspace. *)
Definition mergeSkills (extraSkills bundledSkills managedSkills
    workspaceSkills : list Skill) : list Skill :=
  let merged := [] in
  let merged := setAll extraSkills merged in
  let merged := setAll bundledSkills merged in
  let merged := setAll managedSkills merged in
  let merged := setAll workspaceSkills merged in
  map snd merged.

Record LoadOpts := {
  opt_config : option ClawdisConfig;
  opt_managedSkillsDir : option string;
  opt_bundledSkillsDir : option string;
}.

Section Loading.
Variable h : Host.
Variable env : Env.

Definition resolveBundledSkillsDir : option string :=
  let override := trim <$> env !! "CLAWDIS_BUNDLED_SKILLS_DIR" in
  if truthyStr override then override
  else
    let sibling := (fun d => path_join h d "skills") <$> execDir h in
    if from_option (existsSync h) false sibling then sibling
    else
      let candidate := (fun r => path_join h r "skills") <$> packageRoot h in
      if from_option (existsSync h) false candidate then candidate
      else None.

(** The local [loadSkills]: either shape of the loader's result. *)
Definition loadSkills (dir source : string) : list Skill :=
  match loadSkillsFromDir h dir source with
  | LoadedList skills | LoadedWrapper skills => skills
  | LoadedOther => []
  end.

Definition resolveClawdisMetadata (frontmatter : gmap string string)
    : option ClawdisSkillMetadata :=
  match getFrontmatterValue frontmatter "metadata" with
  | Some raw => if nonEmpty raw then JSON_parse h raw ≫= decodeClawdis else None
  | None => None
  end.

Definition annotateSkill (skill : Skill) : SkillEntry :=
  let frontmatter :=
    match readFileSync h (skill_filePath skill) with
    | Some raw => parseFrontmatter raw
    | None => ∅
    end in
  {| entry_skill := skill;
     entry_frontmatter := frontmatter;
     entry_clawdis := resolveClawdisMetadata frontmatter |}.

Definition bundledSkillsOf (opts : option LoadOpts) : list Skill :=
  let bundledSkillsDir :=
    match opts ≫= opt_bundledSkillsDir with
    | Some d => Some d
    | None => resolveBundledSkillsDir
    end in
  match bundledSkillsDir with
  | Some d => if nonEmpty d then loadSkills d "clawdis-bundled" else []
  | None => []
  end.

Definition extraSkillsOf (opts : option LoadOpts) : list Skill :=
  let extraDirsRaw :=
    default [] (((opts ≫= opt_config) ≫= cfg_skillsLoad) ≫= sl_extraDirs) in
  let extraDirs := List.filter nonEmpty (map trim extraDirsRaw) in
  flat_map (fun dir => loadSkills (resolveUserPath h dir) "clawdis-extra")
           extraDirs.

Definition managedSkillsOf (opts : option LoadOpts) : list Skill :=
  let managedSkillsDir :=
    default (path_join h (CONFIG_DIR h) "skills")
            (opts ≫= opt_managedSkillsDir) in
  loadSkills managedSkillsDir "clawdis-managed".

Definition workspaceSkillsOf (workspaceDir : string) : list Skill :=
  loadSkills (path_join h workspaceDir "skills") "clawdis-workspace".

Definition loadSkillEntries (workspaceDir : string) (opts : option LoadOpts)
    : list SkillEntry :=
  let bundledSkills := bundledSkillsOf opts in
  let extraSkills := extraSkillsOf opts in
  let managedSkills := managedSkillsOf opts in
  let workspaceSkills := workspaceSkillsOf workspaceDir in
  map annotateSkill
      (mergeSkills extraSkills bundledSkills managedSkills workspaceSkills).

Definition loadWorkspaceSkillEntries := loadSkillEntries.

(** [buildWorkspaceSkillSnapshot]; [entries] is [opts.entries]. *)
Definition buildWorkspaceSkillSnapshot (workspaceDir : string)
    (opts : option LoadOpts) (entries : option (list SkillEntry))
    : SkillSnapshot :=
  let skillEntries := default (loadSkillEntries workspaceDir opts) entries in
  let eligible := filterSkillEntries h env skillEntries (opts ≫= opt_config) in
  {| snapshot_prompt := formatSkillsForPrompt h (map entry_skill eligible);
     snapshot_skills :=
       map (fun entry =>
              {| snap_name := skill_name (entry_skill entry);
                 snap_primaryEnv := entry_clawdis entry ≫= md_primaryEnv |})
           eligible |}.

Definition buildWorkspaceSkillsPrompt (workspaceDir : string)
    (opts : option LoadOpts) (entries : option (list SkillEntry)) : string :=
  let skillEntries := default (loadSkillEntries workspaceDir opts) entries in
  let eligible := filterSkillEntries h env skillEntries (opts ≫= opt_config) in
  formatSkillsForPrompt h (map entry_skill eligible).
End Loading.

(** ** Install dispatch ([skills-install.ts]) *)

Record RunResult := {
  run_code : option Z;
  run_stdout : string;
  run_stderr : string;
}.

Record SkillInstallResult := {
  ok : bool;
  message : string;
  stdout : string;
  stderr : string;
  code : option Z;
}.

(** A double as the clamp of the timeout sees it: not-a-number, an
    infinity, or a finite value, held as a fraction (every finite double is
    one; the two zeros are not told apart, and the clamp, whose lower bound
    is positive, never shows the difference). *)
Inductive JsNumber :=
  | NaN
  | NegInfinity
  | Finite (q : Q)
  | PosInfinity.

(** [a < b]; false when either side is not-a-number. *)
Definition numLt (a b : JsNumber) : bool :=
  match a, b with
  | NaN, _ | _, NaN => false
  | _, NegInfinity => false
  | NegInfinity, _ => true
  | PosInfinity, _ => false
  | _, PosInfinity => true
  | Finite x, Finite y => negb (Qle_bool y x)
  end.

(** [Math.max(a, b)] and [Math.min(a, b)]: not-a-number when either
    argument is, else one of the arguments. *)
Definition Math_max (a b : JsNumber) : JsNumber :=
  match a, b with
  | NaN, _ | _, NaN => NaN
  | _, _ => if numLt a b then b else a
  end.

Definition Math_min (a b : JsNumber) : JsNumber :=
  match a, b with
  | NaN, _ | _, NaN => NaN
  | _, _ => if numLt b a then b else a
  end.

Record SkillInstallRequest := {
  workspaceDir : string;
  skillName : string;
  installId : string;
  timeoutMs : option JsNumber;
  config : option ClawdisConfig;
}.

(** A computation that may await [runCommandWithTimeout(argv, {timeoutMs})]. *)
Inductive Proc (A : Type) : Type :=
  | Ret (a : A)
  | Run (argv : list string) (timeout : JsNumber) (k : RunResult -> Proc A).
Arguments Ret {A} a.
Arguments Run {A} argv timeout k.

Fixpoint bind {A B} (p : Proc A) (f : A -> Proc B) : Proc B :=
  match p with
  | Ret a => f a
  | Run argv t k => Run argv t (fun r => bind (k r) f)
  end.

Global Instance Proc_ret : MRet Proc := @Ret.
Global Instance Proc_bind : MBind Proc := fun A B f p => bind p f.

Definition runCommandWithTimeout (argv : list string) (timeout : JsNumber)
    : Proc RunResult :=
  Run argv timeout Ret.

(** The commands a computation spawns when the runner answers with
    [answer], in order. *)
Fixpoint spawned {A} (answer : list string -> RunResult) (p : Proc A)
    : list (list string) :=
  match p with
  | Ret _ => []
  | Run argv _ k => argv :: spawned answer (k (answer argv))
  end.

(** The value a computation returns when the runner answers with [answer]. *)
Fixpoint outcome {A} (answer : list string -> RunResult) (p : Proc A) : A :=
  match p with
  | Ret a => a
  | Run argv _ k => outcome answer (k (answer argv))
  end.

Definition failure (msg : string) : SkillInstallResult :=
  {| ok := false; message := msg; stdout := ""; stderr := ""; code := None |}.

(** [entry.clawdis?.install ?? []] *)
Definition installSpecsOf (entry : SkillEntry) : list SkillInstallSpec :=
  default [] (entry_clawdis entry ≫= md_install).

Definition findInstallSpec (entry : SkillEntry) (installId : string)
    : option SkillInstallSpec :=
  let specs := installSpecsOf entry in
  findInstallSpecFrom 0 specs installId.

Definition buildNodeInstallCommand (packageName : string)
    (prefs : SkillsInstallPreferences) : list string :=
  if bool_decide (nodeManager prefs = "pnpm")
  then ["pnpm"; "add"; "-g"; packageName]
  else if bool_decide (nodeManager prefs = "yarn")
  then ["yarn"; "global"; "add"; packageName]
  else ["npm"; "install"; "-g"; packageName].

Record InstallCommand := {
  argv : option (list string);
  error : option string;
}.

Definition synthError (msg : string) : InstallCommand :=
  {| argv := None; error := Some msg |}.

Definition synthArgv (a : list string) : InstallCommand :=
  {| argv := Some a; error := None |}.

Definition buildInstallCommand (spec : SkillInstallSpec)
    (prefs : SkillsInstallPreferences) : InstallCommand :=
  if bool_decide (spec_kind spec = "brew") then
    match spec_formula spec with
    | Some formula =>
        if nonEmpty formula then synthArgv ["brew"; "install"; formula]
        else synthError "missing brew formula"
    | None => synthError "missing brew formula"
    end
  else if bool_decide (spec_kind spec = "node") then
    match spec_package spec with
    | Some package =>
        if nonEmpty package then synthArgv (buildNodeInstallCommand package prefs)
        else synthError "missing node package"
    | None => synthError "missing node package"
    end
  else if bool_decide (spec_kind spec = "go") then
    match spec_module spec with
    | Some module =>
        if nonEmpty module then synthArgv ["go"; "install"; module]
        else synthError "missing go module"
    | None => synthError "missing go module"
    end
  else if bool_decide (spec_kind spec = "uv") then
    match spec_package spec with
    | Some package =>
        if nonEmpty package then synthArgv ["uv"; "tool"; "install"; package]
        else synthError "missing uv package"
    | None => synthError "missing uv package"
    end
  else synthError "unsupported installer".

(** [Math.min(Math.max(params.timeoutMs ?? 300_000, 1_000), 900_000)] *)
Definition clampTimeout (t : option JsNumber) : JsNumber :=
  Math_min (Math_max (default (Finite 300000) t) (Finite 1000)) (Finite 900000).

Section Install.
Variable h : Host.
Variable env : Env.

Definition installSkill (params : SkillInstallRequest)
    : Proc SkillInstallResult :=
  let timeoutMs := clampTimeout (timeoutMs params) in
  let workspaceDir := resolveUserPath h (workspaceDir params) in
  let entries := loadWorkspaceSkillEntries h env workspaceDir None in
  match List.find (fun item =>
                     bool_decide (skill_name (entry_skill item) = skillName params))
                  entries with
  | None => Ret (failure ("Skill not found: " +:+ skillName params))
  | Some entry =>
      match findInstallSpec entry (installId params) with
      | None => Ret (failure ("Installer not found: " +:+ installId params))
      | Some spec =>
          let prefs := resolveSkillsInstallPreferences (config params) in
          let command := buildInstallCommand spec prefs in
          if truthyStr (error command)
          then Ret (failure (default "" (error command)))
          else
            let run_install :=
              match argv command with
              | None | Some [] => Ret (failure "invalid install command")
              | Some _ =>
                  result ←
                    match argv command with
                    | None | Some [] =>
                        Ret {| run_code := None; run_stdout := "";
                               run_stderr := "invalid install command" |}
                    | Some argv => runCommandWithTimeout argv timeoutMs
                    end;
                  let success := bool_decide (run_code result = Some 0%Z) in
                  Ret {| ok := success;
                         message := if success then "Installed"
                                    else "Install failed";
                         stdout := trim (run_stdout result);
                         stderr := trim (run_stderr result);
                         code := run_code result |}
              end in
            if bool_decide (spec_kind spec = "uv") && negb (hasBinary h env "uv")
            then
              if hasBinary h env "brew" then
                brewResult ←
                  runCommandWithTimeout ["brew"; "install"; "uv"] timeoutMs;
                if negb (bool_decide (run_code brewResult = Some 0%Z))
                then Ret {| ok := false;
                            message := "Failed to install uv (brew)";
                            stdout := trim (run_stdout brewResult);
                            stderr := trim (run_stderr brewResult);
                            code := run_code brewResult |}
                else run_install
              else Ret (failure "uv not installed (install via brew)")
            else run_install
      end
  end.
End Install.

(** ** Vocabulary of the statements *)

(** The last record of [skills] that carries the name [n]. *)
Definition lastNamed (n : string) (skills : list Skill) : option Skill :=
  last (List.filter (fun s => bool_decide (skill_name s = n)) skills).

(** The record that wins the name [n]: workspace > managed > bundled > extra. *)
Definition winner (n : string) (extraSkills bundledSkills managedSkills
    workspaceSkills : list Skill) : option Skill :=
  match lastNamed n workspaceSkills with
  | Some s => Some s
  | None =>
      match lastNamed n managedSkills with
      | Some s => Some s
      | None =>
          match lastNamed n bundledSkills with
          | Some s => Some s
          | None => lastNamed n extraSkills
          end
      end
  end.

(** Every value of the merged map sits under its own name. *)
Definition named (m : list (string * Skill)) : Prop :=
  forall k s, (k, s) ∈ m -> skill_name s = k.

(** The list [entry.clawdis?.requires?.env ?? []]. *)
Definition requiredEnvOf (entry : SkillEntry) : list string :=
  default [] ((entry_clawdis entry ≫= md_requires) ≫= req_env).

(** The per-skill configuration that [shouldIncludeSkill] and
    [applySkillEnvOverrides] consult for an entry. *)
Definition skillConfigOf (config : option ClawdisConfig) (entry : SkillEntry)
    : option SkillConfig :=
  resolveSkillConfig config (resolveSkillKey (entry_skill entry) (Some entry)).

(** The [skills] list of the snapshot that [buildWorkspaceSkillSnapshot]
    makes of eligible entries. *)
Definition snapshotSkillsOf (eligible : list SkillEntry) : list SnapshotSkill :=
  map (fun entry =>
         {| snap_name := skill_name (entry_skill entry);
            snap_primaryEnv := entry_clawdis entry ≫= md_primaryEnv |})
      eligible.

(** The list [entry.clawdis?.requires?.config ?? []]. *)
Definition requiredConfigOf (entry : SkillEntry) : list string :=
  default [] ((entry_clawdis entry ≫= md_requires) ≫= req_config).

(** Truthiness of [process.env[name]]. *)
Definition truthyEnv (env : Env) (name : string) : bool :=
  truthyMember (readEnv env name).

(** The read [object[name]] is truthy: the object holds a non-empty value
    of its own under [name], or it holds none and [name] names a member of
    [Object.prototype]. *)
Definition holdsTruthy (own : option string) (name : string) : Prop :=
  (exists v, own = Some v /\ v <> EmptyString)
  \/ (own = None /\ inheritedName name = true).

(** The per-skill configuration [skillConfig] answers for the variable [E]:
    the read of [E] in its [env] table is truthy, or [E] is the primary
    variable of the skill and [apiKey] is non-empty. *)
Definition configProvides (entry : SkillEntry)
    (skillConfig : option SkillConfig) (E : string) : Prop :=
  (exists sc table, skillConfig = Some sc /\ sc_env sc = Some table
                    /\ holdsTruthy (recordGet E table) E)
  \/ (entry_clawdis entry ≫= md_primaryEnv = Some E
      /\ exists sc a, skillConfig = Some sc /\ sc_apiKey sc = Some a
                      /\ a <> EmptyString).

(** The environment requirement for [E], in the words of the amended
    claim: the read [process.env[E]] is truthy, or the configuration
    answers for [E]. *)
Definition envSatisfied (env : Env) (entry : SkillEntry)
    (skillConfig : option SkillConfig) (E : string) : Prop :=
  holdsTruthy (env !! E) E \/ configProvides entry skillConfig E.

(** The invariant of both activation loops, against the environment
    [env0] they started from: every recorded update holds the prior value
    of a variable whose read was falsy, and every variable is either
    untouched or holds a non-empty value under a name the environment
    accepts, with its prior value recorded. *)
Definition Tracks (env0 : Env) (st : Env * list EnvUpdate) : Prop :=
  (forall u, u ∈ st.2 ->
     upd_prev u = env0 !! upd_key u
     /\ truthyEnv env0 (upd_key u) = false)
  /\ (forall k,
        st.1 !! k = env0 !! k
        \/ (truthyStr (st.1 !! k) = true
            /\ settable k = true
            /\ {| upd_key := k; upd_prev := env0 !! k |} ∈ st.2)).

(** The per-skill configuration found under [key] overrides [k] with a
    non-empty value, through its [env] table or through [apiKey] for the
    primary variable [primaryEnv]. *)
Definition providesOverride (config : option ClawdisConfig) (key : string)
    (primaryEnv : option string) (k : string) : Prop :=
  exists sc, resolveSkillConfig config key = Some sc
    /\ ((exists table v, sc_env sc = Some table /\ (k, v) ∈ table
                         /\ v <> EmptyString)
        \/ (primaryEnv = Some k /\ k <> EmptyString
            /\ exists a, sc_apiKey sc = Some a /\ a <> EmptyString)).

(** The request names an existing skill and one of its installers:
    [installSkill] passes the two not-found returns with [entry] and [spec]. *)
Definition resolvesTo (h : Host) (env : Env) (params : SkillInstallRequest)
    (entry : SkillEntry) (spec : SkillInstallSpec) : Prop :=
  List.find (fun item =>
               bool_decide (skill_name (entry_skill item) = skillName params))
            (loadWorkspaceSkillEntries h env
               (resolveUserPath h (workspaceDir params)) None) = Some entry
  /\ findInstallSpec entry (installId params) = Some spec.

(** The result built from the output of a finished process. *)
Definition processResult (success : bool) (msg : string) (r : RunResult)
    : SkillInstallResult :=
  {| ok := success; message := msg; stdout := trim (run_stdout r);
     stderr := trim (run_stderr r); code := run_code r |}.

(** ** Example inputs *)

Definition mkSpec (id : option string) (kind : string)
    (formula package module : option string) : SkillInstallSpec :=
  {| spec_id := id; spec_kind := kind; spec_label := None; spec_bins := None;
     spec_formula := formula; spec_package := package; spec_module := module |}.

Definition mkRequires (envNames : list string) : SkillRequires :=
  {| req_bins := Some []; req_env := Some envNames; req_config := Some [] |}.

Definition mkMeta (always : option bool) (skillKey primaryEnv : option string)
    (requires : option SkillRequires) (install : option (list SkillInstallSpec))
    : ClawdisSkillMetadata :=
  {| md_always := always; md_skillKey := skillKey; md_primaryEnv := primaryEnv;
     md_emoji := None; md_homepage := None; md_requires := requires;
     md_install := install |}.

Definition mkEntry (name : string) (md : option ClawdisSkillMetadata)
    : SkillEntry :=
  {| entry_skill := {| skill_name := name;
                       skill_filePath := "/ws/skills/" +:+ name +:+ "/SKILL.md";
                       skill_description := name |};
     entry_frontmatter := ∅;
     entry_clawdis := md |}.

Definition mkSkillConfig (enabled : option bool) (apiKey : option string)
    (envTable : option (list (string * string))) : SkillConfig :=
  {| sc_enabled := enabled; sc_apiKey := apiKey; sc_env := envTable |}.

Definition mkConfig (skills : list (string * SkillConfig)) : ClawdisConfig :=
  {| cfg_skills := Some skills; cfg_skillsInstall := None;
     cfg_skillsLoad := None; cfg_other := [] |}.

Definition ex_join (a b : string) : string := a +:+ "/" +:+ b.

Definition ex_content : string :=
  "---" +:+ String LF "name: tool" +:+ String LF "metadata: {}"
  +:+ String LF "---" +:+ String LF "".

(** A host with one workspace skill [tool] whose metadata text parses to
    the document [md], and the executables [bins] in [/bin]. *)
Definition ex_host (md : JsValue) (bins : list string) : Host :=
  {| path_delimiter := ":"%char;
     path_join := ex_join;
     accessSync_X_OK p := bool_decide (p ∈ map (ex_join "/bin") bins);
     existsSync _ := false;
     readFileSync p :=
       if bool_decide (p = "/ws/skills/tool/SKILL.md") then Some ex_content
       else None;
     execDir := None;
     packageRoot := None;
     CONFIG_DIR := "/home/user/.clawdis";
     resolveUserPath p := p;
     loadSkillsFromDir dir _ :=
       if bool_decide (dir = "/ws/skills")
       then LoadedList [entry_skill (mkEntry "tool" None)]
       else LoadedList [];
     formatSkillsForPrompt skills := String.concat "," (map skill_name skills);
     JSON_parse _ := Some md |}.

Definition ex_env : Env := {["PATH" := "/bin"]}.

Definition ex_request (id : string) : SkillInstallRequest :=
  {| workspaceDir := "/ws"; skillName := "tool"; installId := id;
     timeoutMs := None; config := None |}.

(** The document [{clawdis: {install: [spec]}}]. *)
Definition installDoc (spec : list (string * JsValue)) : JsValue :=
  JObj [("clawdis", JObj [("install", JArr [JObj spec])])].

Definition ex_uv_no_package : JsValue := installDoc [("kind", JStr "uv")].

Definition ex_uv_package : JsValue :=
  installDoc [("kind", JStr "uv"); ("package", JStr "ruff")].

(** The entry that [ex_host md bins] loads for its one skill. *)
Definition ex_loaded (md : JsValue) : SkillEntry :=
  annotateSkill (ex_host md []) (entry_skill (mkEntry "tool" None)).

Definition ex_failed_run : RunResult :=
  {| run_code := Some 1%Z; run_stdout := " no bottle "; run_stderr := "" |}.

Definition ex_brew_no_formula : JsValue := installDoc [("kind", JStr "brew")].

Definition ex_specs_collision : list SkillInstallSpec :=
  [mkSpec (Some "brew-1") "go" None None (Some "example.com/cmd/x");
   mkSpec None "brew" (Some "jq") None None].

Definition ex_specs : list SkillInstallSpec :=
  [mkSpec (Some "fast") "go" None None (Some "example.com/cmd/x");
   mkSpec None "brew" (Some "jq") None None].

Definition ex_entry_specs : SkillEntry :=
  mkEntry "tool" (Some (mkMeta None None None None (Some ex_specs))).

Definition ex_entry_collision : SkillEntry :=
  mkEntry "tool" (Some (mkMeta None None None None (Some ex_specs_collision))).

Definition ex_spec_jq : SkillInstallSpec :=
  mkSpec None "brew" (Some "jq") None None.

Definition ex_weather : SkillEntry :=
  mkEntry "weather"
    (Some (mkMeta None None None (Some (mkRequires ["WEATHER_KEY"])) None)).

Definition ex_weather_always : SkillEntry :=
  mkEntry "weather"
    (Some (mkMeta (Some true) None None (Some (mkRequires ["WEATHER_KEY"])) None)).

Definition ex_weather_keyed : SkillEntry :=
  mkEntry "weather"
    (Some (mkMeta None (Some "wx") (Some "WEATHER_KEY") None None)).

Definition ex_config_wx : ClawdisConfig :=
  mkConfig [("wx", mkSkillConfig None (Some "k") None)].

Definition ex_config_disabled : ClawdisConfig :=
  mkConfig [("weather", mkSkillConfig (Some false) None None)].

Definition ex_config_override : ClawdisConfig :=
  mkConfig [("weather",
             mkSkillConfig None None (Some [("WEATHER_KEY", "secret")]))].

Definition ex_env_empty_key : Env := <["WEATHER_KEY" := ""]> ex_env.

Definition ex_opts (config : ClawdisConfig) : LoadOpts :=
  {| opt_config := Some config; opt_managedSkillsDir := None;
     opt_bundledSkillsDir := None |}.

Definition ex_frontmatter_crlf : string :=
  "---" +:+ String CR (String LF "name:   'x y'  ") +:+ String CR (String LF "")
  +:+ "description: hi" +:+ String CR "not a pair" +:+ String LF "---"
  +:+ String LF "body".

Definition ex_frontmatter_four_dashes : string :=
  "----" +:+ String LF "name: x" +:+ String LF "---".

Definition ex_frontmatter_glued : string :=
  "---name: x" +:+ String LF "---".

(** ** Further vocabulary and examples *)

(** The timeouts of the commands a computation spawns when the runner
    answers with [answer], in order. *)
Fixpoint spawnedTimeouts {A} (answer : list string -> RunResult) (p : Proc A)
    : list JsNumber :=
  match p with
  | Ret _ => []
  | Run argv t k => t :: spawnedTimeouts answer (k (answer argv))
  end.

Definition ex_brew_jq : JsValue :=
  installDoc [("kind", JStr "brew"); ("formula", JStr "jq")].

Definition ex_request_ghost : SkillInstallRequest :=
  {| workspaceDir := "/ws"; skillName := "ghost"; installId := "brew-0";
     timeoutMs := None; config := None |}.

Definition ex_ok_run : RunResult :=
  {| run_code := Some 0%Z; run_stdout := " poured "; run_stderr := "" |}.


(** The list [entry.clawdis?.requires?.bins ?? []]. *)
Definition requiredBinsOf (entry : SkillEntry) : list string :=
  default [] ((entry_clawdis entry ≫= md_requires) ≫= req_bins).

Definition ex_weather_primary : SkillEntry :=
  mkEntry "weather"
    (Some (mkMeta None None (Some "WEATHER_KEY")
             (Some (mkRequires ["WEATHER_KEY"])) None)).

Definition ex_config_apiKey : ClawdisConfig :=
  mkConfig [("weather", mkSkillConfig None (Some "k") None)].

Definition ex_needs_git : SkillEntry :=
  mkEntry "git-tool"
    (Some (mkMeta None None None
             (Some {| req_bins := Some ["git"]; req_env := None;
                      req_config := None |}) None)).


Definition ex_config_both : ClawdisConfig :=
  mkConfig [("weather",
             mkSkillConfig None (Some "k") (Some [("WEATHER_KEY", "secret")]))].


(** The elements of a list of names, each at its first position. *)
Fixpoint firstOccurrences (names : list string) : list string :=
  match names with
  | [] => []
  | n :: rest =>
      n :: List.filter (fun m => negb (bool_decide (m = n))) (firstOccurrences rest)
  end.

Definition ex_skill_named (name path : string) : Skill :=
  {| skill_name := name; skill_filePath := path; skill_description := name |}.

(** [merged.set] on the keys of the map: a new key goes to the end, a known
    key keeps its place. *)
Definition addKey (acc : list string) (n : string) : list string :=
  if bool_decide (n ∈ acc) then acc else acc ++ [n].


(** Every character of the string satisfies [P]. *)
Fixpoint strForall (P : ascii -> bool) (s : string) : bool :=
  match s with
  | EmptyString => true
  | String c s' => P c && strForall P s'
  end.

Definition notCR (c : ascii) : bool := negb (bool_decide (c = CR)).
Definition notLF (c : ascii) : bool := negb (bool_decide (c = LF)).
Definition notBreak (c : ascii) : bool := notCR c && notLF c.

(** The text with every line break written as CR LF, and as CR alone. *)
Fixpoint toCRLF (s : string) : string :=
  match s with
  | EmptyString => EmptyString
  | String c s' =>
      if bool_decide (c = LF) then String CR (String LF (toCRLF s'))
      else String c (toCRLF s')
  end.

Fixpoint toCR (s : string) : string :=
  match s with
  | EmptyString => EmptyString
  | String c s' => String (if bool_decide (c = LF) then CR else c) (toCR s')
  end.

(** The line [key: <q>value<q>] of a declaration block, [q] a quote. *)
Definition quotedLine (key : string) (q : ascii) (value : string) : string :=
  key +:+ ": " +:+ String q (value +:+ String q EmptyString).

(** The text of a declaration block that holds the one line [line]. *)
Definition oneLineBlock (line : string) : string :=
  "---" +:+ String LF line +:+ String LF "---".

(** The names that decoded metadata requires: binaries, environment
    variables and configuration paths. *)
Definition requiredNamesOf (md : ClawdisSkillMetadata) : list string :=
  match md_requires md with
  | Some r =>
      default [] (req_bins r) ++ default [] (req_env r)
      ++ default [] (req_config r)
  | None => []
  end.

Definition ex_requires_doc : JsValue :=
  JObj [("clawdis",
         JObj [("requires",
                JObj [("env", JArr [JStr "  WEATHER_KEY "; JStr "  "; JNull]);
                      ("bins", JStr "git, ,curl")])])].

Definition ex_frontmatter_body : string :=
  oneLineBlock "name: x" +:+ String LF "body".


(** A step from [st] to [st'] that changes no variable and records only
    writes that the environment refused. *)
Definition idle (st st' : Env * list EnvUpdate) : Prop :=
  st'.1 = st.1
  /\ forall u, u ∈ st'.2 -> u ∈ st.2 \/ settable (upd_key u) = false.

(** A skill that requires the variable [constructor]. *)
Definition ex_needs_constructor : SkillEntry :=
  mkEntry "proto"
    (Some (mkMeta None None None (Some (mkRequires ["constructor"])) None)).

Definition ex_config_browser_off : ClawdisConfig :=
  {| cfg_skills := None; cfg_skillsInstall := None; cfg_skillsLoad := None;
     cfg_other := [("browser", JObj [("enabled", JBool false)])] |}.

(** * Theorems *)

(** ** Strings *)

Lemma trimStart_head c s : isSpace c = false -> trimStart (String c s) = String c s.
Proof. intros H. simpl. by rewrite H. Qed.

Lemma trimEnd_last s c :
  lastChar s = Some c -> isSpace c = false -> trimEnd s = s.
Proof.
  induction s as [|a s IH]; intros Hl Hc; [done|].
  destruct s as [|b s].
  - simpl in *. injection Hl as ->. by rewrite Hc.
  - specialize (IH Hl Hc). change (trimEnd (String a (String b s)))
      with (match trimEnd (String b s) with
            | EmptyString => if isSpace a then EmptyString else String a EmptyString
            | t => String a t
            end).
    by rewrite IH.
Qed.

Lemma trim_id a s c :
  isSpace a = false -> lastChar (String a s) = Some c -> isSpace c = false ->
  trim (String a s) = String a s.
Proof.
  intros Ha Hl Hc. unfold trim. rewrite trimStart_head by done.
  by apply (trimEnd_last _ c).
Qed.

Lemma lastChar_app s t : t <> EmptyString -> lastChar (s +:+ t) = lastChar t.
Proof.
  intros Ht. induction s as [|a s IH]; [done|].
  simpl. rewrite IH. destruct (s +:+ t) eqn:E; [|done].
  destruct s; [by destruct Ht|discriminate].
Qed.

Lemma lastChar_cons a s : s <> EmptyString -> lastChar (String a s) = lastChar s.
Proof. by destruct s. Qed.

Lemma pretty_N_go_last x s :
  s <> EmptyString -> lastChar (pretty_N_go x s) = lastChar s.
Proof.
  revert s. induction (N.lt_wf_0 x) as [x _ IH]; intros s Hs.
  assert (x = 0 \/ 0 < x)%N as [->|Hx] by lia.
  - by rewrite pretty_N_go_0.
  - rewrite pretty_N_go_step by done.
    rewrite IH; [by apply lastChar_cons| by apply N.div_lt | done].
Qed.

Lemma pretty_N_char_digit x : isSpace (pretty_N_char x) = false.
Proof. unfold pretty_N_char. by repeat case_match. Qed.

(** A decimal numeral ends in a digit. *)
Lemma pretty_nat_last (i : nat) :
  exists c, lastChar (pretty i) = Some c /\ isSpace c = false.
Proof.
  unfold pretty, pretty_nat, pretty, pretty_N.
  case_decide as Hz.
  - by exists "0"%char.
  - rewrite pretty_N_go_step by lia. rewrite pretty_N_go_last by done.
    eexists; split; [done|apply pretty_N_char_digit].
Qed.

Lemma pretty_nat_nonempty (i : nat) : pretty i <> EmptyString.
Proof. destruct (pretty_nat_last i) as (c & H & _). by intros E; rewrite E in H. Qed.

(** The computed id of a spec of a declared kind needs no trimming. *)
Lemma computed_id_trim kind (i : nat) :
  validKind kind -> trim (kind +:+ "-" +:+ pretty i) = kind +:+ "-" +:+ pretty i.
Proof.
  intros Hk. destruct (pretty_nat_last i) as (c & Hl & Hc).
  assert (lastChar (kind +:+ "-" +:+ pretty i) = Some c) as Hlast.
  { rewrite lastChar_app.
    - change ("-" +:+ pretty i) with (String "-"%char (pretty i)).
      rewrite lastChar_cons; [done|apply pretty_nat_nonempty].
    - done. }
  destruct Hk as [-> | [-> | [-> | ->]]]; simpl in *; by eapply trim_id.
Qed.

(** Computed ids of declared kinds at different positions differ. *)
Lemma computed_id_inj k1 k2 (i j : nat) :
  validKind k1 -> validKind k2 ->
  k1 +:+ "-" +:+ pretty i = k2 +:+ "-" +:+ pretty j -> i = j.
Proof.
  intros H1 H2 E.
  destruct H1 as [-> | [-> | [-> | ->]]], H2 as [-> | [-> | [-> | ->]]];
    simpl in E; try discriminate; simplify_eq; by apply (inj pretty).
Qed.

(** ** Installer ids *)

Lemma resolveInstallId_computed spec i :
  validKind (spec_kind spec) -> spec_id spec = None ->
  resolveInstallId spec i = spec_kind spec +:+ "-" +:+ pretty i.
Proof. intros Hk Hid. unfold resolveInstallId. rewrite Hid. by apply computed_id_trim. Qed.

Lemma findInstallSpecFrom_first specs : forall base i spec id,
  specs !! i = Some spec ->
  resolveInstallId spec (base + i) = id ->
  (forall j s, j < i -> specs !! j = Some s -> resolveInstallId s (base + j) <> id) ->
  findInstallSpecFrom base specs id = Some spec.
Proof.
  induction specs as [|s0 specs IH]; intros base i spec id Hi Hid Hne; [done|].
  destruct i as [|i]; cbn [findInstallSpecFrom].
  - injection Hi as ->. rewrite Nat.add_0_r in Hid. by rewrite bool_decide_true.
  - rewrite bool_decide_false.
    + apply (IH (S base) i); [done| |].
      * by replace (S base + i) with (base + S i) by lia.
      * intros j s Hj Hs. replace (S base + j) with (base + S j) by lia.
        apply (Hne (S j) s); [lia|done].
    + specialize (Hne 0 s0). rewrite Nat.add_0_r in Hne. apply Hne; [lia|done].
Qed.

(** What [findInstallSpecFrom] returns is the first spec with that id. *)
Lemma findInstallSpecFrom_Some specs : forall base id spec,
  findInstallSpecFrom base specs id = Some spec ->
  exists i, specs !! i = Some spec /\ resolveInstallId spec (base + i) = id /\
    forall j s, j < i -> specs !! j = Some s -> resolveInstallId s (base + j) <> id.
Proof.
  induction specs as [|s0 specs IH]; intros base id spec H; [done|].
  cbn [findInstallSpecFrom] in H. case_bool_decide as E.
  - injection H as <-. exists 0. rewrite Nat.add_0_r. split_and!; [done..|]. lia.
  - apply IH in H as (i & Hi & Hid & Hne). exists (S i).
    replace (base + S i) with (S base + i) by lia. split_and!; [done..|].
    intros [|j] s Hj Hs.
    + injection Hs as <-. by rewrite Nat.add_0_r.
    + replace (base + S j) with (S base + j) by lia. apply Hne; [lia|done].
Qed.

(** C7, as amended: among specs of the declared kinds, the effective id of
    a spec without an explicit id at position [i] is ["<kind>-<i>"], the
    effective id of a spec with an explicit id is that id trimmed, and
    [findInstallSpec] by the effective id of the spec at position [i]
    returns that spec when no earlier spec has the same effective id; for a
    spec without an explicit id only earlier explicit ids can collide. *)
Theorem findInstallSpec_by_effective_id (entry : SkillEntry) (i : nat)
    (spec : SkillInstallSpec) :
  Forall (fun s => validKind (spec_kind s)) (installSpecsOf entry) ->
  installSpecsOf entry !! i = Some spec ->
  (spec_id spec = None ->
     resolveInstallId spec i = spec_kind spec +:+ "-" +:+ pretty i) /\
  (forall e, spec_id spec = Some e -> resolveInstallId spec i = trim e) /\
  ((forall j s, j < i -> installSpecsOf entry !! j = Some s ->
      (spec_id spec = None -> is_Some (spec_id s)) ->
      resolveInstallId s j <> resolveInstallId spec i) ->
   findInstallSpec entry (resolveInstallId spec i) = Some spec).
Proof.
  intros Hkinds Hi.
  assert (validKind (spec_kind spec)) as Hk.
  { rewrite Forall_lookup in Hkinds. by apply (Hkinds i). }
  split_and!.
  - intros Hid. by apply resolveInstallId_computed.
  - intros e He. unfold resolveInstallId. by rewrite He.
  - intros Hne. unfold findInstallSpec.
    apply (findInstallSpecFrom_first _ 0 i); [done..|].
    intros j s Hj Hs. simpl. destruct (spec_id spec) as [e|] eqn:He.
    + apply Hne; [done..|]. intros; discriminate.
    + destruct (spec_id s) as [e'|] eqn:He'.
      * apply Hne; [done..|]. by intros _; exists e'.
      * assert (validKind (spec_kind s)) as Hks.
        { rewrite Forall_lookup in Hkinds. by apply (Hkinds j). }
        rewrite !resolveInstallId_computed by done.
        intros E. apply computed_id_inj in E; [lia|done..].
Qed.

Lemma findInstallSpec_by_effective_id_witness :
  findInstallSpec ex_entry_specs (resolveInstallId ex_spec_jq 1) = Some ex_spec_jq.
Proof.
  apply (findInstallSpec_by_effective_id ex_entry_specs 1 ex_spec_jq).
  - repeat (apply List.Forall_cons;
              [unfold validKind; simpl; intuition reflexivity|]).
    apply List.Forall_nil.
  - reflexivity.
  - intros [|j] s Hj Hs _; [|lia].
    injection Hs as <-. vm_compute. discriminate.
Defined.

(** C7 as stated fails: an earlier explicit id that equals the computed id
    of a later spec shadows it. *)
Lemma findInstallSpec_collision_counterexample :
  installSpecsOf ex_entry_collision !! 1 = Some ex_spec_jq /\
  spec_id ex_spec_jq = None /\
  findInstallSpec ex_entry_collision (spec_kind ex_spec_jq +:+ "-" +:+ pretty 1)
    <> Some ex_spec_jq.
Proof. split_and!; [reflexivity..|]. vm_compute. discriminate. Qed.

(** ** Install dispatch *)

Lemma buildInstallCommand_error spec prefs msg :
  (spec_kind spec = "brew" /\ truthyStr (spec_formula spec) = false
     /\ msg = "missing brew formula")
  \/ (spec_kind spec = "node" /\ truthyStr (spec_package spec) = false
     /\ msg = "missing node package")
  \/ (spec_kind spec = "go" /\ truthyStr (spec_module spec) = false
     /\ msg = "missing go module")
  \/ (spec_kind spec = "uv" /\ truthyStr (spec_package spec) = false
     /\ msg = "missing uv package")
  \/ (~ validKind (spec_kind spec) /\ msg = "unsupported installer") ->
  buildInstallCommand spec prefs = synthError msg.
Proof.
  unfold buildInstallCommand, validKind.
  intros [(Hk & Hf & ->)|[(Hk & Hf & ->)|[(Hk & Hf & ->)|[(Hk & Hf & ->)|(Hk & ->)]]]].
  - rewrite Hk. simpl. by destruct (spec_formula spec) as [[|]|].
  - rewrite Hk. simpl. by destruct (spec_package spec) as [[|]|].
  - rewrite Hk. simpl. by destruct (spec_module spec) as [[|]|].
  - rewrite Hk. simpl. by destruct (spec_package spec) as [[|]|].
  - repeat case_bool_decide; try done; exfalso; apply Hk; auto.
Qed.

Lemma buildInstallCommand_uv spec prefs package :
  spec_kind spec = "uv" -> spec_package spec = Some package ->
  nonEmpty package = true ->
  buildInstallCommand spec prefs = synthArgv ["uv"; "tool"; "install"; package].
Proof.
  intros Hk Hp Hn. unfold buildInstallCommand. rewrite Hk, Hp. simpl. by rewrite Hn.
Qed.

(** C6: when the resolved spec yields a synthesis error, [installSkill]
    returns the failure that carries the error message and spawns no
    process, whatever the runner would answer. *)
Theorem installSkill_synthesis_error (h : Host) (env : Env)
    (params : SkillInstallRequest) (entry : SkillEntry)
    (spec : SkillInstallSpec) (msg : string) :
  resolvesTo h env params entry spec ->
  (spec_kind spec = "brew" /\ truthyStr (spec_formula spec) = false
     /\ msg = "missing brew formula")
  \/ (spec_kind spec = "node" /\ truthyStr (spec_package spec) = false
     /\ msg = "missing node package")
  \/ (spec_kind spec = "go" /\ truthyStr (spec_module spec) = false
     /\ msg = "missing go module")
  \/ (spec_kind spec = "uv" /\ truthyStr (spec_package spec) = false
     /\ msg = "missing uv package")
  \/ (~ validKind (spec_kind spec) /\ msg = "unsupported installer") ->
  installSkill h env params = Ret (failure msg)
  /\ forall answer, spawned answer (installSkill h env params) = [].
Proof.
  intros [Hentry Hspec] Herr.
  assert (installSkill h env params = Ret (failure msg)) as ->; [|done].
  unfold installSkill. rewrite Hentry, Hspec.
  rewrite (buildInstallCommand_error _ _ msg Herr).
  assert (nonEmpty msg = true) as Hmsg
    by (destruct Herr as [(_ & _ & ->)|[(_ & _ & ->)|[(_ & _ & ->)|[(_ & _ & ->)|(_ & ->)]]]]; done).
  simpl. by rewrite Hmsg.
Qed.

Lemma installSkill_synthesis_error_witness :
  installSkill (ex_host ex_brew_no_formula ["brew"]) ex_env (ex_request "brew-0")
    = Ret (failure "missing brew formula").
Proof.
  apply (installSkill_synthesis_error (ex_host ex_brew_no_formula ["brew"])
           ex_env (ex_request "brew-0")
           (annotateSkill (ex_host ex_brew_no_formula ["brew"])
              (entry_skill (mkEntry "tool" None)))
           (mkSpec None "brew" None None None)).
  - split; reflexivity.
  - left. split_and!; reflexivity.
Defined.

(** C4, as amended: for a resolved spec of kind [uv] whose package is
    present, when [uv] is not on the search path: with [brew] present
    [installSkill] first runs [brew install uv]; a nonzero or absent exit
    code ends the call with a failure that carries the trimmed output of
    that process and no further process, and exit code 0 is followed by
    [uv tool install <package>]; with [brew] absent the call fails at once
    with the message that [uv] is not installed and spawns no process. *)
Theorem installSkill_uv_bootstrap (h : Host) (env : Env)
    (params : SkillInstallRequest) (entry : SkillEntry)
    (spec : SkillInstallSpec) (package : string) :
  resolvesTo h env params entry spec ->
  spec_kind spec = "uv" ->
  spec_package spec = Some package ->
  nonEmpty package = true ->
  hasBinary h env "uv" = false ->
  (hasBinary h env "brew" = true ->
   exists k,
     installSkill h env params
       = Run ["brew"; "install"; "uv"] (clampTimeout (timeoutMs params)) k
     /\ (forall r, run_code r <> Some 0%Z ->
           k r = Ret (processResult false "Failed to install uv (brew)" r))
     /\ (forall r, run_code r = Some 0%Z ->
           exists k',
             k r = Run ["uv"; "tool"; "install"; package]
                       (clampTimeout (timeoutMs params)) k'
             /\ forall r',
                  k' r' = Ret (processResult
                                 (bool_decide (run_code r' = Some 0%Z))
                                 (if bool_decide (run_code r' = Some 0%Z)
                                  then "Installed" else "Install failed") r')))
  /\ (hasBinary h env "brew" = false ->
      installSkill h env params
        = Ret (failure "uv not installed (install via brew)")
      /\ forall answer, spawned answer (installSkill h env params) = []).
Proof.
  intros [Hentry Hspec] Hk Hp Hn Huv.
  unfold installSkill. rewrite Hentry, Hspec.
  rewrite (buildInstallCommand_uv _ _ package Hk Hp Hn).
  rewrite Hk, Huv. cbn [error synthArgv truthyStr argv]. simpl bool_decide.
  cbn [andb negb]. split.
  - intros Hbrew. rewrite Hbrew. eexists. split; [reflexivity|]. split.
    + intros r Hr. simpl. by rewrite bool_decide_false.
    + intros r Hr. simpl. rewrite bool_decide_true by done. simpl.
      eexists. split; [reflexivity|]. intros r'. reflexivity.
  - intros Hbrew. rewrite Hbrew. done.
Qed.

Lemma installSkill_uv_bootstrap_witness :
  spawned (fun _ => ex_failed_run)
          (installSkill (ex_host ex_uv_package ["brew"]) ex_env (ex_request "uv-0"))
    = [["brew"; "install"; "uv"]]
  /\ outcome (fun _ => ex_failed_run)
             (installSkill (ex_host ex_uv_package ["brew"]) ex_env (ex_request "uv-0"))
    = processResult false "Failed to install uv (brew)" ex_failed_run.
Proof.
  destruct (installSkill_uv_bootstrap (ex_host ex_uv_package ["brew"]) ex_env
              (ex_request "uv-0") (ex_loaded ex_uv_package)
              (mkSpec None "uv" None (Some "ruff") None) "ruff") as [Hbrew _].
  - split; reflexivity.
  - reflexivity.
  - reflexivity.
  - reflexivity.
  - reflexivity.
  - destruct (Hbrew eq_refl) as (k & Hrun & Hfail & _).
    rewrite Hrun. simpl. rewrite Hfail by discriminate. split; reflexivity.
Defined.

(** C4 as stated fails: a spec of kind [uv] without a package is a
    synthesis error, and the call returns before the bootstrap. *)
Lemma installSkill_uv_missing_package_counterexample :
  resolvesTo (ex_host ex_uv_no_package ["brew"]) ex_env (ex_request "uv-0")
             (ex_loaded ex_uv_no_package) (mkSpec None "uv" None None None)
  /\ hasBinary (ex_host ex_uv_no_package ["brew"]) ex_env "uv" = false
  /\ hasBinary (ex_host ex_uv_no_package ["brew"]) ex_env "brew" = true
  /\ ~ exists t k,
         installSkill (ex_host ex_uv_no_package ["brew"]) ex_env (ex_request "uv-0")
           = Run ["brew"; "install"; "uv"] t k.
Proof.
  split_and!; [split; reflexivity|reflexivity..|].
  intros (t & k & H). vm_compute in H. discriminate.
Qed.

(** ** Eligibility *)

(** C2: [enabled = false] in the per-skill configuration excludes the
    skill, also when its metadata declares [always = true]; otherwise
    [always = true] includes it, whatever its requirements, the search
    path, the environment and the configuration are. *)
Theorem shouldIncludeSkill_priority (h : Host) (env : Env)
    (entry : SkillEntry) (config : option ClawdisConfig) :
  (skillConfigOf config entry ≫= sc_enabled = Some false ->
   shouldIncludeSkill h env entry config = false)
  /\ (skillConfigOf config entry ≫= sc_enabled <> Some false ->
      entry_clawdis entry ≫= md_always = Some true ->
      shouldIncludeSkill h env entry config = true).
Proof.
  unfold skillConfigOf, shouldIncludeSkill. split.
  - intros He. by rewrite bool_decide_true.
  - intros He Ha. rewrite bool_decide_false by done. by rewrite bool_decide_true.
Qed.

Lemma shouldIncludeSkill_priority_witness :
  shouldIncludeSkill (ex_host ex_uv_package []) ex_env ex_weather_always
    (Some ex_config_disabled) = false
  /\ shouldIncludeSkill (ex_host ex_uv_package []) ex_env ex_weather_always
       None = true.
Proof.
  split.
  - apply (proj1 (shouldIncludeSkill_priority (ex_host ex_uv_package []) ex_env
                    ex_weather_always (Some ex_config_disabled))).
    reflexivity.
  - apply (proj2 (shouldIncludeSkill_priority (ex_host ex_uv_package []) ex_env
                    ex_weather_always None)).
    + discriminate.
    + reflexivity.
Defined.

Lemma truthyStr_true o :
  truthyStr o = true <-> exists v, o = Some v /\ v <> EmptyString.
Proof.
  destruct o as [[|c s]|]; simpl; split; try done.
  - intros (v & [= <-] & Hv). done.
  - intros _. by eexists.
  - intros (v & [=] & _).
Qed.

Lemma holdsTruthy_iff own name :
  truthyMember (readMember own name) = true <-> holdsTruthy own name.
Proof.
  unfold readMember, holdsTruthy. destruct own as [[|c s]|]; simpl.
  - split; [done|]. intros [(v & [= <-] & Hv)|[? _]]; done.
  - split; [|done]. intros _. left. by eexists.
  - destruct (inheritedName name); simpl.
    + split; [|done]. intros _. by right.
    + split; [done|]. intros [(v & ? & _)|[_ ?]]; done.
Qed.

Lemma envRequirementMet_iff env entry skillConfig E :
  envRequirementMet env entry skillConfig E = true <->
    envSatisfied env entry skillConfig E.
Proof.
  unfold envRequirementMet, envSatisfied, configProvides, readEnv.
  rewrite <- holdsTruthy_iff.
  destruct (truthyMember (readMember (env !! E) E)); [naive_solver|].
  assert (match skillConfig ≫= sc_env with
          | Some table => truthyMember (readMember (recordGet E table) E)
          | None => false
          end = true
          <-> exists sc table, skillConfig = Some sc /\ sc_env sc = Some table
                               /\ holdsTruthy (recordGet E table) E) as Htable.
  { destruct skillConfig as [sc|]; simpl; [|naive_solver].
    destruct (sc_env sc) as [table|] eqn:Ht; [|naive_solver].
    rewrite holdsTruthy_iff. split.
    - intros H. by exists sc, table.
    - intros (sc' & table' & [= <-] & Ht' & H). by simplify_eq. }
  destruct (match skillConfig ≫= sc_env with
            | Some table => truthyMember (readMember (recordGet E table) E)
            | None => false
            end).
  { split; [|done]. intros _. right. left. by apply Htable. }
  assert (truthyStr (skillConfig ≫= sc_apiKey) = true
          <-> exists sc a, skillConfig = Some sc /\ sc_apiKey sc = Some a
                           /\ a <> EmptyString) as Hkey.
  { rewrite truthyStr_true. destruct skillConfig as [sc|]; simpl; [|naive_solver].
    split.
    - intros (a & ? & ?). by exists sc, a.
    - intros (sc' & a & [= <-] & ? & ?). by exists a. }
  destruct (truthyStr (skillConfig ≫= sc_apiKey)); simpl.
  - case_bool_decide as Hp.
    + split; [|done]. intros _. right. right. split; [done|]. by apply Hkey.
    + split; [done|]. intros [[]|[H|[? _]]]; [done..| |done].
      by apply Htable in H.
  - split; [done|]. intros [[]|[H|[_ H]]]; [done..| |].
    + by apply Htable in H.
    + by apply Hkey in H.
Qed.

(** The decision for a skill that is neither disabled nor declared always:
    the three requirement loops. *)
Lemma shouldIncludeSkill_decision h env entry config :
  skillConfigOf config entry ≫= sc_enabled <> Some false ->
  entry_clawdis entry ≫= md_always <> Some true ->
  shouldIncludeSkill h env entry config
    = forallb (hasBinary h env) (requiredBinsOf entry)
      && forallb (envRequirementMet env entry (skillConfigOf config entry))
           (requiredEnvOf entry)
      && forallb (isConfigPathTruthy config) (requiredConfigOf entry).
Proof.
  intros He Ha.
  unfold shouldIncludeSkill, requiredBinsOf, requiredEnvOf, requiredConfigOf.
  fold (skillConfigOf config entry).
  rewrite !bool_decide_false by done.
  destruct (forallb (hasBinary h env) _); [|done].
  destruct (forallb (envRequirementMet env entry _) _); [|done].
  by destruct (forallb (isConfigPathTruthy config) _).
Qed.

Lemma forallb_elem_of {A} (f : A -> bool) l :
  forallb f l = true <-> forall a, a ∈ l -> f a = true.
Proof.
  rewrite forallb_forall. split; intros H a Ha; apply H; by apply list_elem_of_In.
Qed.

(** C5, as amended: a skill that is neither disabled nor declared
    [always = true], and whose required variables have names that the
    environment accepts (not empty, no [=]), is included exactly when its
    required binaries are found, its required configuration paths are
    truthy and every required variable [E] is satisfied: the read
    [process.env[E]] is truthy (the
    variable holds a non-empty value, or it is not set and [E] names a
    member of [Object.prototype]), or the read of [E] in the [env] table of
    the per-skill configuration is truthy in the same sense, or [E] is the
    skill's [primaryEnv] and the per-skill configuration holds a non-empty
    [apiKey].  And a skill that is not declared [always = true] and
    requires a variable of such a name that is unset and names no member
    of [Object.prototype], with no per-skill configuration, is excluded. *)
Theorem envRequirement_nonempty (h : Host) (env : Env) (entry : SkillEntry)
    (config : option ClawdisConfig) :
  (skillConfigOf config entry ≫= sc_enabled <> Some false ->
   entry_clawdis entry ≫= md_always <> Some true ->
   (forall E, E ∈ requiredEnvOf entry -> settable E = true) ->
   (shouldIncludeSkill h env entry config = true <->
      (forall bin, bin ∈ requiredBinsOf entry -> hasBinary h env bin = true)
      /\ (forall E, E ∈ requiredEnvOf entry ->
            envSatisfied env entry (skillConfigOf config entry) E)
      /\ (forall p, p ∈ requiredConfigOf entry ->
            isConfigPathTruthy config p = true)))
  /\ (forall E,
        E ∈ requiredEnvOf entry ->
        settable E = true ->
        env !! E = None ->
        inheritedName E = false ->
        skillConfigOf config entry = None ->
        entry_clawdis entry ≫= md_always <> Some true ->
        shouldIncludeSkill h env entry config = false).
Proof.
  assert (skillConfigOf config entry ≫= sc_enabled <> Some false ->
          entry_clawdis entry ≫= md_always <> Some true ->
          (shouldIncludeSkill h env entry config = true <->
             (forall bin, bin ∈ requiredBinsOf entry -> hasBinary h env bin = true)
             /\ (forall E, E ∈ requiredEnvOf entry ->
                   envSatisfied env entry (skillConfigOf config entry) E)
             /\ (forall p, p ∈ requiredConfigOf entry ->
                   isConfigPathTruthy config p = true))) as Hiff.
  { intros He Ha. rewrite shouldIncludeSkill_decision by done.
    rewrite !andb_true_iff, !forallb_elem_of.
    setoid_rewrite envRequirementMet_iff. tauto. }
  split; [by intros He Ha _; apply Hiff|].
  intros E HE _ Henv Hproto Hcfg Halways. apply not_true_is_false. intros Hinc.
  apply Hiff in Hinc as (_ & Hsat & _); [|by rewrite Hcfg|done].
  destruct (Hsat E HE) as [[(v & Hv & _)|[_ Hi]]|Hprov].
  - congruence.
  - congruence.
  - rewrite Hcfg in Hprov.
    destruct Hprov as [(sc & ? & ? & _)|(_ & sc & ? & ? & _)]; done.
Qed.

Lemma envRequirement_nonempty_witness :
  shouldIncludeSkill (ex_host ex_uv_package []) ex_env ex_weather None = false
  /\ shouldIncludeSkill (ex_host ex_uv_package []) ex_env ex_weather_primary
       (Some ex_config_apiKey) = true.
Proof.
  split.
  - apply (proj2 (envRequirement_nonempty (ex_host ex_uv_package []) ex_env
                    ex_weather None) "WEATHER_KEY").
    + vm_compute. apply list_elem_of_here.
    + reflexivity.
    + reflexivity.
    + reflexivity.
    + reflexivity.
    + discriminate.
  - apply (proj1 (envRequirement_nonempty (ex_host ex_uv_package []) ex_env
                    ex_weather_primary (Some ex_config_apiKey))).
    + discriminate.
    + discriminate.
    + intros E HE. vm_compute in HE.
      apply list_elem_of_singleton in HE as ->. reflexivity.
    + split_and!.
      * intros bin Hbin. vm_compute in Hbin. by apply elem_of_nil in Hbin.
      * intros E HE. vm_compute in HE.
        apply list_elem_of_singleton in HE as ->.
        right. right. split; [reflexivity|].
        exists (mkSkillConfig None (Some "k") None), "k".
        split_and!; [reflexivity..|discriminate].
      * intros p Hp. vm_compute in Hp. by apply elem_of_nil in Hp.
Defined.

(** C5 as stated fails three times: a variable that is set to the empty
    string does not meet the requirement; a skill declared [always = true]
    is included although the variable it requires is unset and it has no
    per-skill configuration; and a skill that requires the unset variable
    [constructor], with no per-skill configuration, is included, because
    [process.env.constructor] reads the member of [Object.prototype]. *)
Lemma envRequirement_counterexample :
  ("WEATHER_KEY" ∈ requiredEnvOf ex_weather
   /\ is_Some ((<["WEATHER_KEY" := ""]> ex_env) !! "WEATHER_KEY")
   /\ shouldIncludeSkill (ex_host ex_uv_package []) (<["WEATHER_KEY" := ""]> ex_env)
        ex_weather None = false)
  /\ ("WEATHER_KEY" ∈ requiredEnvOf ex_weather_always
      /\ ex_env !! "WEATHER_KEY" = None
      /\ skillConfigOf None ex_weather_always = None
      /\ shouldIncludeSkill (ex_host ex_uv_package []) ex_env ex_weather_always None
         = true)
  /\ ("constructor" ∈ requiredEnvOf ex_needs_constructor
      /\ ex_env !! "constructor" = None
      /\ skillConfigOf None ex_needs_constructor = None
      /\ entry_clawdis ex_needs_constructor ≫= md_always = None
      /\ shouldIncludeSkill (ex_host ex_uv_package []) ex_env ex_needs_constructor
           None = true).
Proof.
  split_and!; try reflexivity.
  - vm_compute. apply list_elem_of_here.
  - by eexists.
  - vm_compute. apply list_elem_of_here.
  - vm_compute. apply list_elem_of_here.
Qed.

(** ** Environment activation *)

Lemma truthyEnv_own (env : Env) k :
  truthyStr (env !! k) = true -> truthyEnv env k = true.
Proof. unfold truthyEnv, readEnv, readMember. by destruct (env !! k). Qed.

Lemma truthyEnv_lookup (env env' : Env) k :
  env !! k = env' !! k -> truthyEnv env k = truthyEnv env' k.
Proof. unfold truthyEnv, readEnv. by intros ->. Qed.

(** A falsy read is the empty string or [undefined]. *)
Lemma truthyEnv_false (env : Env) k :
  truthyEnv env k = false ->
  (env !! k = None \/ env !! k = Some EmptyString) /\ truthyStr (env !! k) = false.
Proof.
  unfold truthyEnv, readEnv, readMember.
  destruct (env !! k) as [[|c s]|]; simpl; [auto|done|auto].
Qed.

Lemma truthyEnv_true (env : Env) k :
  truthyEnv env k = true <-> holdsTruthy (env !! k) k.
Proof. apply holdsTruthy_iff. Qed.

(** The guarded write, by the truthiness of the read: what is recorded is
    the value the variable held. *)
Lemma injectVariable_unfold key value (st : Env * list EnvUpdate) :
  injectVariable key value st
    = if truthyEnv st.1 key then st
      else recordAndSet key (st.1 !! key) value st.
Proof.
  unfold injectVariable, truthyEnv, readEnv, readMember.
  destruct (st.1 !! key) as [[|c s]|]; simpl; try done.
  by destruct (inheritedName key).
Qed.

Lemma setEnv_lookup key value (env : Env) k :
  setEnv key value env !! k
    = if decide (k = key /\ settable key = true) then Some value else env !! k.
Proof.
  unfold setEnv. destruct (settable key) eqn:Hs.
  - destruct (decide (k = key)) as [->|Hne].
    + rewrite decide_True by done. apply lookup_insert_eq.
    + rewrite decide_False by (intros [? _]; done). by apply lookup_insert_ne.
  - rewrite decide_False; [done|]. by intros [_ ?].
Qed.

Lemma deleteEnv_lookup key (env : Env) k :
  deleteEnv key env !! k
    = if decide (k = key /\ settable key = true) then None else env !! k.
Proof.
  unfold deleteEnv. destruct (settable key) eqn:Hs.
  - destruct (decide (k = key)) as [->|Hne].
    + rewrite decide_True by done. apply lookup_delete_eq.
    + rewrite decide_False by (intros [? _]; done). by apply lookup_delete_ne.
  - rewrite decide_False; [done|]. by intros [_ ?].
Qed.

Section Activation.
Variable env0 : Env.
Implicit Types st : Env * list EnvUpdate.

Lemma Tracks_init : Tracks env0 (env0, []).
Proof.
  split; simpl.
  - intros u Hu. by apply elem_of_nil in Hu.
  - intros k. by left.
Qed.

Lemma Tracks_untouched st k :
  Tracks env0 st -> truthyEnv st.1 k = false -> st.1 !! k = env0 !! k.
Proof.
  intros [_ Hb] Hk. destruct (Hb k) as [?|[Ht _]]; [done|].
  apply truthyEnv_own in Ht. congruence.
Qed.

Lemma Tracks_injectVariable st key value :
  Tracks env0 st -> nonEmpty value = true ->
  Tracks env0 (injectVariable key value st).
Proof.
  intros HT Hv. rewrite injectVariable_unfold.
  destruct (truthyEnv st.1 key) eqn:Hk; [done|].
  pose proof (Tracks_untouched _ _ HT Hk) as Heq.
  destruct HT as [Ha Hb]. unfold recordAndSet. split; simpl.
  - intros u [Hu|Hu]%elem_of_app; [by apply Ha|].
    apply list_elem_of_singleton in Hu as ->. simpl. split; [done|].
    by rewrite <- (truthyEnv_lookup _ _ _ Heq).
  - intros k. rewrite setEnv_lookup.
    destruct (decide (k = key /\ settable key = true)) as [[-> Hs]|Hne].
    + right. split_and!; [done..|].
      apply elem_of_app. right. rewrite Heq. apply list_elem_of_here.
    + destruct (Hb k) as [?|(? & ? & ?)]; [by left|right].
      split_and!; [done..|]. apply elem_of_app. by left.
Qed.

Lemma Tracks_injectEnvTable table : forall st,
  Tracks env0 st -> Tracks env0 (injectEnvTable table st).
Proof.
  unfold injectEnvTable.
  induction table as [|[k v] table IH]; intros st HT; [done|].
  simpl. apply IH.
  destruct (nonEmpty v) eqn:Hv; simpl; [|done].
  by apply Tracks_injectVariable.
Qed.

Lemma Tracks_injectApiKey primaryEnv apiKey st :
  Tracks env0 st -> Tracks env0 (injectApiKey primaryEnv apiKey st).
Proof.
  intros HT. unfold injectApiKey.
  destruct primaryEnv as [p|], apiKey as [a|]; try done.
  destruct (nonEmpty p), (nonEmpty a) eqn:Ha; simpl; try done.
  by apply Tracks_injectVariable.
Qed.

Lemma Tracks_activateEntry config st entry :
  Tracks env0 st -> Tracks env0 (activateEntry config st entry).
Proof.
  intros HT. unfold activateEntry. destruct (resolveSkillConfig _ _); [|done].
  apply Tracks_injectApiKey. destruct (sc_env _); [|done].
  by apply Tracks_injectEnvTable.
Qed.

Lemma Tracks_activateSnapshotSkill config st skill :
  Tracks env0 st -> Tracks env0 (activateSnapshotSkill config st skill).
Proof.
  intros HT. unfold activateSnapshotSkill.
  destruct (resolveSkillConfig _ _); [|done].
  apply Tracks_injectApiKey. destruct (sc_env _); [|done].
  by apply Tracks_injectEnvTable.
Qed.

Lemma Tracks_foldl {A} (step : Env * list EnvUpdate -> A -> Env * list EnvUpdate)
    (l : list A) :
  (forall st a, Tracks env0 st -> Tracks env0 (step st a)) ->
  forall st, Tracks env0 st -> Tracks env0 (foldl step st l).
Proof. intros Hstep. induction l as [|a l IH]; intros st HT; simpl; auto. Qed.

Lemma Tracks_skillEnvUpdates skills config :
  Tracks env0 (skillEnvUpdates skills config env0).
Proof.
  apply Tracks_foldl; [|apply Tracks_init].
  intros st a. apply Tracks_activateEntry.
Qed.

Lemma Tracks_snapshotEnvUpdates snapshot config :
  Tracks env0 (snapshotEnvUpdates snapshot config env0).
Proof.
  destruct snapshot as [snap|]; simpl; [|apply Tracks_init].
  apply Tracks_foldl; [|apply Tracks_init].
  intros st a. apply Tracks_activateSnapshotSkill.
Qed.

(** What the reversal leaves under each key: the recorded prior value when
    the key is recorded and the environment accepts it. *)
Lemma restoreUpdates_lookup updates : forall (e : Env) k,
  (forall u, u ∈ updates -> upd_prev u = env0 !! upd_key u) ->
  restoreUpdates updates e !! k
    = if decide (k ∈ map upd_key updates /\ settable k = true)
      then env0 !! k else e !! k.
Proof.
  unfold restoreUpdates.
  induction updates as [|u updates IH]; intros e k Hprev; cbn [foldl map].
  - rewrite decide_False; [done|]. intros [Hin _]. by apply elem_of_nil in Hin.
  - rewrite IH by (intros u' Hu'; apply Hprev; by right).
    assert (upd_prev u = env0 !! upd_key u) as Hu by (apply Hprev; by left).
    destruct (decide (k ∈ map upd_key updates /\ settable k = true))
      as [[Hin Hs]|Hin].
    + rewrite decide_True; [done|]. split; [by right|done].
    + assert ((match upd_prev u with
               | Some prev => setEnv (upd_key u) prev e
               | None => deleteEnv (upd_key u) e
               end) !! k
              = if decide (k = upd_key u /\ settable (upd_key u) = true)
                then env0 !! k else e !! k) as ->.
      { destruct (upd_prev u) as [prev|];
          [rewrite setEnv_lookup|rewrite deleteEnv_lookup];
          destruct (decide _) as [[-> _]|_]; done. }
      destruct (decide (k = upd_key u /\ settable (upd_key u) = true))
        as [[-> Hs]|Hne].
      * rewrite decide_True; [done|]. split; [by left|done].
      * rewrite decide_False; [done|].
        intros [[->|?]%elem_of_cons Hs]; [by apply Hne|by apply Hin].
Qed.

Lemma Tracks_restore st : Tracks env0 st -> restoreUpdates st.2 st.1 = env0.
Proof.
  intros [Ha Hb]. apply map_eq. intros k.
  rewrite restoreUpdates_lookup by (intros u Hu; by apply Ha).
  destruct (decide _) as [_|Hin]; [done|].
  destruct (Hb k) as [?|(_ & Hs & Hu)]; [done|]. exfalso. apply Hin.
  split; [|done].
  apply list_elem_of_fmap. by exists {| upd_key := k; upd_prev := env0 !! k |}.
Qed.
End Activation.

(** C3: the reversal function that [applySkillEnvOverrides] returns, run
    on the environment the call leaves, gives back the initial environment:
    the same variables with the same values. *)
Theorem applySkillEnvOverrides_reversal (skills : list SkillEntry)
    (config : option ClawdisConfig) (env : Env) :
  (applySkillEnvOverrides skills config env).2
    ((applySkillEnvOverrides skills config env).1) = env.
Proof.
  unfold applySkillEnvOverrides. simpl.
  apply Tracks_restore, Tracks_skillEnvUpdates.
Qed.

(** X26: the reversal function that [applySkillEnvOverridesFromSnapshot]
    returns, run on the environment the call leaves, gives back the initial
    environment, also when no snapshot is given. *)
Lemma applySkillEnvOverridesFromSnapshot_reversal snapshot config (env : Env) :
  (applySkillEnvOverridesFromSnapshot snapshot config env).2
    ((applySkillEnvOverridesFromSnapshot snapshot config env).1) = env.
Proof.
  unfold applySkillEnvOverridesFromSnapshot. destruct snapshot as [snap|]; [|done].
  simpl. apply (Tracks_restore env (snapshotEnvUpdates (Some snap) config env)).
  apply Tracks_snapshotEnvUpdates.
Qed.

(** *** What the writes keep and what they set *)

Section Overwrite.
Implicit Types st : Env * list EnvUpdate.

(** A variable whose read is truthy is never written. *)
Lemma injectVariable_keeps key value st k :
  truthyEnv st.1 k = true -> (injectVariable key value st).1 !! k = st.1 !! k.
Proof.
  intros Hk. rewrite injectVariable_unfold.
  destruct (truthyEnv st.1 key) eqn:Hkey; [done|].
  unfold recordAndSet. simpl. rewrite setEnv_lookup.
  rewrite decide_False; [done|]. intros [-> _]. congruence.
Qed.

Lemma injectEnvTable_keeps table k : forall st,
  truthyEnv st.1 k = true -> (injectEnvTable table st).1 !! k = st.1 !! k.
Proof.
  unfold injectEnvTable.
  induction table as [|[k' v'] table IH]; intros st Hk; [done|].
  cbn [foldl fst snd]. destruct (negb (nonEmpty v')); [by apply IH|].
  rewrite IH.
  - by apply injectVariable_keeps.
  - rewrite (truthyEnv_lookup _ st.1); [done|]. by apply injectVariable_keeps.
Qed.

Lemma injectApiKey_keeps primaryEnv apiKey st k :
  truthyEnv st.1 k = true ->
  (injectApiKey primaryEnv apiKey st).1 !! k = st.1 !! k.
Proof.
  intros Hk. unfold injectApiKey.
  destruct primaryEnv as [p|], apiKey as [a|]; try done.
  destruct (nonEmpty p && nonEmpty a); [|done].
  by apply injectVariable_keeps.
Qed.

Lemma activateEntry_keeps config st entry k :
  truthyEnv st.1 k = true ->
  (activateEntry config st entry).1 !! k = st.1 !! k.
Proof.
  intros Hk. unfold activateEntry. destruct (resolveSkillConfig _ _) as [sc|]; [|done].
  destruct (sc_env sc) as [table|].
  - rewrite injectApiKey_keeps.
    + by apply injectEnvTable_keeps.
    + rewrite (truthyEnv_lookup _ st.1); [done|]. by apply injectEnvTable_keeps.
  - by apply injectApiKey_keeps.
Qed.

Lemma activateSnapshotSkill_keeps config st skill k :
  truthyEnv st.1 k = true ->
  (activateSnapshotSkill config st skill).1 !! k = st.1 !! k.
Proof.
  intros Hk. unfold activateSnapshotSkill.
  destruct (resolveSkillConfig _ _) as [sc|]; [|done].
  destruct (sc_env sc) as [table|].
  - rewrite injectApiKey_keeps.
    + by apply injectEnvTable_keeps.
    + rewrite (truthyEnv_lookup _ st.1); [done|]. by apply injectEnvTable_keeps.
  - by apply injectApiKey_keeps.
Qed.

Lemma foldl_keeps {A} (step : Env * list EnvUpdate -> A -> Env * list EnvUpdate)
    (k : string) (l : list A) :
  (forall st a, truthyEnv st.1 k = true -> (step st a).1 !! k = st.1 !! k) ->
  forall st, truthyEnv st.1 k = true -> (foldl step st l).1 !! k = st.1 !! k.
Proof.
  intros Hkeep. induction l as [|a l IH]; intros st Hst; simpl; [done|].
  rewrite IH.
  - by apply Hkeep.
  - rewrite (truthyEnv_lookup _ st.1); [done|]. by apply Hkeep.
Qed.

Lemma keeps_truthy st st' k :
  (truthyEnv st.1 k = true -> st'.1 !! k = st.1 !! k) ->
  truthyEnv st.1 k = true -> truthyEnv st'.1 k = true.
Proof. intros H Hk. by rewrite (truthyEnv_lookup _ st.1) by by apply H. Qed.

(** A guarded write of a non-empty value under a name the environment
    accepts leaves the read of that name truthy. *)
Lemma injectVariable_sets key value st :
  nonEmpty value = true -> settable key = true ->
  truthyEnv (injectVariable key value st).1 key = true.
Proof.
  intros Hv Hs. rewrite injectVariable_unfold.
  destruct (truthyEnv st.1 key) eqn:Hkey; [done|].
  apply truthyEnv_own. unfold recordAndSet. simpl. rewrite setEnv_lookup.
  by rewrite decide_True.
Qed.

Lemma injectEnvTable_sets table k v : forall st,
  (k, v) ∈ table -> v <> EmptyString -> settable k = true ->
  truthyEnv (injectEnvTable table st).1 k = true.
Proof.
  induction table as [|[k' v'] table IH]; intros st Hin Hv Hs.
  - by apply elem_of_nil in Hin.
  - apply elem_of_cons in Hin as [[= <- <-]|Hin]; [|by apply IH].
    change (injectEnvTable ((k, v) :: table) st)
      with (injectEnvTable table
              (if negb (nonEmpty v) then st else injectVariable k v st)).
    assert (nonEmpty v = true) as Hn by by destruct v.
    rewrite Hn. simpl.
    apply (keeps_truthy (injectVariable k v st)).
    + apply injectEnvTable_keeps.
    + by apply injectVariable_sets.
Qed.

Lemma injectApiKey_sets p a st :
  a <> EmptyString -> settable p = true ->
  truthyEnv (injectApiKey (Some p) (Some a) st).1 p = true.
Proof.
  intros Ha Hs. unfold injectApiKey.
  assert (nonEmpty p = true) as -> by by destruct p.
  assert (nonEmpty a = true) as Hna by by destruct a.
  rewrite Hna. simpl. by apply injectVariable_sets.
Qed.

Lemma activateEntry_sets config st entry k :
  providesOverride config (resolveSkillKey (entry_skill entry) (Some entry))
    (entry_clawdis entry ≫= md_primaryEnv) k ->
  settable k = true ->
  truthyEnv (activateEntry config st entry).1 k = true.
Proof.
  intros (sc & Hsc & Hprov) Hs. unfold activateEntry. rewrite Hsc.
  destruct Hprov as [(table & v & Ht & Hin & Hv)|(Hp & Hk & a & Ha & Hna)].
  - rewrite Ht.
    apply (keeps_truthy (injectEnvTable table st)).
    + apply injectApiKey_keeps.
    + by apply (injectEnvTable_sets _ _ v).
  - rewrite Hp, Ha. by apply injectApiKey_sets.
Qed.

Lemma activateSnapshotSkill_sets config st skill k :
  providesOverride config (snap_name skill) (snap_primaryEnv skill) k ->
  settable k = true ->
  truthyEnv (activateSnapshotSkill config st skill).1 k = true.
Proof.
  intros (sc & Hsc & Hprov) Hs. unfold activateSnapshotSkill. rewrite Hsc.
  destruct Hprov as [(table & v & Ht & Hin & Hv)|(Hp & Hk & a & Ha & Hna)].
  - rewrite Ht.
    apply (keeps_truthy (injectEnvTable table st)).
    + apply injectApiKey_keeps.
    + by apply (injectEnvTable_sets _ _ v).
  - rewrite Hp, Ha. by apply injectApiKey_sets.
Qed.

(** A loop whose steps never write a variable that reads truthy leaves the
    read of [k] truthy once one of its steps has made it so. *)
Lemma foldl_sets {A} (step : Env * list EnvUpdate -> A -> Env * list EnvUpdate)
    (P : A -> Prop) (k : string) (l : list A) :
  (forall st a, truthyEnv st.1 k = true -> (step st a).1 !! k = st.1 !! k) ->
  (forall st a, P a -> truthyEnv (step st a).1 k = true) ->
  (exists a, a ∈ l /\ P a) ->
  forall st, truthyEnv (foldl step st l).1 k = true.
Proof.
  intros Hkeep Hset (a & Hin & Ha) st.
  apply list_elem_of_split in Hin as (l1 & l2 & ->).
  rewrite foldl_app. simpl.
  apply (keeps_truthy (step (foldl step st l1) a)).
  - by apply foldl_keeps.
  - by apply Hset.
Qed.
End Overwrite.

(** The loop over the [env] table skips the overrides whose value is empty. *)
Lemma injectEnvTable_skips_empty table : forall st : Env * list EnvUpdate,
  injectEnvTable table st
    = injectEnvTable (List.filter (fun kv => nonEmpty kv.2) table) st.
Proof.
  unfold injectEnvTable.
  induction table as [|[k v] table IH]; intros st; [done|].
  cbn [foldl List.filter snd fst]. destruct (nonEmpty v) eqn:Hv.
  - cbn [foldl snd fst negb]. rewrite Hv. apply IH.
  - apply IH.
Qed.

(** What a tracked state says of one variable. *)
Lemma Tracks_variable env0 (st : Env * list EnvUpdate) k :
  Tracks env0 st ->
  st.1 !! k = env0 !! k
  \/ exists v, st.1 !! k = Some v /\ v <> EmptyString
               /\ (env0 !! k = None \/ env0 !! k = Some EmptyString)
               /\ settable k = true
               /\ {| upd_key := k; upd_prev := env0 !! k |} ∈ st.2.
Proof.
  intros [Ha Hb]. destruct (Hb k) as [?|(Ht & Hs & Hu)]; [by left|right].
  apply truthyStr_true in Ht as (v & Hv & Hne). exists v.
  split_and!; [done..| |done|done].
  destruct (Ha _ Hu) as (_ & Hf). simpl in Hf. by apply truthyEnv_false in Hf as [? _].
Qed.

Lemma Tracks_overwritten env0 (st : Env * list EnvUpdate) k :
  Tracks env0 st -> env0 !! k = Some EmptyString ->
  truthyEnv st.1 k = true ->
  exists v, st.1 !! k = Some v /\ v <> EmptyString
            /\ {| upd_key := k; upd_prev := Some EmptyString |} ∈ st.2.
Proof.
  intros HT Hk Ht.
  destruct (Tracks_variable _ _ k HT) as [Heq|(v & ? & ? & _ & _ & Hu)].
  - rewrite (truthyEnv_lookup _ env0) in Ht by done.
    unfold truthyEnv, readEnv in Ht. rewrite Hk in Ht. done.
  - exists v. rewrite Hk in Hu. done.
Qed.

(** *** Empty values *)

Lemma default_delete_empty (env : Env) E k :
  env !! E = Some EmptyString ->
  default EmptyString (delete E env !! k) = default EmptyString (env !! k).
Proof.
  intros HE. destruct (decide (E = k)) as [<-|Hne].
  - by rewrite lookup_delete_eq, HE.
  - by rewrite lookup_delete_ne.
Qed.

Lemma truthyEnv_delete_empty (env : Env) E k :
  env !! E = Some EmptyString -> inheritedName E = false ->
  truthyEnv (delete E env) k = truthyEnv env k.
Proof.
  intros HE Hi. unfold truthyEnv, readEnv, readMember.
  destruct (decide (E = k)) as [<-|Hne].
  - by rewrite lookup_delete_eq, HE, Hi.
  - by rewrite lookup_delete_ne.
Qed.

Lemma forallb_pointwise {A} (f g : A -> bool) l :
  (forall a, f a = g a) -> forallb f l = forallb g l.
Proof. intros H. induction l as [|a l IH]; simpl; [done|]. by rewrite H, IH. Qed.

Lemma shouldIncludeSkill_delete_empty h env entry config E :
  env !! E = Some EmptyString -> inheritedName E = false ->
  shouldIncludeSkill h (delete E env) entry config
    = shouldIncludeSkill h env entry config.
Proof.
  intros HE Hi. unfold shouldIncludeSkill.
  rewrite (forallb_pointwise (hasBinary h (delete E env)) (hasBinary h env)).
  - rewrite (forallb_pointwise
               (envRequirementMet (delete E env) entry _)
               (envRequirementMet env entry
                  (resolveSkillConfig config
                     (resolveSkillKey (entry_skill entry) (Some entry))))); [done|].
    intros name. unfold envRequirementMet.
    fold (truthyEnv (delete E env) name). fold (truthyEnv env name).
    by rewrite truthyEnv_delete_empty.
  - intros bin. unfold hasBinary. by rewrite default_delete_empty.
Qed.

(** What inclusion says of a skill that is not declared always. *)
Lemma shouldIncludeSkill_true h env entry config :
  shouldIncludeSkill h env entry config = true ->
  entry_clawdis entry ≫= md_always <> Some true ->
  forallb (hasBinary h env) (requiredBinsOf entry) = true
  /\ forallb (envRequirementMet env entry (skillConfigOf config entry))
       (requiredEnvOf entry) = true.
Proof.
  unfold shouldIncludeSkill, requiredBinsOf, requiredEnvOf, skillConfigOf.
  intros H Ha. case_bool_decide; [done|].
  rewrite bool_decide_false in H by done.
  destruct (forallb (hasBinary h env) _); [|done].
  destruct (forallb (envRequirementMet env entry _) _); done.
Qed.

(** C10: a process variable whose value is the empty string counts as
    unset.  For the filter it is missing: a skill that requires it and is
    not declared always is included only when its per-skill configuration
    answers for the variable, and is excluded when it has no per-skill
    configuration; and, the name being no member of [Object.prototype],
    removing the variable does not change the decision.  In both activation
    variants every variable is left untouched or holds a non-empty injected
    value, was unset or empty before, and has its prior value recorded; so
    an empty override is never injected, and a variable that is empty and
    for which a listed skill's configuration provides a non-empty value is
    overwritten, with the empty string recorded as its prior value.  The
    loop over an [env] table, which both variants run, does what it does on
    the table without its empty overrides. *)
Theorem empty_string_counts_as_unset (h : Host)
    (config : option ClawdisConfig) (env : Env) :
  (forall entry E,
     env !! E = Some EmptyString ->
     E ∈ requiredEnvOf entry ->
     entry_clawdis entry ≫= md_always <> Some true ->
     (shouldIncludeSkill h env entry config = true ->
      configProvides entry (skillConfigOf config entry) E)
     /\ (skillConfigOf config entry = None ->
         shouldIncludeSkill h env entry config = false))
  /\ (forall entry E,
        env !! E = Some EmptyString -> inheritedName E = false ->
        shouldIncludeSkill h env entry config
          = shouldIncludeSkill h (delete E env) entry config)
  /\ (forall skills k,
        let st := skillEnvUpdates skills config env in
        (st.1 !! k = env !! k
         \/ exists v, st.1 !! k = Some v /\ v <> EmptyString
                      /\ (env !! k = None \/ env !! k = Some EmptyString)
                      /\ {| upd_key := k; upd_prev := env !! k |} ∈ st.2)
        /\ (env !! k = Some EmptyString ->
            settable k = true ->
            (exists entry, entry ∈ skills
               /\ providesOverride config
                    (resolveSkillKey (entry_skill entry) (Some entry))
                    (entry_clawdis entry ≫= md_primaryEnv) k) ->
            exists v, st.1 !! k = Some v /\ v <> EmptyString
                      /\ {| upd_key := k; upd_prev := Some EmptyString |} ∈ st.2))
  /\ (forall snap k,
        let st := snapshotEnvUpdates (Some snap) config env in
        (st.1 !! k = env !! k
         \/ exists v, st.1 !! k = Some v /\ v <> EmptyString
                      /\ (env !! k = None \/ env !! k = Some EmptyString)
                      /\ {| upd_key := k; upd_prev := env !! k |} ∈ st.2)
        /\ (env !! k = Some EmptyString ->
            settable k = true ->
            (exists skill, skill ∈ snapshot_skills snap
               /\ providesOverride config (snap_name skill)
                    (snap_primaryEnv skill) k) ->
            exists v, st.1 !! k = Some v /\ v <> EmptyString
                      /\ {| upd_key := k; upd_prev := Some EmptyString |} ∈ st.2))
  /\ (forall table (st : Env * list EnvUpdate),
        injectEnvTable table st
          = injectEnvTable (List.filter (fun kv => nonEmpty kv.2) table) st).
Proof.
  split_and!; [| | | |apply injectEnvTable_skips_empty].
  - intros entry E HE Hreq Ha.
    assert (shouldIncludeSkill h env entry config = true ->
            configProvides entry (skillConfigOf config entry) E) as Hprov.
    { intros Hinc. apply shouldIncludeSkill_true in Hinc as [_ Henv]; [|done].
      rewrite forallb_elem_of in Henv. specialize (Henv E Hreq).
      apply envRequirementMet_iff in Henv as [[(v & Hv & Hne)|[Hn _]]|?];
        [congruence|congruence|done]. }
    split; [done|]. intros Hcfg. apply not_true_is_false. intros Hinc.
    specialize (Hprov Hinc). rewrite Hcfg in Hprov.
    destruct Hprov as [(sc & ? & ? & _)|(_ & sc & ? & ? & _)]; done.
  - intros entry E HE Hi. symmetry. by apply shouldIncludeSkill_delete_empty.
  - intros skills k st.
    pose proof (Tracks_skillEnvUpdates env skills config) as HT. split.
    + destruct (Tracks_variable env _ k HT) as [?|(v & ? & ? & ? & _ & ?)];
        [by left|right]. by exists v.
    + intros Hk Hs Hex. apply (Tracks_overwritten env); [done..|].
      apply (foldl_sets _ (fun entry =>
               providesOverride config
                 (resolveSkillKey (entry_skill entry) (Some entry))
                 (entry_clawdis entry ≫= md_primaryEnv) k)); [| |done].
      * intros st' a. apply activateEntry_keeps.
      * intros st' a Hp. by apply activateEntry_sets.
  - intros snap k st.
    pose proof (Tracks_snapshotEnvUpdates env (Some snap) config) as HT. split.
    + destruct (Tracks_variable env _ k HT) as [?|(v & ? & ? & ? & _ & ?)];
        [by left|right]. by exists v.
    + intros Hk Hs Hex. apply (Tracks_overwritten env); [done..|].
      apply (foldl_sets _ (fun skill =>
               providesOverride config (snap_name skill)
                 (snap_primaryEnv skill) k)); [| |done].
      * intros st' a. apply activateSnapshotSkill_keeps.
      * intros st' a Hp. by apply activateSnapshotSkill_sets.
Qed.

Lemma empty_string_counts_as_unset_witness :
  shouldIncludeSkill (ex_host ex_uv_package []) ex_env_empty_key ex_weather None
    = false
  /\ exists v,
       (skillEnvUpdates [ex_weather] (Some ex_config_override) ex_env_empty_key).1
         !! "WEATHER_KEY" = Some v
       /\ v <> EmptyString
       /\ {| upd_key := "WEATHER_KEY"; upd_prev := Some EmptyString |}
          ∈ (skillEnvUpdates [ex_weather] (Some ex_config_override)
               ex_env_empty_key).2.
Proof.
  split.
  - apply (proj1 (empty_string_counts_as_unset (ex_host ex_uv_package []) None
                    ex_env_empty_key) ex_weather "WEATHER_KEY").
    + reflexivity.
    + vm_compute. apply list_elem_of_here.
    + discriminate.
    + reflexivity.
  - apply (proj1 (proj2 (proj2 (empty_string_counts_as_unset
                                  (ex_host ex_uv_package [])
                                  (Some ex_config_override) ex_env_empty_key)))
             [ex_weather] "WEATHER_KEY").
    + reflexivity.
    + reflexivity.
    + exists ex_weather. split; [apply list_elem_of_here|].
      exists (mkSkillConfig None None (Some [("WEATHER_KEY", "secret")])).
      split; [reflexivity|]. left.
      exists [("WEATHER_KEY", "secret")], "secret".
      split_and!; [reflexivity|apply list_elem_of_here|discriminate].
Defined.

(** *** The snapshot variant *)

(** X27: when no entry overrides [skillKey], the snapshot variant, given
    the snapshot of the entries, leaves the environment and records the
    updates of [applySkillEnvOverrides] on these entries. *)
Lemma snapshot_agrees_without_skillKey entries config (env : Env) prompt :
  Forall (fun e => entry_clawdis e ≫= md_skillKey = None) entries ->
  snapshotEnvUpdates
    (Some {| snapshot_prompt := prompt;
             snapshot_skills := snapshotSkillsOf entries |}) config env
  = skillEnvUpdates entries config env.
Proof.
  unfold snapshotEnvUpdates, skillEnvUpdates, snapshotSkillsOf. simpl.
  generalize (env, @nil EnvUpdate).
  induction entries as [|e entries IH]; intros st Hall; [done|].
  apply Forall_cons in Hall as [He Hall]. simpl. rewrite <- IH by done.
  f_equal. unfold activateSnapshotSkill, activateEntry, resolveSkillKey. simpl.
  by rewrite He.
Qed.

(** C8 fails on the code: for an eligible entry whose metadata sets
    [skillKey], [applySkillEnvOverrides] injects the credential found under
    that key, and [applySkillEnvOverridesFromSnapshot] on the snapshot of
    the same entry looks the configuration up under the skill's name and
    injects nothing. *)
Theorem snapshot_variant_ignores_skillKey :
  let h := ex_host ex_uv_package [] in
  let eligible := filterSkillEntries h ∅ [ex_weather_keyed] (Some ex_config_wx) in
  let snapshot :=
    buildWorkspaceSkillSnapshot h ∅ "/ws" (Some (ex_opts ex_config_wx))
      (Some [ex_weather_keyed]) in
  eligible = [ex_weather_keyed]
  /\ snapshot_skills snapshot = snapshotSkillsOf eligible
  /\ (applySkillEnvOverrides eligible (Some ex_config_wx) ∅).1 !! "WEATHER_KEY"
     = Some "k"
  /\ (applySkillEnvOverridesFromSnapshot (Some snapshot) (Some ex_config_wx) ∅).1
       !! "WEATHER_KEY" = None.
Proof. split_and!; reflexivity. Qed.

(** ** Frontmatter *)

(** A non-empty mapping needs the three-dash prefix and a later line that
    begins with three dashes; nothing more is asked of the opening line. *)
Lemma parseFrontmatter_nonempty content :
  parseFrontmatter content <> ∅ ->
  startsWith (replaceCR (replaceCRLF content)) "---" = true
  /\ exists endIndex,
       indexOf (replaceCR (replaceCRLF content)) (String LF "---") 3
         = Some endIndex.
Proof.
  unfold parseFrontmatter. intros H.
  destruct (startsWith _ _); simpl in H; [|done].
  destruct (indexOf _ _ _) as [e|]; [|done].
  split; [done|by exists e].
Qed.

Lemma replaceCR_no_CR s : forall c, c ∈ list_ascii_of_string (replaceCR s) -> c <> CR.
Proof.
  induction s as [|a s IH]; intros c Hc; simpl in Hc.
  - by apply elem_of_nil in Hc.
  - apply elem_of_cons in Hc as [->|Hc]; [|by apply IH].
    case_bool_decide; [done|done].
Qed.

(** The parser on a well-formed block with CRLF and CR line endings, a
    quoted value and a line that is not a pair. *)
Example parseFrontmatter_crlf :
  parseFrontmatter ex_frontmatter_crlf !! "name" = Some "x y"
  /\ parseFrontmatter ex_frontmatter_crlf !! "description" = Some "hi"
  /\ size (parseFrontmatter ex_frontmatter_crlf) = 2.
Proof. split_and!; reflexivity. Qed.

Example parseFrontmatter_no_block :
  parseFrontmatter "name: x" = ∅ /\ parseFrontmatter "---" = ∅
  /\ parseFrontmatter ("---" +:+ String LF "---") = ∅.
Proof. split_and!; reflexivity. Qed.

Example stripQuotes_one_layer :
  stripQuotes (String dquote ("'a'" +:+ String dquote "")) = "'a'"
  /\ stripQuotes ("'a" +:+ String dquote "") = "'a" +:+ String dquote "".
Proof. split; reflexivity. Qed.

(** C9 fails on the code: the opening line is only tested for its first
    three characters while the block is cut from the fifth, so an opening
    line of four dashes, or one with text glued to the dashes, still yields
    a mapping. *)
Theorem parseFrontmatter_opening_line_unchecked :
  parseFrontmatter ex_frontmatter_four_dashes !! "name" = Some "x"
  /\ parseFrontmatter ex_frontmatter_glued !! "ame" = Some "x".
Proof. split; reflexivity. Qed.

(** ** Source merge *)

Section Merge.
Implicit Types m : list (string * Skill).

Lemma recordGet_Map_set {V} key (value : V) (m : list (string * V)) n :
  recordGet n (Map_set key value m)
    = if decide (n = key) then Some value else recordGet n m.
Proof.
  induction m as [|[k v] m IH]; simpl.
  - case_bool_decide; case_decide; done.
  - case_bool_decide as Hk; simpl.
    + subst k. case_bool_decide; case_decide; done.
    + rewrite IH. case_bool_decide as Hn; [|done].
      subst k. by rewrite decide_False.
Qed.

Lemma keys_Map_set {V} key (value : V) (m : list (string * V)) n :
  n ∈ map fst (Map_set key value m) <-> n = key \/ n ∈ map fst m.
Proof.
  induction m as [|[k v] m IH]; simpl.
  - rewrite list_elem_of_singleton. split; [by left|].
    intros [?|Hn]; [done|by apply elem_of_nil in Hn].
  - case_bool_decide as Hk; simpl.
    + subst k. rewrite !elem_of_cons. naive_solver.
    + rewrite !elem_of_cons, IH. naive_solver.
Qed.

Lemma NoDup_Map_set {V} key (value : V) (m : list (string * V)) :
  NoDup (map fst m) -> NoDup (map fst (Map_set key value m)).
Proof.
  induction m as [|[k v] m IH]; simpl; intros Hnd.
  - apply NoDup_singleton.
  - apply NoDup_cons in Hnd as [Hk Hnd]. case_bool_decide as Hkey; simpl.
    + by apply NoDup_cons.
    + apply NoDup_cons. split; [|by apply IH].
      rewrite keys_Map_set. intros [?|?]; [congruence|done].
Qed.

Lemma elem_of_Map_set {V} key (value : V) (m : list (string * V)) k v :
  (k, v) ∈ Map_set key value m -> (k = key /\ v = value) \/ (k, v) ∈ m.
Proof.
  induction m as [|[k' v'] m IH]; simpl.
  - rewrite list_elem_of_singleton. intros [= -> ->]. by left.
  - case_bool_decide as Hk; rewrite !elem_of_cons.
    + intros [[= -> ->]|?]; [by left|right; by right].
    + intros [?|H]; [right; by left|]. destruct (IH H) as [?|?]; [by left|].
      right; by right.
Qed.

Lemma named_Map_set s m : named m -> named (Map_set (skill_name s) s m).
Proof.
  intros Hm k s' [[-> ->]|H]%elem_of_Map_set; [done|by apply Hm].
Qed.

Lemma lastNamed_cons n s skills :
  lastNamed n (s :: skills)
    = match lastNamed n skills with
      | Some s' => Some s'
      | None => if decide (skill_name s = n) then Some s else None
      end.
Proof.
  unfold lastNamed. cbn [List.filter]. case_bool_decide as Hs.
  - rewrite decide_True by done. apply last_cons.
  - rewrite decide_False by done. by destruct (last _).
Qed.

Lemma setAll_spec skills : forall m,
  NoDup (map fst m) -> named m ->
  NoDup (map fst (setAll skills m))
  /\ named (setAll skills m)
  /\ (forall n, n ∈ map fst (setAll skills m)
                <-> n ∈ map skill_name skills \/ n ∈ map fst m)
  /\ (forall n, recordGet n (setAll skills m)
                = match lastNamed n skills with
                  | Some s => Some s
                  | None => recordGet n m
                  end).
Proof.
  unfold setAll.
  induction skills as [|s skills IH]; intros m Hnd Hm; simpl.
  - split_and!; [done..| |done].
    intros n. split; [by right|]. intros [Hn|?]; [by apply elem_of_nil in Hn|done].
  - destruct (IH (Map_set (skill_name s) s m)) as (H1 & H2 & H3 & H4);
      [by apply NoDup_Map_set|by apply named_Map_set|].
    split_and!; [done..| |].
    + intros n. rewrite H3, keys_Map_set, elem_of_cons. naive_solver.
    + intros n. rewrite H4, lastNamed_cons, recordGet_Map_set.
      destruct (lastNamed n skills); [done|].
      destruct (decide (n = skill_name s)) as [->|Hne].
      * by rewrite decide_True.
      * rewrite decide_False; [done|congruence].
Qed.

Lemma recordGet_elem_of {V} (m : list (string * V)) k v :
  NoDup (map fst m) -> (k, v) ∈ m <-> recordGet k m = Some v.
Proof.
  induction m as [|[k' v'] m IH]; simpl; intros Hnd.
  - split; [intros H; by apply elem_of_nil in H|done].
  - apply NoDup_cons in Hnd as [Hk Hnd]. rewrite elem_of_cons.
    case_bool_decide as E.
    + subst k'. split; [|intros [= ->]; by left].
      intros [[= ->]|Hin]; [done|]. exfalso. apply Hk.
      apply list_elem_of_fmap. by exists (k, v).
    + rewrite IH by done. split; [|by right]. intros [[= -> ->]|?]; done.
Qed.

Lemma named_keys m : named m -> map skill_name (map snd m) = map fst m.
Proof.
  intros Hm. induction m as [|[k s] m IH]; simpl; [done|].
  rewrite IH.
  - f_equal. apply Hm. by left.
  - intros k' s' H. apply Hm. by right.
Qed.

(** The merge of four lists: one record per name, the winner's. *)
Lemma mergeSkills_precedence extraSkills bundledSkills managedSkills
    workspaceSkills :
  let merged :=
    mergeSkills extraSkills bundledSkills managedSkills workspaceSkills in
  NoDup (map skill_name merged)
  /\ (forall n, n ∈ map skill_name merged
                <-> n ∈ map skill_name (extraSkills ++ bundledSkills
                                        ++ managedSkills ++ workspaceSkills))
  /\ (forall s, s ∈ merged
                <-> winner (skill_name s) extraSkills bundledSkills
                      managedSkills workspaceSkills = Some s).
Proof.
  unfold mergeSkills.
  destruct (setAll_spec extraSkills []) as (E1 & E2 & E3 & E4);
    [apply NoDup_nil_2|by intros k s H; apply elem_of_nil in H|].
  destruct (setAll_spec bundledSkills _ E1 E2) as (B1 & B2 & B3 & B4).
  destruct (setAll_spec managedSkills _ B1 B2) as (M1 & M2 & M3 & M4).
  destruct (setAll_spec workspaceSkills _ M1 M2) as (W1 & W2 & W3 & W4).
  set (m := setAll workspaceSkills _) in *. simpl.
  assert (forall n, recordGet n m
            = winner n extraSkills bundledSkills managedSkills workspaceSkills)
    as Hget.
  { intros n. rewrite W4. unfold winner.
    destruct (lastNamed n workspaceSkills); [done|]. rewrite M4.
    destruct (lastNamed n managedSkills); [done|]. rewrite B4.
    destruct (lastNamed n bundledSkills); [done|]. rewrite E4.
    by destruct (lastNamed n extraSkills). }
  rewrite named_keys by done. split_and!; [done| |].
  - intros n. rewrite W3, M3, B3, E3, !map_app, !elem_of_app.
    split; [|naive_solver].
    intros [?|[?|[?|[?|Hn]]]]; [naive_solver..|by apply elem_of_nil in Hn].
  - intros s. rewrite <- Hget, <- recordGet_elem_of by done.
    rewrite list_elem_of_fmap. split.
    + intros ([k s'] & -> & Hin). simpl. by rewrite (W2 _ _ Hin).
    + intros Hin. by exists (skill_name s, s).
Qed.
End Merge.

Lemma entry_skill_annotate h skills :
  map entry_skill (map (annotateSkill h) skills) = skills.
Proof. induction skills as [|s l IH]; simpl; [done|]. by rewrite IH. Qed.

(** C1: the skills of the entries that [loadSkillEntries] returns carry
    pairwise distinct names, the names are those of the four loaded lists,
    and the record under each name is the whole record of the source of
    highest precedence that defines it, workspace > managed > bundled >
    extra (within one list, its last record of that name). *)
Theorem loadSkillEntries_precedence (h : Host) (env : Env)
    (workspaceDir : string) (opts : option LoadOpts) :
  let extraSkills := extraSkillsOf h opts in
  let bundledSkills := bundledSkillsOf h env opts in
  let managedSkills := managedSkillsOf h opts in
  let workspaceSkills := workspaceSkillsOf h workspaceDir in
  let merged := map entry_skill (loadSkillEntries h env workspaceDir opts) in
  NoDup (map skill_name merged)
  /\ (forall n, n ∈ map skill_name merged
                <-> n ∈ map skill_name (extraSkills ++ bundledSkills
                                        ++ managedSkills ++ workspaceSkills))
  /\ (forall s, s ∈ merged
                <-> winner (skill_name s) extraSkills bundledSkills
                      managedSkills workspaceSkills = Some s).
Proof.
  intros. subst merged. unfold loadSkillEntries.
  rewrite entry_skill_annotate. apply mergeSkills_precedence.
Qed.

(** ** Metadata decoding *)

(** The names that the decoder reads are members of no prototype: on an
    object and on an array, the full read [value[name]] is the read of an
    own property. *)
Lemma decoder_reads_own name value :
  name ∈ ["clawdis"; "requires"; "install"; "always"; "emoji"; "homepage";
          "skillKey"; "primaryEnv"; "bins"; "env"; "config"; "kind"; "type";
          "id"; "label"; "formula"; "package"; "module"] ->
  isObjectRef (RData value) = true ->
  jsMember (RData value) name = RData <$> jsGet value name.
Proof.
  intros Hname Hobj.
  destruct value as [| | | |items|fields]; try done.
  - unfold jsMember. destruct (jsGet (JArr items) name) as [v|] eqn:Hget; [done|].
    simpl. repeat (apply elem_of_cons in Hname as [->|Hname]; [reflexivity|]).
    by apply elem_of_nil in Hname.
  - unfold jsMember, jsGet. destruct (recordGet name fields) as [v|]; [done|].
    simpl. repeat (apply elem_of_cons in Hname as [->|Hname]; [reflexivity|]).
    by apply elem_of_nil in Hname.
Qed.

Lemma parseInstallSpec_validKind input spec :
  parseInstallSpec input = Some (Some spec) -> validKind (spec_kind spec).
Proof.
  unfold parseInstallSpec, validKind. destruct (asObject input) as [raw|]; [|done].
  simpl. destruct (normalizeStringList _) as [bins|];
    repeat case_bool_decide; simpl; intros [= <-]; simpl; auto.
Qed.

(** Every element of the result of a run of [mapM] comes from an element of
    the list. *)
Lemma mapM_elem_of {A B} (f : A -> option B) l k y :
  mapM f l = Some k -> y ∈ k -> exists x, x ∈ l /\ f x = Some y.
Proof.
  rewrite mapM_Some. intros Hall Hy.
  apply list_elem_of_lookup in Hy as [i Hi].
  destruct (Forall2_lookup_r _ _ _ _ _ Hall Hi) as (x & Hx & Hf).
  exists x. split; [|done]. by apply (list_elem_of_lookup_2 _ i).
Qed.

Lemma decodeClawdis_validKinds parsed md :
  decodeClawdis parsed = Some md ->
  Forall (fun s => validKind (spec_kind s)) (default [] (md_install md)).
Proof.
  unfold decodeClawdis. destruct (asObject (Some parsed)) as [o|]; [|done].
  destruct (asObject (jsGet o "clawdis")) as [c|]; [|done].
  destruct (mapM _ _) as [parsedSpecs|] eqn:Hm; [|done]. simpl.
  destruct (decodeRequires _) as [requires|]; [|done]. simpl.
  intros [= <-]. simpl.
  set (install := omap id parsedSpecs).
  assert (Forall (fun s => validKind (spec_kind s)) install) as Hall.
  { apply Forall_forall. intros s (y & Hy & Hs)%list_elem_of_omap.
    simpl in Hs. subst y.
    destruct (mapM_elem_of _ _ _ _ Hm Hy) as (x & _ & Hx).
    by apply parseInstallSpec_validKind in Hx. }
  by destruct install.
Qed.

(** X28: every installer spec of an entry that [loadSkillEntries] returns
    has one of the kinds brew, node, go and uv: the decoder drops the
    others. *)
Lemma loadSkillEntries_validKinds h env workspaceDir opts entry :
  entry ∈ loadSkillEntries h env workspaceDir opts ->
  Forall (fun s => validKind (spec_kind s)) (installSpecsOf entry).
Proof.
  unfold loadSkillEntries. intros (skill & -> & _)%list_elem_of_fmap.
  unfold installSpecsOf, annotateSkill, resolveClawdisMetadata. simpl.
  destruct (getFrontmatterValue _ _) as [raw|]; [|by apply Forall_nil].
  destruct (nonEmpty raw); [|by apply Forall_nil].
  destruct (JSON_parse h raw) as [parsed|]; [|by apply Forall_nil].
  simpl. destruct (decodeClawdis parsed) as [md|] eqn:E; [|by apply Forall_nil].
  by apply decodeClawdis_validKinds in E.
Qed.

(** * Further properties *)

(** ** Install dispatch: not found, direct path, bounds *)

(** X1: a request that names no loaded skill ends with the failure
    "Skill not found: <name>" and spawns no process. *)
Theorem installSkill_unknown_skill (h : Host) (env : Env)
    (params : SkillInstallRequest) :
  (forall entry,
     entry ∈ loadWorkspaceSkillEntries h env
               (resolveUserPath h (workspaceDir params)) None ->
     skill_name (entry_skill entry) <> skillName params) ->
  installSkill h env params
    = Ret (failure ("Skill not found: " +:+ skillName params)).
Proof.
  intros Hnone. unfold installSkill.
  destruct (List.find _ _) as [entry|] eqn:Hfind; [|done].
  apply find_some in Hfind as [Hin Hname]. exfalso.
  apply bool_decide_eq_true in Hname. apply (Hnone entry); [|done].
  by apply list_elem_of_In.
Qed.

Lemma installSkill_unknown_skill_witness :
  installSkill (ex_host ex_brew_jq ["brew"]) ex_env ex_request_ghost
    = Ret (failure "Skill not found: ghost").
Proof.
  apply (installSkill_unknown_skill (ex_host ex_brew_jq ["brew"]) ex_env
           ex_request_ghost).
  intros entry Hin. vm_compute in Hin.
  apply list_elem_of_singleton in Hin as ->. discriminate.
Defined.

(** X2: a request that names a loaded skill but none of its installer ids
    ends with the failure "Installer not found: <id>" and spawns no
    process. *)
Theorem installSkill_unknown_installer (h : Host) (env : Env)
    (params : SkillInstallRequest) (entry : SkillEntry) :
  List.find (fun item =>
               bool_decide (skill_name (entry_skill item) = skillName params))
            (loadWorkspaceSkillEntries h env
               (resolveUserPath h (workspaceDir params)) None) = Some entry ->
  (forall i spec, installSpecsOf entry !! i = Some spec ->
                  resolveInstallId spec i <> installId params) ->
  installSkill h env params
    = Ret (failure ("Installer not found: " +:+ installId params)).
Proof.
  intros Hentry Hnone. unfold installSkill. rewrite Hentry.
  destruct (findInstallSpec entry (installId params)) as [spec|] eqn:Hspec; [|done].
  apply findInstallSpecFrom_Some in Hspec as (i & Hi & Hid & _).
  exfalso. by apply (Hnone i spec).
Qed.

Lemma installSkill_unknown_installer_witness :
  installSkill (ex_host ex_brew_jq ["brew"]) ex_env (ex_request "npm-0")
    = Ret (failure "Installer not found: npm-0").
Proof.
  apply (installSkill_unknown_installer (ex_host ex_brew_jq ["brew"]) ex_env
           (ex_request "npm-0") (ex_loaded ex_brew_jq)).
  - reflexivity.
  - intros [|[|i]] spec Hi; vm_compute in Hi; [|discriminate..].
    injection Hi as <-. vm_compute. discriminate.
Defined.

Lemma Qle_bool_false x y : Qle_bool x y = false -> (y <= x)%Q.
Proof.
  intros H. apply Qlt_le_weak, Qnot_le_lt. intros Hle.
  apply Qle_bool_iff in Hle. congruence.
Qed.

(** The clamp of a timeout: not-a-number passes through both bounds, every
    other double ends in the closed range. *)
Lemma clampTimeout_bounds t :
  (clampTimeout t = NaN <-> t = Some NaN)
  /\ (t <> Some NaN ->
      exists q, clampTimeout t = Finite q /\ (1000 <= q)%Q /\ (q <= 900000)%Q).
Proof.
  unfold clampTimeout. destruct t as [[| |x|]|]; simpl.
  - split; [done|]. by intros [].
  - split; [done|]. intros _. exists 1000%Q. split_and!; [reflexivity|done..].
  - destruct (Qle_bool 1000 x) eqn:H1; simpl.
    + apply Qle_bool_iff in H1. destruct (Qle_bool x 900000) eqn:H2; simpl.
      * apply Qle_bool_iff in H2. split; [done|]. intros _. by exists x.
      * split; [done|]. intros _. exists 900000%Q. split_and!; [reflexivity|done..].
    + split; [done|]. intros _. exists 1000%Q. split_and!; [reflexivity|done..].
  - split; [done|]. intros _. exists 900000%Q. split_and!; [reflexivity|done..].
  - split; [done|]. intros _. exists 300000%Q. split_and!; [reflexivity|done..].
Qed.

(** A command and an error never come together, a command has at least
    three words and ends with the non-empty payload of the spec. *)
Lemma buildInstallCommand_cases spec prefs :
  (exists msg, buildInstallCommand spec prefs = synthError msg
               /\ (msg = "missing brew formula" \/ msg = "missing node package"
                   \/ msg = "missing go module" \/ msg = "missing uv package"
                   \/ msg = "unsupported installer"))
  \/ (exists tool verb rest payload,
        buildInstallCommand spec prefs = synthArgv (tool :: verb :: rest)
        /\ last rest = Some payload /\ nonEmpty payload = true
        /\ (spec_formula spec = Some payload \/ spec_package spec = Some payload
            \/ spec_module spec = Some payload)).
Proof.
  unfold buildInstallCommand, buildNodeInstallCommand.
  repeat case_bool_decide;
    repeat match goal with
           | |- context [match ?o with Some _ => _ | None => _ end] =>
               destruct o as [?|] eqn:?
           | |- context [if nonEmpty ?s then _ else _] =>
               destruct (nonEmpty s) eqn:?
           end;
    try (left; eexists; split; [reflexivity|tauto]);
    right; do 4 eexists; (split; [reflexivity|]); simpl; split_and!;
    try reflexivity; try eassumption; eauto.
Qed.

(** X3: a resolved request whose spec yields a command, and that needs no
    bootstrap (the kind is not [uv], or [uv] is on the search path), runs
    exactly that command under the clamped timeout; the result reports
    success exactly for exit code 0 and carries the trimmed output. *)
Theorem installSkill_direct (h : Host) (env : Env)
    (params : SkillInstallRequest) (entry : SkillEntry)
    (spec : SkillInstallSpec) (command : list string) :
  resolvesTo h env params entry spec ->
  argv (buildInstallCommand spec (resolveSkillsInstallPreferences (config params)))
    = Some command ->
  (spec_kind spec = "uv" -> hasBinary h env "uv" = true) ->
  exists k,
    installSkill h env params = Run command (clampTimeout (timeoutMs params)) k
    /\ forall r,
         k r = Ret (processResult (bool_decide (run_code r = Some 0%Z))
                      (if bool_decide (run_code r = Some 0%Z)
                       then "Installed" else "Install failed") r).
Proof.
  intros [Hentry Hspec] Hargv Huv. unfold installSkill. rewrite Hentry, Hspec.
  destruct (buildInstallCommand_cases spec
              (resolveSkillsInstallPreferences (config params)))
    as [(msg & Hc & _)|(tool & verb & rest & payload & Hc & _)];
    rewrite Hc in *; [discriminate|].
  injection Hargv as <-. cbn [error synthArgv truthyStr argv].
  assert (bool_decide (spec_kind spec = "uv") && negb (hasBinary h env "uv") = false)
    as ->.
  { case_bool_decide as Hk; [|done]. by rewrite (Huv Hk). }
  eexists. split; [reflexivity|]. intros r. reflexivity.
Qed.

Lemma installSkill_direct_witness :
  spawned (fun _ => ex_ok_run)
          (installSkill (ex_host ex_brew_jq ["brew"]) ex_env (ex_request "brew-0"))
    = [["brew"; "install"; "jq"]]
  /\ outcome (fun _ => ex_ok_run)
             (installSkill (ex_host ex_brew_jq ["brew"]) ex_env (ex_request "brew-0"))
     = processResult true "Installed" ex_ok_run.
Proof.
  destruct (installSkill_direct (ex_host ex_brew_jq ["brew"]) ex_env
              (ex_request "brew-0") (ex_loaded ex_brew_jq)
              (mkSpec None "brew" (Some "jq") None None)
              ["brew"; "install"; "jq"]) as (k & Hrun & Hk).
  - split; reflexivity.
  - reflexivity.
  - discriminate.
  - rewrite Hrun. simpl. rewrite Hk. split; reflexivity.
Defined.

(** The three shapes of a call of [installSkill]: an immediate failure, the
    install command alone, or the bootstrap followed, on exit code 0, by the
    install command. *)
Lemma installSkill_shape (h : Host) (env : Env) (params : SkillInstallRequest) :
  let T := clampTimeout (timeoutMs params) in
  let final := fun r =>
    processResult (bool_decide (run_code r = Some 0%Z))
      (if bool_decide (run_code r = Some 0%Z) then "Installed"
       else "Install failed") r in
  (exists msg, installSkill h env params = Ret (failure msg)
               /\ msg <> "invalid install command" /\ msg <> "Installed")
  \/ (exists command k,
        installSkill h env params = Run command T k
        /\ forall r, k r = Ret (final r))
  \/ (exists command k,
        installSkill h env params = Run ["brew"; "install"; "uv"] T k
        /\ forall r,
             (run_code r <> Some 0%Z ->
              k r = Ret (processResult false "Failed to install uv (brew)" r))
             /\ (run_code r = Some 0%Z ->
                 exists k', k r = Run command T k'
                            /\ forall r', k' r' = Ret (final r'))).
Proof.
  intros T final. unfold installSkill.
  destruct (List.find _ _) as [entry|]; [|left; eexists; split; [reflexivity|done]].
  destruct (findInstallSpec entry _) as [spec|];
    [|left; eexists; split; [reflexivity|done]].
  destruct (buildInstallCommand_cases spec
              (resolveSkillsInstallPreferences (config params)))
    as [(msg & -> & Hmsg)|(tool & verb & rest & payload & -> & _)].
  - left. exists msg. cbn [error synthError truthyStr].
    destruct Hmsg as [-> | [-> | [-> | [-> | ->]]]]; done.
  - cbn [error synthArgv truthyStr argv].
    destruct (bool_decide (spec_kind spec = "uv") && negb (hasBinary h env "uv")).
    + destruct (hasBinary h env "brew").
      * right; right. do 2 eexists. split; [reflexivity|]. intros r. split.
        -- intros Hr. simpl. by rewrite bool_decide_false.
        -- intros Hr. simpl. rewrite bool_decide_true by done. simpl.
           eexists. split; [reflexivity|]. intros r'. reflexivity.
      * left. eexists. split; [reflexivity|done].
    + right; left. do 2 eexists. split; [reflexivity|]. intros r. reflexivity.
Qed.

(** X4: [installSkill] reports success only after a process it spawned
    last has ended with exit code 0: then the result carries code 0 and
    the message "Installed".  No result carries the message
    "invalid install command". *)
Theorem installSkill_success_sound (h : Host) (env : Env)
    (params : SkillInstallRequest) (answer : list string -> RunResult) :
  let result := outcome answer (installSkill h env params) in
  (ok result = true <-> message result = "Installed")
  /\ (ok result = true ->
      code result = Some 0%Z
      /\ exists command,
           last (spawned answer (installSkill h env params)) = Some command
           /\ run_code (answer command) = Some 0%Z)
  /\ message result <> "invalid install command".
Proof.
  assert (forall r,
            let final := processResult (bool_decide (run_code r = Some 0%Z))
                           (if bool_decide (run_code r = Some 0%Z)
                            then "Installed" else "Install failed") r in
            (ok final = true <-> message final = "Installed")
            /\ (ok final = true -> run_code r = Some 0%Z)
            /\ message final <> "invalid install command") as Hfinal.
  { intros r. simpl. case_bool_decide; split_and!; done. }
  destruct (installSkill_shape h env params)
    as [(msg & -> & H1 & H2)|[(command & k & -> & Hk)
                              |(command & k & -> & Hk)]]; simpl.
  - split_and!; [split; [done|by intros ->]|done|done].
  - rewrite Hk. simpl. destruct (Hfinal (answer command)) as (F1 & F2 & F3).
    split_and!; [done| |done].
    intros Hok. split; [by apply F2|]. exists command. split; [done|by apply F2].
  - destruct (Hk (answer ["brew"; "install"; "uv"])) as [Hfail Hpass].
    destruct (decide (run_code (answer ["brew"; "install"; "uv"]) = Some 0%Z))
      as [H0|H0].
    + destruct (Hpass H0) as (k' & -> & Hk'). simpl. rewrite Hk'. simpl.
      destruct (Hfinal (answer command)) as (F1 & F2 & F3).
      split_and!; [done| |done].
      intros Hok. split; [by apply F2|]. exists command. split; [done|by apply F2].
    + rewrite (Hfail H0). simpl. split_and!; [split; done|done|done].
Qed.

(** X5: whatever the runner answers, [installSkill] spawns at most two
    processes, each under the clamped timeout of the request.  The clamped
    timeout is not-a-number exactly when the requested one is, and
    otherwise lies between 1000 and 900000 milliseconds, also for an
    infinite request.  When two processes are spawned, the first is
    [brew install uv]. *)
Theorem installSkill_spawn_bounds (h : Host) (env : Env)
    (params : SkillInstallRequest) (answer : list string -> RunResult) :
  length (spawned answer (installSkill h env params)) <= 2
  /\ Forall (fun t => t = clampTimeout (timeoutMs params))
            (spawnedTimeouts answer (installSkill h env params))
  /\ (clampTimeout (timeoutMs params) = NaN <-> timeoutMs params = Some NaN)
  /\ (timeoutMs params <> Some NaN ->
      exists q, clampTimeout (timeoutMs params) = Finite q
                /\ (1000 <= q)%Q /\ (q <= 900000)%Q)
  /\ (length (spawned answer (installSkill h env params)) = 2 ->
      head (spawned answer (installSkill h env params))
        = Some ["brew"; "install"; "uv"]).
Proof.
  destruct (clampTimeout_bounds (timeoutMs params)) as [HN HT].
  destruct (installSkill_shape h env params)
    as [(msg & -> & _)|[(command & k & -> & Hk)|(command & k & -> & Hk)]]; simpl.
  - split_and!; [lia|apply List.Forall_nil|done..].
  - rewrite Hk. simpl. split_and!; [lia| |done..].
    apply List.Forall_cons; [done|apply List.Forall_nil].
  - destruct (Hk (answer ["brew"; "install"; "uv"])) as [Hfail Hpass].
    destruct (decide (run_code (answer ["brew"; "install"; "uv"]) = Some 0%Z))
      as [H0|H0].
    + destruct (Hpass H0) as (k' & -> & Hk'). simpl. rewrite Hk'. simpl.
      split_and!; [lia| |done..].
      repeat (apply List.Forall_cons; [done|]). apply List.Forall_nil.
    + rewrite (Hfail H0). simpl. split_and!; [lia| |done..].
      apply List.Forall_cons; [done|apply List.Forall_nil].
Qed.

(** X6: command synthesis gives either an error message and no command,
    or no error and a command of at least three words that ends with the
    non-empty formula, package or module of the spec. *)
Theorem buildInstallCommand_shape (spec : SkillInstallSpec)
    (prefs : SkillsInstallPreferences) :
  match argv (buildInstallCommand spec prefs),
        error (buildInstallCommand spec prefs) with
  | Some command, None =>
      3 <= length command
      /\ exists payload, last command = Some payload /\ payload <> EmptyString
           /\ (spec_formula spec = Some payload \/ spec_package spec = Some payload
               \/ spec_module spec = Some payload)
  | None, Some msg => msg <> EmptyString
  | _, _ => False
  end.
Proof.
  destruct (buildInstallCommand_cases spec prefs)
    as [(msg & -> & Hmsg)|(tool & verb & rest & payload & -> & Hl & Hp & Hs)];
    simpl.
  - destruct Hmsg as [-> | [-> | [-> | [-> | ->]]]]; done.
  - destruct rest as [|w rest]; [done|]. split; [simpl; lia|].
    exists payload. split_and!; [|by destruct payload|done].
    by rewrite !last_cons_cons.
Qed.

(** X7: the resolved node manager is always one of npm, pnpm and yarn
    (npm when the configuration names none or another), and the node
    install command starts with it and ends with the package. *)
Theorem resolveSkillsInstallPreferences_nodeManager
    (config : option ClawdisConfig) (packageName : string) :
  let prefs := resolveSkillsInstallPreferences config in
  (nodeManager prefs = "npm" \/ nodeManager prefs = "pnpm"
   \/ nodeManager prefs = "yarn")
  /\ ((config ≫= cfg_skillsInstall) ≫= si_nodeManager = None ->
      nodeManager prefs = "npm")
  /\ head (buildNodeInstallCommand packageName prefs) = Some (nodeManager prefs)
  /\ last (buildNodeInstallCommand packageName prefs) = Some packageName.
Proof.
  intros prefs.
  assert (nodeManager prefs = "npm" \/ nodeManager prefs = "pnpm"
          \/ nodeManager prefs = "yarn") as Hm.
  { subst prefs. unfold resolveSkillsInstallPreferences. simpl.
    repeat case_bool_decide; simpl; auto. }
  split_and!; [done| | |].
  - intros Hnone. subst prefs. unfold resolveSkillsInstallPreferences. simpl.
    by rewrite Hnone.
  - unfold buildNodeInstallCommand.
    destruct Hm as [-> | [-> | ->]]; reflexivity.
  - unfold buildNodeInstallCommand. repeat case_bool_decide; reflexivity.
Qed.

Lemma resolveSkillsInstallPreferences_nodeManager_witness :
  nodeManager (resolveSkillsInstallPreferences None) = "npm".
Proof.
  apply (proj1 (proj2 (resolveSkillsInstallPreferences_nodeManager None "x"))).
  reflexivity.
Defined.

(** ** Eligibility and activation together *)

Lemma recordGet_Some_elem {T} (r : list (string * T)) k v :
  recordGet k r = Some v -> (k, v) ∈ r.
Proof.
  induction r as [|[k' v'] r IH]; simpl; [done|].
  case_bool_decide as E.
  - intros [= ->]. subst k'. by left.
  - intros H. right. by apply IH.
Qed.

(** For a name that is no member of [Object.prototype], a truthy read is a
    non-empty value of the object's own. *)
Lemma holdsTruthy_own own name :
  inheritedName name = false -> holdsTruthy own name ->
  exists v, own = Some v /\ v <> EmptyString.
Proof. intros Hi [?|[_ ?]]; [done|congruence]. Qed.

Lemma settable_nonempty k : settable k = true -> k <> EmptyString.
Proof. by destruct k. Qed.

(** What the per-skill configuration answers for with a value of its own,
    activation can write. *)
Lemma configProvides_override config entry E :
  inheritedName E = false -> settable E = true ->
  configProvides entry (skillConfigOf config entry) E ->
  providesOverride config (resolveSkillKey (entry_skill entry) (Some entry))
    (entry_clawdis entry ≫= md_primaryEnv) E.
Proof.
  intros Hi Hs [(sc & table & Hsc & Ht & Hv)|(Hp & sc & a & Hsc & Ha & Hne)].
  - apply holdsTruthy_own in Hv as (v & Hv & Hne); [|done].
    exists sc. split; [done|]. left. exists table, v.
    split_and!; [done| |done]. by apply recordGet_Some_elem.
  - exists sc. split; [done|]. right.
    split_and!; [done|by apply settable_nonempty|]. by exists a.
Qed.

(** X8: activation delivers what the filter counted on.  For a listed skill
    that the filter includes without [always = true], every required
    environment variable whose name the environment accepts (not empty, no
    [=]) and that names no member of [Object.prototype] holds a non-empty
    value after [applySkillEnvOverrides]. *)
Theorem activation_meets_env_requirements (h : Host) (env : Env)
    (skills : list SkillEntry) (config : option ClawdisConfig)
    (entry : SkillEntry) (E : string) :
  entry ∈ skills ->
  shouldIncludeSkill h env entry config = true ->
  entry_clawdis entry ≫= md_always <> Some true ->
  E ∈ requiredEnvOf entry ->
  settable E = true ->
  inheritedName E = false ->
  exists v, (applySkillEnvOverrides skills config env).1 !! E = Some v
            /\ v <> EmptyString.
Proof.
  intros Hin Hinc Ha HE Hs Hi.
  apply (holdsTruthy_own _ E Hi). apply truthyEnv_true.
  unfold applySkillEnvOverrides, skillEnvUpdates. simpl.
  apply shouldIncludeSkill_true in Hinc as [_ Henv]; [|done].
  rewrite forallb_elem_of in Henv. specialize (Henv E HE).
  apply envRequirementMet_iff in Henv as [Hset|Hprov].
  - apply truthyEnv_true in Hset.
    apply (keeps_truthy (env, [])); [|done].
    apply foldl_keeps. intros st e0. apply activateEntry_keeps.
  - apply (foldl_sets _ (fun e => e = entry)); [| |by exists entry].
    + intros st e0. apply activateEntry_keeps.
    + intros st e0 ->. apply activateEntry_sets; [|done].
      by apply configProvides_override.
Qed.

Lemma activation_meets_env_requirements_witness :
  exists v,
    (applySkillEnvOverrides [ex_weather_primary] (Some ex_config_apiKey) ex_env).1
      !! "WEATHER_KEY" = Some v
    /\ v <> EmptyString.
Proof.
  apply (activation_meets_env_requirements (ex_host ex_brew_jq []) ex_env
           [ex_weather_primary] (Some ex_config_apiKey) ex_weather_primary
           "WEATHER_KEY").
  - apply list_elem_of_here.
  - reflexivity.
  - discriminate.
  - vm_compute. apply list_elem_of_here.
  - reflexivity.
  - reflexivity.
Defined.

(** X9: a skill whose metadata is absent or declares no requirements is
    included unless its per-skill configuration sets [enabled = false]. *)
Theorem shouldIncludeSkill_no_requirements (h : Host) (env : Env)
    (entry : SkillEntry) (config : option ClawdisConfig) :
  entry_clawdis entry ≫= md_requires = None ->
  shouldIncludeSkill h env entry config
    = negb (bool_decide (skillConfigOf config entry ≫= sc_enabled = Some false)).
Proof.
  intros Hreq. unfold shouldIncludeSkill, skillConfigOf. rewrite Hreq. simpl.
  repeat case_bool_decide; done.
Qed.

Lemma shouldIncludeSkill_no_requirements_witness :
  shouldIncludeSkill (ex_host ex_brew_jq []) ∅ (mkEntry "plain" None) None = true.
Proof.
  apply (shouldIncludeSkill_no_requirements (ex_host ex_brew_jq []) ∅
           (mkEntry "plain" None) None).
  reflexivity.
Defined.

Lemma hasBinary_no_PATH h (env : Env) bin :
  truthyStr (env !! "PATH") = false -> hasBinary h env bin = false.
Proof.
  intros HP. unfold hasBinary.
  destruct (env !! "PATH") as [[|c s]|]; [reflexivity|done|reflexivity].
Qed.

(** X10: with [PATH] unset or empty no binary is found, and a skill that
    requires a binary and is not declared always is excluded. *)
Theorem no_PATH_no_binary (h : Host) (env : Env) (entry : SkillEntry)
    (config : option ClawdisConfig) (bin : string) :
  truthyStr (env !! "PATH") = false ->
  hasBinary h env bin = false
  /\ (bin ∈ requiredBinsOf entry ->
      entry_clawdis entry ≫= md_always <> Some true ->
      shouldIncludeSkill h env entry config = false).
Proof.
  intros HP. split; [by apply hasBinary_no_PATH|].
  intros Hbin Ha. apply not_true_is_false. intros Hinc.
  apply shouldIncludeSkill_true in Hinc as [Hbins _]; [|done].
  rewrite forallb_elem_of in Hbins. specialize (Hbins bin Hbin).
  by rewrite hasBinary_no_PATH in Hbins.
Qed.

Lemma no_PATH_no_binary_witness :
  shouldIncludeSkill (ex_host ex_brew_jq ["git"]) ∅ ex_needs_git None = false.
Proof.
  destruct (no_PATH_no_binary (ex_host ex_brew_jq ["git"]) ∅ ex_needs_git
              None "git") as [_ H].
  - reflexivity.
  - apply H.
    + vm_compute. apply list_elem_of_here.
    + discriminate.
Defined.

Lemma walkConfigPath_undefined parts : walkConfigPath None parts = None.
Proof. by destruct parts. Qed.

(** X11: without a configuration the only truthy configuration path is
    [browser.enabled], the one entry of the table of defaults; and a value
    the configuration defines is never replaced by a default. *)
Theorem isConfigPathTruthy_defaults (config : option ClawdisConfig)
    (pathStr : string) :
  isConfigPathTruthy None pathStr = bool_decide (pathStr = "browser.enabled")
  /\ (forall value, resolveConfigPath config pathStr = Some value ->
        isConfigPathTruthy config pathStr = isTruthy (Some value)).
Proof.
  split.
  - unfold isConfigPathTruthy, resolveConfigPath. simpl.
    rewrite walkConfigPath_undefined. unfold readMember. simpl.
    case_bool_decide; [done|]. by destruct (inheritedName pathStr).
  - intros value Hv. unfold isConfigPathTruthy. by rewrite Hv.
Qed.

Lemma hasBinary_mono h (env env' : Env) bin :
  (truthyStr (env !! "PATH") = true -> env' !! "PATH" = env !! "PATH") ->
  hasBinary h env bin = true -> hasBinary h env' bin = true.
Proof.
  intros HP Hb. destruct (truthyStr (env !! "PATH")) eqn:Ht.
  - unfold hasBinary in *. by rewrite HP.
  - by rewrite hasBinary_no_PATH in Hb.
Qed.

Lemma forallb_mono {A} (f g : A -> bool) l :
  (forall a, f a = true -> g a = true) ->
  forallb f l = true -> forallb g l = true.
Proof.
  intros H. induction l as [|a l IH]; simpl; [done|].
  intros [Ha Hl]%andb_prop. rewrite (H a Ha). by apply IH.
Qed.

Lemma shouldIncludeSkill_mono h (env env' : Env) entry config :
  (truthyStr (env !! "PATH") = true -> env' !! "PATH" = env !! "PATH") ->
  (forall k, truthyEnv env k = true -> truthyEnv env' k = true) ->
  shouldIncludeSkill h env entry config = true ->
  shouldIncludeSkill h env' entry config = true.
Proof.
  intros HP Hmono. unfold shouldIncludeSkill.
  case_bool_decide; [done|]. case_bool_decide; [done|].
  destruct (forallb (hasBinary h env) _) eqn:Hb; [|done].
  rewrite (forallb_mono _ (hasBinary h env') _
             (fun b => hasBinary_mono h env env' b HP) Hb).
  destruct (forallb (envRequirementMet env entry _) _) eqn:He; [|done].
  assert (forall name,
            envRequirementMet env entry
              (resolveSkillConfig config
                 (resolveSkillKey (entry_skill entry) (Some entry))) name = true ->
            envRequirementMet env' entry
              (resolveSkillConfig config
                 (resolveSkillKey (entry_skill entry) (Some entry))) name = true)
    as Hreq.
  { intros name. unfold envRequirementMet.
    fold (truthyEnv env name). fold (truthyEnv env' name).
    destruct (truthyEnv env name) eqn:Hn; [by rewrite (Hmono _ Hn)|].
    intros Hm. by destruct (truthyEnv env' name). }
  by rewrite (forallb_mono _ _ _ Hreq He).
Qed.

(** X12: making more reads truthy never disables a skill.  For a skill
    whose required variables have names that the environment accepts: when
    every name whose read [process.env[name]] is truthy under [env] also
    reads truthy under [env'], and a non-empty [PATH] is kept as it is, the
    skill, if included under [env], is included under [env']. *)
Theorem shouldIncludeSkill_env_monotone (h : Host) (env env' : Env)
    (entry : SkillEntry) (config : option ClawdisConfig) :
  (forall E, E ∈ requiredEnvOf entry -> settable E = true) ->
  (truthyStr (env !! "PATH") = true -> env' !! "PATH" = env !! "PATH") ->
  (forall k, truthyEnv env k = true -> truthyEnv env' k = true) ->
  shouldIncludeSkill h env entry config = true ->
  shouldIncludeSkill h env' entry config = true.
Proof. intros _. apply shouldIncludeSkill_mono. Qed.

Lemma shouldIncludeSkill_env_monotone_witness :
  shouldIncludeSkill (ex_host ex_brew_jq [])
    (<["OTHER" := "x"]> (<["WEATHER_KEY" := "k"]> ex_env)) ex_weather None
  = true.
Proof.
  apply (shouldIncludeSkill_env_monotone (ex_host ex_brew_jq [])
           (<["WEATHER_KEY" := "k"]> ex_env)
           (<["OTHER" := "x"]> (<["WEATHER_KEY" := "k"]> ex_env))
           ex_weather None).
  - intros E HE. vm_compute in HE.
    apply list_elem_of_singleton in HE as ->. reflexivity.
  - intros _. reflexivity.
  - intros k Hk. destruct (decide (k = "OTHER")) as [->|Hne]; [reflexivity|].
    rewrite (truthyEnv_lookup _ (<["WEATHER_KEY" := "k"]> ex_env)); [done|].
    by apply lookup_insert_ne.
  - reflexivity.
Defined.

(** X13: activation keeps eligible skills eligible: a skill that
    [shouldIncludeSkill] includes before [applySkillEnvOverrides] is
    included under the environment the call leaves, for any list of
    activated skills. *)
Theorem activation_keeps_eligibility (h : Host) (env : Env)
    (skills : list SkillEntry) (config : option ClawdisConfig)
    (entry : SkillEntry) :
  shouldIncludeSkill h env entry config = true ->
  shouldIncludeSkill h (applySkillEnvOverrides skills config env).1 entry config
    = true.
Proof.
  assert (forall k, truthyEnv env k = true ->
            (applySkillEnvOverrides skills config env).1 !! k = env !! k) as Hkeep.
  { intros k Hk. unfold applySkillEnvOverrides, skillEnvUpdates. simpl.
    apply (foldl_keeps (activateEntry config) k skills); [|done].
    intros st e0. apply activateEntry_keeps. }
  apply shouldIncludeSkill_mono.
  - intros HP. by apply Hkeep, truthyEnv_own.
  - intros k Hk. by rewrite (truthyEnv_lookup _ env) by by apply Hkeep.
Qed.

Lemma activation_keeps_eligibility_witness :
  shouldIncludeSkill (ex_host ex_brew_jq [])
    (applySkillEnvOverrides [ex_weather_primary] (Some ex_config_apiKey) ex_env).1
    ex_weather_primary (Some ex_config_apiKey) = true.
Proof.
  apply (activation_keeps_eligibility (ex_host ex_brew_jq []) ex_env
           [ex_weather_primary] (Some ex_config_apiKey) ex_weather_primary).
  reflexivity.
Defined.

(** ** Activation: idempotence, scope and precedence of the writes *)

Section Writes.
Implicit Types st : Env * list EnvUpdate.

Lemma idle_refl st : idle st st.
Proof. split; [done|]. intros u Hu. by left. Qed.

Lemma idle_trans st1 st2 st3 : idle st1 st2 -> idle st2 st3 -> idle st1 st3.
Proof.
  intros [E1 U1] [E2 U2]. split; [congruence|].
  intros u Hu. destruct (U2 u Hu) as [Hu2|?]; [by apply U1|by right].
Qed.

Lemma injectVariable_idle key value st :
  (settable key = true -> truthyEnv st.1 key = true) ->
  idle st (injectVariable key value st).
Proof.
  intros Hsat. rewrite injectVariable_unfold.
  destruct (truthyEnv st.1 key) eqn:Hk; [apply idle_refl|].
  assert (settable key = false) as Hs
    by (destruct (settable key); [by specialize (Hsat eq_refl)|done]).
  unfold recordAndSet, setEnv. rewrite Hs. split; [done|]. simpl.
  intros u [?|Hu]%elem_of_app; [by left|].
  apply list_elem_of_singleton in Hu as ->. by right.
Qed.

Lemma injectEnvTable_idle table : forall st,
  (forall k v, (k, v) ∈ table -> v <> EmptyString -> settable k = true ->
               truthyEnv st.1 k = true) ->
  idle st (injectEnvTable table st).
Proof.
  unfold injectEnvTable.
  induction table as [|[k v] table IH]; intros st Hsat; [apply idle_refl|].
  cbn [foldl fst snd].
  assert (idle st (if negb (nonEmpty v) then st else injectVariable k v st))
    as Hstep.
  { destruct v as [|c v]; [apply idle_refl|]. simpl.
    apply injectVariable_idle. apply (Hsat k (String c v)); [by left|done]. }
  apply (idle_trans _ _ _ Hstep). apply IH. intros k' v' Hin Hv Hs.
  destruct Hstep as [-> _]. apply (Hsat k' v'); [by right|done..].
Qed.

Lemma injectApiKey_idle primaryEnv apiKey st :
  (forall p a, primaryEnv = Some p -> apiKey = Some a -> p <> EmptyString ->
               a <> EmptyString -> settable p = true ->
               truthyEnv st.1 p = true) ->
  idle st (injectApiKey primaryEnv apiKey st).
Proof.
  intros Hsat. unfold injectApiKey.
  destruct primaryEnv as [p|], apiKey as [a|]; try apply idle_refl.
  destruct p as [|c p]; [apply idle_refl|]. destruct a as [|d a]; [apply idle_refl|].
  simpl. apply injectVariable_idle. by apply (Hsat _ _ eq_refl eq_refl).
Qed.

Lemma activateEntry_idle config st entry :
  (forall k, providesOverride config
               (resolveSkillKey (entry_skill entry) (Some entry))
               (entry_clawdis entry ≫= md_primaryEnv) k ->
             settable k = true -> truthyEnv st.1 k = true) ->
  idle st (activateEntry config st entry).
Proof.
  intros Hsat. unfold activateEntry.
  destruct (resolveSkillConfig _ _) as [sc|] eqn:Hsc; [|apply idle_refl].
  assert (idle st (match sc_env sc with
                   | Some table => injectEnvTable table st
                   | None => st
                   end)) as Hstep.
  { destruct (sc_env sc) as [table|] eqn:Ht; [|apply idle_refl].
    apply injectEnvTable_idle. intros k v Hin Hv. apply Hsat.
    exists sc. split; [done|]. left. by exists table, v. }
  apply (idle_trans _ _ _ Hstep).
  apply injectApiKey_idle. intros p a Hp Ha Hpne Hane Hs.
  destruct Hstep as [-> _]. apply Hsat; [|done].
  exists sc. split; [done|]. right. split_and!; [done..|]. by exists a.
Qed.

Lemma foldl_activateEntry_idle config l : forall st,
  (forall entry k, entry ∈ l ->
     providesOverride config
       (resolveSkillKey (entry_skill entry) (Some entry))
       (entry_clawdis entry ≫= md_primaryEnv) k ->
     settable k = true -> truthyEnv st.1 k = true) ->
  idle st (foldl (activateEntry config) st l).
Proof.
  induction l as [|e l IH]; intros st Hsat; [apply idle_refl|].
  simpl.
  assert (idle st (activateEntry config st e)) as Hstep.
  { apply activateEntry_idle. intros k. apply Hsat. by left. }
  apply (idle_trans _ _ _ Hstep). apply IH. intros entry k Hin.
  destruct Hstep as [-> _]. apply Hsat. by right.
Qed.

(** Updates are only recorded for keys that the table or the credential
    names. *)
Lemma injectVariable_updates key value st u :
  u ∈ (injectVariable key value st).2 -> u ∈ st.2 \/ upd_key u = key.
Proof.
  rewrite injectVariable_unfold. destruct (truthyEnv st.1 key); [by left|].
  unfold recordAndSet. simpl. intros [?|Hu]%elem_of_app; [by left|].
  apply list_elem_of_singleton in Hu as ->. by right.
Qed.

Lemma injectEnvTable_updates table u : forall st,
  u ∈ (injectEnvTable table st).2 ->
  u ∈ st.2 \/ exists v, (upd_key u, v) ∈ table /\ v <> EmptyString.
Proof.
  unfold injectEnvTable.
  induction table as [|[k v] table IH]; intros st Hu; [by left|].
  cbn [foldl fst snd] in Hu. apply IH in Hu as [Hu|(v' & Hin & Hv)].
  - destruct (nonEmpty v) eqn:Hc; simpl in Hu; [|by left].
    apply injectVariable_updates in Hu as [?| ->]; [by left|].
    right. exists v. split; [by left|]. by destruct v.
  - right. exists v'. split; [by right|done].
Qed.

Lemma injectApiKey_updates primaryEnv apiKey st u :
  u ∈ (injectApiKey primaryEnv apiKey st).2 ->
  u ∈ st.2
  \/ (primaryEnv = Some (upd_key u) /\ upd_key u <> EmptyString
      /\ exists a, apiKey = Some a /\ a <> EmptyString).
Proof.
  unfold injectApiKey. destruct primaryEnv as [p|], apiKey as [a|]; try by left.
  destruct (nonEmpty p && nonEmpty a) eqn:Hc; [|by left].
  intros [?| ->]%injectVariable_updates; [by left|right].
  split_and!; [done|by destruct p|]. exists a. split; [done|]. by destruct p, a.
Qed.

(** Every recorded update is for a variable that the configuration of a
    listed skill provides. *)
Lemma skillEnvUpdates_configured config u l : forall st,
  u ∈ (foldl (activateEntry config) st l).2 ->
  u ∈ st.2
  \/ exists entry, entry ∈ l
       /\ providesOverride config
            (resolveSkillKey (entry_skill entry) (Some entry))
            (entry_clawdis entry ≫= md_primaryEnv) (upd_key u).
Proof.
  induction l as [|e l IH]; intros st Hu; [by left|].
  simpl in Hu. apply IH in Hu as [Hu|(entry & Hin & Hrest)].
  - unfold activateEntry in Hu.
    destruct (resolveSkillConfig _ _) as [sc|] eqn:Hsc; [|by left].
    apply injectApiKey_updates in Hu as [Hu|(Hp & Hk & a & Ha & Hne)].
    + destruct (sc_env sc) as [table|] eqn:Ht; [|by left].
      apply injectEnvTable_updates in Hu as [?|(v & Hin & Hv)]; [by left|].
      right. exists e. split; [by left|]. exists sc. split; [done|].
      left. by exists table, v.
    + right. exists e. split; [by left|]. exists sc. split; [done|].
      right. split_and!; [done..|]. by exists a.
  - right. exists entry. split; [by right|done].
Qed.

(** A write under another name leaves the variable as it is. *)
Lemma injectVariable_other key value st k :
  key <> k -> (injectVariable key value st).1 !! k = st.1 !! k.
Proof.
  intros Hne. rewrite injectVariable_unfold. destruct (truthyEnv st.1 key); [done|].
  unfold recordAndSet. simpl. rewrite setEnv_lookup.
  rewrite decide_False; [done|]. by intros [-> _].
Qed.

(** With distinct keys, the table sets a variable whose read is falsy to
    its own value. *)
Lemma injectEnvTable_value table k v : forall st,
  NoDup (map fst table) -> (k, v) ∈ table -> v <> EmptyString ->
  settable k = true -> truthyEnv st.1 k = false ->
  (injectEnvTable table st).1 !! k = Some v.
Proof.
  induction table as [|[k' v'] table IH]; intros st Hnd Hin Hv Hs Hk.
  - by apply elem_of_nil in Hin.
  - apply NoDup_cons in Hnd as [Hfresh Hnd].
    change (injectEnvTable ((k', v') :: table) st)
      with (injectEnvTable table
              (if negb (nonEmpty v') then st else injectVariable k' v' st)).
    apply elem_of_cons in Hin as [[= <- <-]|Hin].
    + assert (nonEmpty v = true) as Hn by by destruct v.
      rewrite Hn. simpl.
      assert ((injectVariable k v st).1 !! k = Some v) as Hset.
      { rewrite injectVariable_unfold, Hk. unfold recordAndSet. simpl.
        rewrite setEnv_lookup. by rewrite decide_True. }
      rewrite injectEnvTable_keeps; [done|].
      apply truthyEnv_own. by rewrite Hset.
    + assert (k' <> k) as Hne.
      { intros ->. apply Hfresh. apply list_elem_of_fmap. by exists (k, v). }
      apply IH; [done..|].
      destruct (negb (nonEmpty v')); [done|].
      rewrite (truthyEnv_lookup _ st.1); [done|]. by apply injectVariable_other.
Qed.
End Writes.

(** X14: activation is idempotent on the environment: run again on the
    environment it left, [applySkillEnvOverrides] changes no variable, and
    every update it records is for a name that the environment refuses
    (empty, or holding [=]), a write that had no effect the first time
    either.  When the environment accepts every name that the configuration
    of a listed skill provides, the second run records nothing. *)
Theorem activation_idempotent (skills : list SkillEntry)
    (config : option ClawdisConfig) (env : Env) :
  let env1 := (applySkillEnvOverrides skills config env).1 in
  (skillEnvUpdates skills config env1).1 = env1
  /\ (forall u, u ∈ (skillEnvUpdates skills config env1).2 ->
        settable (upd_key u) = false)
  /\ ((forall entry k, entry ∈ skills ->
         providesOverride config
           (resolveSkillKey (entry_skill entry) (Some entry))
           (entry_clawdis entry ≫= md_primaryEnv) k ->
         settable k = true) ->
      skillEnvUpdates skills config env1 = (env1, [])).
Proof.
  intros env1.
  assert (idle (env1, []) (skillEnvUpdates skills config env1)) as [He Hu].
  { unfold skillEnvUpdates. apply foldl_activateEntry_idle.
    intros entry k Hin Hprov Hs. subst env1.
    unfold applySkillEnvOverrides, skillEnvUpdates. simpl.
    apply (foldl_sets _ (fun e => e = entry)); [| |by exists entry].
    - intros st e0. apply activateEntry_keeps.
    - intros st e0 ->. by apply activateEntry_sets. }
  simpl in He, Hu.
  assert (forall u, u ∈ (skillEnvUpdates skills config env1).2 ->
            settable (upd_key u) = false) as Hrefused.
  { intros u Hin. destruct (Hu u Hin) as [Hnil|?]; [|done].
    by apply elem_of_nil in Hnil. }
  split_and!; [done..|].
  intros Hall.
  assert ((skillEnvUpdates skills config env1).2 = []) as Hempty.
  { destruct (skillEnvUpdates skills config env1).2 as [|u us] eqn:Hus; [done|].
    exfalso.
    assert (u ∈ (skillEnvUpdates skills config env1).2) as Hin
      by (rewrite Hus; by left).
    assert (settable (upd_key u) = false) as Hr by (apply Hrefused; by left).
    unfold skillEnvUpdates in Hin.
    apply skillEnvUpdates_configured in Hin as [Hnil|(entry & He' & Hprov)].
    - by apply elem_of_nil in Hnil.
    - rewrite (Hall entry _ He' Hprov) in Hr. done. }
  destruct (skillEnvUpdates skills config env1) as [e us]. simpl in *.
  by subst.
Qed.

Lemma activation_idempotent_witness :
  skillEnvUpdates [ex_weather_primary] (Some ex_config_apiKey)
    (applySkillEnvOverrides [ex_weather_primary] (Some ex_config_apiKey) ex_env).1
  = ((applySkillEnvOverrides [ex_weather_primary] (Some ex_config_apiKey)
        ex_env).1, []).
Proof.
  apply (proj2 (proj2 (activation_idempotent [ex_weather_primary]
                         (Some ex_config_apiKey) ex_env))).
  intros entry k Hin (sc & Hsc & Hprov).
  apply list_elem_of_singleton in Hin as ->.
  vm_compute in Hsc. injection Hsc as <-.
  destruct Hprov as [(table & v & Ht & _)|(Hp & _)]; [discriminate|].
  vm_compute in Hp. by injection Hp as <-.
Defined.

(** X15: when no listed skill has a per-skill configuration, in particular
    without any configuration, activation changes nothing and records no
    update. *)
Theorem activation_without_configuration (skills : list SkillEntry)
    (config : option ClawdisConfig) (env : Env) :
  (forall entry, entry ∈ skills -> skillConfigOf config entry = None) ->
  skillEnvUpdates skills config env = (env, []).
Proof.
  unfold skillEnvUpdates. generalize (env, @nil EnvUpdate).
  induction skills as [|e skills IH]; intros st Hnone; [done|].
  simpl. unfold activateEntry at 2.
  specialize (Hnone e) as He. unfold skillConfigOf in He.
  rewrite He by by left. apply IH. intros entry Hin. apply Hnone. by right.
Qed.

Lemma activation_without_configuration_witness :
  skillEnvUpdates [ex_weather_primary] None ex_env = (ex_env, []).
Proof.
  apply (activation_without_configuration [ex_weather_primary] None ex_env).
  intros entry _. reflexivity.
Defined.

(** X16: activation writes only what the configuration of a listed skill
    names: every recorded update is for a key of the [env] table of a
    listed skill's configuration, with a non-empty value there, or for the
    skill's [primaryEnv] with a non-empty [apiKey]. *)
Theorem activation_writes_only_configured (skills : list SkillEntry)
    (config : option ClawdisConfig) (env : Env) (u : EnvUpdate) :
  u ∈ (skillEnvUpdates skills config env).2 ->
  exists entry sc,
    entry ∈ skills /\ skillConfigOf config entry = Some sc
    /\ ((exists table v, sc_env sc = Some table /\ (upd_key u, v) ∈ table
                         /\ v <> EmptyString)
        \/ (entry_clawdis entry ≫= md_primaryEnv = Some (upd_key u)
            /\ exists a, sc_apiKey sc = Some a /\ a <> EmptyString)).
Proof.
  unfold skillEnvUpdates.
  intros [Hnil|(entry & Hin & sc & Hsc & Hprov)]%skillEnvUpdates_configured.
  - by apply elem_of_nil in Hnil.
  - exists entry, sc. split_and!; [done..|].
    destruct Hprov as [?|(? & _ & ?)]; [by left|by right].
Qed.

Lemma activation_writes_only_configured_witness :
  exists entry sc,
    entry ∈ [ex_weather_primary]
    /\ skillConfigOf (Some ex_config_apiKey) entry = Some sc
    /\ ((exists table v, sc_env sc = Some table /\ ("WEATHER_KEY", v) ∈ table
                         /\ v <> EmptyString)
        \/ (entry_clawdis entry ≫= md_primaryEnv = Some "WEATHER_KEY"
            /\ exists a, sc_apiKey sc = Some a /\ a <> EmptyString)).
Proof.
  apply (activation_writes_only_configured [ex_weather_primary]
           (Some ex_config_apiKey) ex_env
           {| upd_key := "WEATHER_KEY"; upd_prev := None |}).
  vm_compute. apply list_elem_of_here.
Defined.

(** X17: precedence of the writes.  For the first listed skill, a
    non-empty value of its [env] table (keys distinct) for a variable
    whose name the environment accepts and whose read is falsy (it is empty,
    or unset and no member of [Object.prototype] has its name) is the value
    the variable holds after activation: neither the skill's [apiKey] nor a
    later skill replaces it. *)
Theorem activation_first_table_wins (entry : SkillEntry)
    (rest : list SkillEntry) (config : option ClawdisConfig) (env : Env)
    (sc : SkillConfig) (table : list (string * string)) (k v : string) :
  skillConfigOf config entry = Some sc ->
  sc_env sc = Some table ->
  NoDup (map fst table) ->
  (k, v) ∈ table ->
  v <> EmptyString ->
  settable k = true ->
  truthyEnv env k = false ->
  (applySkillEnvOverrides (entry :: rest) config env).1 !! k = Some v.
Proof.
  intros Hsc Ht Hnd Hin Hv Hs Hk.
  unfold applySkillEnvOverrides, skillEnvUpdates. simpl.
  assert ((activateEntry config (env, []) entry).1 !! k = Some v) as Hstep.
  { unfold activateEntry. fold (skillConfigOf config entry). rewrite Hsc, Ht.
    assert ((injectEnvTable table (env, [])).1 !! k = Some v) as Htab
      by by apply injectEnvTable_value.
    rewrite injectApiKey_keeps; [done|].
    apply truthyEnv_own. rewrite Htab. by destruct v. }
  rewrite (foldl_keeps (activateEntry config) k rest); [done| |].
  - intros st e0. apply activateEntry_keeps.
  - apply truthyEnv_own. rewrite Hstep. by destruct v.
Qed.

Lemma activation_first_table_wins_witness :
  (applySkillEnvOverrides [ex_weather_primary] (Some ex_config_both) ex_env).1
    !! "WEATHER_KEY" = Some "secret".
Proof.
  apply (activation_first_table_wins ex_weather_primary [] (Some ex_config_both)
           ex_env (mkSkillConfig None (Some "k") (Some [("WEATHER_KEY", "secret")]))
           [("WEATHER_KEY", "secret")]).
  - reflexivity.
  - reflexivity.
  - apply NoDup_singleton.
  - apply list_elem_of_here.
  - discriminate.
  - reflexivity.
  - reflexivity.
Defined.

(** ** Merge order and installer lookup *)

Section MergeOrder.
Implicit Types acc : list string.

Lemma keys_Map_set_order {V} key (value : V) (m : list (string * V)) :
  map fst (Map_set key value m) = addKey (map fst m) key.
Proof.
  induction m as [|[k v] m IH]; [done|].
  cbn [Map_set map fst]. destruct (decide (k = key)) as [->|Hk].
  - rewrite bool_decide_true by done. unfold addKey.
    rewrite bool_decide_true; [done|by left].
  - rewrite bool_decide_false by done. cbn [map fst]. rewrite IH. unfold addKey.
    destruct (decide (key ∈ map fst m)) as [Hin|Hin].
    + rewrite !bool_decide_true; [done|by right|done].
    + rewrite !bool_decide_false; [done| |done].
      intros [?|?]%elem_of_cons; [congruence|done].
Qed.

Lemma keys_setAll skills : forall m,
  map fst (setAll skills m) = foldl addKey (map fst m) (map skill_name skills).
Proof.
  unfold setAll. induction skills as [|s skills IH]; intros m; simpl; [done|].
  by rewrite IH, keys_Map_set_order.
Qed.

Lemma filter_filter_bool {A} (f g : A -> bool) l :
  List.filter f (List.filter g l) = List.filter (fun x => g x && f x) l.
Proof.
  induction l as [|a l IH]; simpl; [done|].
  destruct (g a); simpl; [|done]. destruct (f a); by rewrite IH.
Qed.

Lemma foldl_addKey names : forall acc,
  foldl addKey acc names
    = acc ++ List.filter (fun n => negb (bool_decide (n ∈ acc)))
               (firstOccurrences names).
Proof.
  induction names as [|x names IH]; intros acc; simpl.
  - by rewrite app_nil_r.
  - rewrite IH. unfold addKey. rewrite filter_filter_bool.
    destruct (decide (x ∈ acc)) as [Hx|Hx].
    + rewrite !bool_decide_true by done. simpl.
      f_equal. apply filter_ext. intros n.
      destruct (decide (n ∈ acc)) as [Hn|Hn].
      * rewrite (bool_decide_true (n ∈ acc)) by done. simpl. by rewrite andb_false_r.
      * rewrite (bool_decide_false (n ∈ acc)) by done.
        rewrite bool_decide_false; [done|]. by intros ->.
    + rewrite !(bool_decide_false (x ∈ acc)) by done. simpl.
      rewrite <- app_assoc. simpl. do 2 f_equal. apply filter_ext. intros n.
      destruct (decide (n = x)) as [->|Hne].
      * rewrite (bool_decide_true (x = x)) by done. simpl.
        rewrite bool_decide_true; [done|]. apply elem_of_app. right. by left.
      * rewrite (bool_decide_false (n = x)) by done. simpl.
        destruct (decide (n ∈ acc)) as [Hin|Hin].
        -- rewrite !bool_decide_true; [done|done|]. apply elem_of_app. by left.
        -- rewrite !bool_decide_false; [done|done|].
           intros [?|Hn]%elem_of_app; [done|].
           by apply list_elem_of_singleton in Hn.
Qed.
End MergeOrder.

(** X18: the merged skills are listed in the order in which their names
    first occur in extra, bundled, managed, workspace: a source of higher
    precedence replaces the record of a name but not its position. *)
Theorem mergeSkills_order (extraSkills bundledSkills managedSkills
    workspaceSkills : list Skill) :
  map skill_name
      (mergeSkills extraSkills bundledSkills managedSkills workspaceSkills)
    = firstOccurrences
        (map skill_name
           (extraSkills ++ bundledSkills ++ managedSkills ++ workspaceSkills)).
Proof.
  unfold mergeSkills.
  destruct (setAll_spec extraSkills []) as (E1 & E2 & _);
    [apply NoDup_nil_2|by intros k s H; apply elem_of_nil in H|].
  destruct (setAll_spec bundledSkills _ E1 E2) as (B1 & B2 & _).
  destruct (setAll_spec managedSkills _ B1 B2) as (M1 & M2 & _).
  destruct (setAll_spec workspaceSkills _ M1 M2) as (_ & W2 & _).
  rewrite named_keys by done. rewrite !keys_setAll. simpl.
  rewrite !map_app, <- !foldl_app, foldl_addKey. simpl.
  induction (firstOccurrences _) as [|n l IH]; simpl; [done|].
  by f_equal.
Qed.

Lemma findInstallSpecFrom_None specs : forall base id,
  findInstallSpecFrom base specs id = None <->
  forall i spec, specs !! i = Some spec -> resolveInstallId spec (base + i) <> id.
Proof.
  induction specs as [|s0 specs IH]; intros base id.
  - split; [by intros _ i spec Hi|done].
  - cbn [findInstallSpecFrom]. case_bool_decide as E.
    + split; [done|]. intros H. exfalso. apply (H 0 s0); [done|].
      by rewrite Nat.add_0_r.
    + rewrite IH. split.
      * intros H [|i] spec Hi.
        -- injection Hi as <-. by rewrite Nat.add_0_r.
        -- replace (base + S i) with (S base + i) by lia. by apply H.
      * intros H i spec Hi. replace (S base + i) with (base + S i) by lia.
        by apply (H (S i)).
Qed.

(** X19: [findInstallSpec] misses exactly when no spec of the entry has
    the requested effective id at its position (in particular for an entry
    without metadata), and what it finds is a spec of the entry with that
    effective id. *)
Theorem findInstallSpec_complete (entry : SkillEntry) (installId : string) :
  (findInstallSpec entry installId = None <->
     forall i spec, installSpecsOf entry !! i = Some spec ->
                    resolveInstallId spec i <> installId)
  /\ (forall spec, findInstallSpec entry installId = Some spec ->
        exists i, installSpecsOf entry !! i = Some spec
                  /\ resolveInstallId spec i = installId).
Proof.
  unfold findInstallSpec. split.
  - apply (findInstallSpecFrom_None _ 0).
  - intros spec (i & Hi & Hid & _)%findInstallSpecFrom_Some. by exists i.
Qed.

(** ** Frontmatter: line endings, shape of the result *)

Lemma notCR_ne c : notCR c = true <-> c <> CR.
Proof. unfold notCR. case_bool_decide; split; done. Qed.

Lemma notLF_ne c : notLF c = true <-> c <> LF.
Proof. unfold notLF. case_bool_decide; split; done. Qed.

Lemma replaceCR_id s : strForall notCR s = true -> replaceCR s = s.
Proof.
  induction s as [|c s IH]; simpl; [done|].
  intros [Hc%notCR_ne Hs]%andb_prop.
  rewrite bool_decide_false by done. by rewrite IH.
Qed.

Lemma replaceCRLF_id s : strForall notCR s = true -> replaceCRLF s = s.
Proof.
  induction s as [|c s IH]; [done|].
  intros [Hc%notCR_ne Hs]%andb_prop.
  destruct s as [|d s]; [done|].
  change (replaceCRLF (String c (String d s)))
    with (if bool_decide (c = CR) && bool_decide (d = LF)
          then String LF (replaceCRLF s)
          else String c (replaceCRLF (String d s))).
  rewrite (bool_decide_false (c = CR)) by done. simpl andb. cbv iota.
  by rewrite IH.
Qed.

Lemma replaceCRLF_toCRLF s :
  strForall notCR s = true -> replaceCRLF (toCRLF s) = s.
Proof.
  induction s as [|c s IH]; [done|].
  intros [Hc%notCR_ne Hs]%andb_prop.
  cbn [toCRLF]. destruct (decide (c = LF)) as [->|Hlf].
  - rewrite bool_decide_true by done. cbn [replaceCRLF].
    rewrite !bool_decide_true by done.
    simpl andb. cbv iota. by rewrite IH.
  - rewrite bool_decide_false by done. specialize (IH Hs).
    destruct (toCRLF s) as [|d t] eqn:Et.
    + by rewrite <- IH.
    + change (replaceCRLF (String c (String d t)))
        with (if bool_decide (c = CR) && bool_decide (d = LF)
              then String LF (replaceCRLF t)
              else String c (replaceCRLF (String d t))).
      rewrite (bool_decide_false (c = CR)) by done. simpl andb. cbv iota.
      by rewrite IH.
Qed.

Lemma strForall_notLF_toCR s : strForall notLF (toCR s) = true.
Proof.
  induction s as [|c s IH]; simpl; [done|]. rewrite IH, andb_true_r.
  apply notLF_ne. by case_bool_decide.
Qed.

(** Without LF there is no CR LF pair to replace. *)
Lemma replaceCRLF_no_LF s : strForall notLF s = true -> replaceCRLF s = s.
Proof.
  induction s as [|c s IH]; [done|].
  intros [Hc Hs]%andb_prop. destruct s as [|d s]; [done|].
  change (replaceCRLF (String c (String d s)))
    with (if bool_decide (c = CR) && bool_decide (d = LF)
          then String LF (replaceCRLF s)
          else String c (replaceCRLF (String d s))).
  pose proof Hs as Hs0. simpl in Hs. apply andb_prop in Hs as [Hd%notLF_ne Hs'].
  rewrite (bool_decide_false (d = LF)) by done.
  rewrite andb_false_r. by rewrite IH.
Qed.

Lemma replaceCR_toCR s : strForall notCR s = true -> replaceCR (toCR s) = s.
Proof.
  induction s as [|c s IH]; simpl; [done|].
  intros [Hc%notCR_ne Hs]%andb_prop. rewrite IH by done.
  destruct (decide (c = LF)) as [->|Hlf].
  - by rewrite !bool_decide_true.
  - by rewrite (bool_decide_false (c = LF)), bool_decide_false.
Qed.

(** X20: the parser does not see how line breaks are written: a text
    without CR parses to the same mapping when its line breaks are written
    as CR LF or as CR alone. *)
Theorem parseFrontmatter_line_endings (content : string) :
  strForall notCR content = true ->
  parseFrontmatter (toCRLF content) = parseFrontmatter content
  /\ parseFrontmatter (toCR content) = parseFrontmatter content.
Proof.
  intros Hc. unfold parseFrontmatter.
  rewrite replaceCRLF_toCRLF by done.
  rewrite (replaceCRLF_no_LF (toCR content)) by apply strForall_notLF_toCR.
  rewrite replaceCR_toCR by done.
  by rewrite (replaceCRLF_id content), !(replaceCR_id content).
Qed.

Lemma strForall_app P s t :
  strForall P (s +:+ t) = strForall P s && strForall P t.
Proof. induction s as [|c s IH]; simpl; [done|]. by rewrite IH, andb_assoc. Qed.

Lemma strForall_impl (P Q : ascii -> bool) s :
  (forall c, P c = true -> Q c = true) ->
  strForall P s = true -> strForall Q s = true.
Proof.
  intros H. induction s as [|c s IH]; simpl; [done|].
  intros [Hc Hs]%andb_prop. by rewrite (H c Hc), IH.
Qed.

Lemma strForall_dropStr P n : forall s,
  strForall P s = true -> strForall P (dropStr n s) = true.
Proof.
  induction n as [|n IH]; intros [|c s] H; simpl; try done.
  apply IH. simpl in H. by apply andb_prop in H as [_ ?].
Qed.

Lemma strForall_takeStr P n : forall s,
  strForall P s = true -> strForall P (takeStr n s) = true.
Proof.
  induction n as [|n IH]; intros [|c s] H; simpl; try done.
  simpl in H. apply andb_prop in H as [Hc Hs]. by rewrite Hc, IH.
Qed.

Lemma strForall_replaceCR s : strForall notCR (replaceCR s) = true.
Proof.
  induction s as [|c s IH]; simpl; [done|]. rewrite IH, andb_true_r.
  apply notCR_ne. case_bool_decide; done.
Qed.

Lemma strForall_trimStart P s :
  strForall P s = true -> strForall P (trimStart s) = true.
Proof.
  induction s as [|c s IH]; simpl; [done|]. intros H.
  destruct (isSpace c); [|done]. apply IH. by apply andb_prop in H as [_ ?].
Qed.

Lemma strForall_trimEnd P s :
  strForall P s = true -> strForall P (trimEnd s) = true.
Proof.
  induction s as [|c s IH]; simpl; [done|]. intros [Hc Hs]%andb_prop.
  specialize (IH Hs). destruct (trimEnd s) as [|d t].
  - destruct (isSpace c); simpl; [done|]. by rewrite Hc.
  - simpl. simpl in IH. by rewrite Hc, IH.
Qed.

Lemma strForall_removeLast P s :
  strForall P s = true -> strForall P (removeLast s) = true.
Proof.
  induction s as [|c s IH]; [done|]. intros [Hc Hs]%andb_prop.
  destruct s as [|d s]; [done|].
  change (removeLast (String c (String d s)))
    with (String c (removeLast (String d s))).
  specialize (IH Hs). simpl. simpl in IH. rewrite Hc. simpl.
  destruct s as [|e s]; [done|]. done.
Qed.

Lemma strForall_stripQuotes P s :
  strForall P s = true -> strForall P (stripQuotes s) = true.
Proof.
  intros H. unfold stripQuotes. destruct (_ || _); [|done].
  by apply strForall_removeLast, strForall_dropStr.
Qed.

(** The pieces of a split hold no separator, and what holds of every
    character of the text holds of every character of a piece. *)
Lemma splitChar_pieces P d s piece :
  strForall P s = true -> piece ∈ splitChar d s ->
  strForall P piece = true
  /\ strForall (fun c => negb (bool_decide (c = d))) piece = true.
Proof.
  revert piece. induction s as [|c s IH]; intros piece Hs Hin.
  - apply list_elem_of_singleton in Hin as ->. done.
  - simpl in Hs. apply andb_prop in Hs as [Hc Hs]. cbn [splitChar] in Hin.
    destruct (decide (c = d)) as [->|Hne].
    + rewrite bool_decide_true in Hin by done.
      apply elem_of_cons in Hin as [->|Hin]; [done|by apply IH].
    + rewrite bool_decide_false in Hin by done.
      destruct (splitChar d s) as [|w ws] eqn:Ew.
      * apply list_elem_of_singleton in Hin as ->. simpl.
        by rewrite Hc, bool_decide_false.
      * apply elem_of_cons in Hin as [->|Hin].
        -- destruct (IH w Hs) as [H1 H2]; [by left|]. simpl.
           by rewrite Hc, H1, H2, bool_decide_false.
        -- apply IH; [done|by right].
Qed.

Lemma spanWord_spec P s :
  strForall isWordOrDash (spanWord s).1 = true
  /\ (strForall P s = true -> strForall P (spanWord s).2 = true).
Proof.
  induction s as [|c s [IH1 IH2]]; simpl; [done|].
  destruct (isWordOrDash c) eqn:Hc; simpl.
  - rewrite Hc, IH1. split; [done|]. intros [_ Hs]%andb_prop. by apply IH2.
  - done.
Qed.

Lemma matchLine_spec P line key raw :
  matchLine line = Some (key, raw) ->
  key <> EmptyString /\ strForall isWordOrDash key = true
  /\ (strForall P line = true -> strForall P raw = true).
Proof.
  unfold matchLine. destruct (spanWord_spec P line) as [H1 H2].
  destruct (spanWord line) as [[|k ks] [|c rest]]; try done.
  case_bool_decide; [|done]. intros [= <- <-]. split_and!; [done..|].
  intros Hl. apply strForall_trimStart. specialize (H2 Hl). simpl in H2.
  by apply andb_prop in H2 as [_ ?].
Qed.

Lemma foldl_invariant {A B} (f : B -> A -> B) (I : B -> Prop) (P : A -> Prop) l :
  (forall b a, I b -> P a -> I (f b a)) ->
  forall b, I b -> Forall P l -> I (foldl f b l).
Proof.
  intros Hstep. induction l as [|a l IH]; intros b Hb Hl; simpl; [done|].
  apply Forall_cons in Hl as [Ha Hl]. apply IH; [|done]. by apply Hstep.
Qed.

(** X21: in the mapping that [parseFrontmatter] returns every key is a
    non-empty run of characters of the class [[\w-]], and every value is
    non-empty and holds no line break. *)
Theorem parseFrontmatter_well_formed (content key value : string) :
  parseFrontmatter content !! key = Some value ->
  key <> EmptyString /\ strForall isWordOrDash key = true
  /\ value <> EmptyString /\ strForall notBreak value = true.
Proof.
  unfold parseFrontmatter. destruct (startsWith _ _); simpl; [|done].
  destruct (indexOf _ _ _) as [endIndex|]; [|done].
  revert key value.
  apply (foldl_invariant _
           (fun m : gmap string string => forall key value,
              m !! key = Some value ->
              key <> EmptyString /\ strForall isWordOrDash key = true
              /\ value <> EmptyString /\ strForall notBreak value = true)
           (fun line => strForall notBreak line = true)).
  - intros m line Hm Hline key value.
    destruct (matchLine line) as [[k raw]|] eqn:Hmatch; [|apply Hm].
    destruct (matchLine_spec notBreak _ _ _ Hmatch) as (Hk & Hw & Hraw).
    destruct (negb (nonEmpty k) || negb (nonEmpty (stripQuotes (trim raw))))
      eqn:Hguard; [apply Hm|].
    unfold assignProperty. case_bool_decide; [apply Hm|].
    destruct (decide (k = key)) as [<-|Hne].
    + rewrite lookup_insert_eq. intros [= <-]. split_and!; [done..| |].
      * apply orb_false_elim in Hguard as [_ Hv]. by destruct (stripQuotes _).
      * apply strForall_stripQuotes, strForall_trimEnd, strForall_trimStart.
        by apply Hraw.
    + rewrite lookup_insert_ne by done. apply Hm.
  - intros key value Hin. by rewrite lookup_empty in Hin.
  - apply Forall_forall. intros line Hin.
    apply (splitChar_pieces notCR LF) in Hin as [Hcr Hlf].
    + clear -Hcr Hlf. induction line as [|c s IH]; simpl in *; [done|].
      apply andb_prop in Hcr as [Hc Hs]. apply andb_prop in Hlf as [Hl Hs'].
      unfold notBreak at 1, notLF. by rewrite Hc, Hl, IH.
    + unfold slice. by apply strForall_takeStr, strForall_dropStr,
        strForall_replaceCR.
Qed.

(** ** Frontmatter: the closing line, a quoted pair *)

Lemma prefix_nil s : String.prefix EmptyString s = true.
Proof. by destruct s. Qed.

Lemma prefix_cons a n b s :
  String.prefix (String a n) (String b s)
    = if ascii_dec a b then String.prefix n s else false.
Proof. done. Qed.

Lemma prefix_app n : forall s t,
  String.prefix n s = true -> String.prefix n (s +:+ t) = true.
Proof.
  induction n as [|a n IH]; intros s t H; [apply prefix_nil|].
  destruct s as [|b s]; [done|].
  change (String b s +:+ t) with (String b (s +:+ t)).
  rewrite prefix_cons in *. destruct (ascii_dec a b); [by apply IH|done].
Qed.

Lemma prefix_length n : forall s,
  String.prefix n s = true -> String.length n <= String.length s.
Proof.
  induction n as [|a n IH]; intros s H; [simpl; lia|].
  destruct s as [|b s]; [done|]. rewrite prefix_cons in H.
  destruct (ascii_dec a b); [|done]. apply IH in H. simpl. lia.
Qed.

Lemma prefix_app_inv n : forall s t,
  String.prefix n (s +:+ t) = true -> String.length n <= String.length s ->
  String.prefix n s = true.
Proof.
  induction n as [|a n IH]; intros s t H Hl; [apply prefix_nil|].
  destruct s as [|b s]; [simpl in Hl; lia|].
  change (String b s +:+ t) with (String b (s +:+ t)) in H.
  rewrite prefix_cons in *. destruct (ascii_dec a b); [|done].
  apply (IH s t); [done|simpl in Hl; lia].
Qed.

Lemma prefix_self n t : String.prefix n (n +:+ t) = true.
Proof.
  induction n as [|a n IH]; [apply prefix_nil|].
  change (String a n +:+ t) with (String a (n +:+ t)).
  rewrite prefix_cons. by destruct (ascii_dec a a).
Qed.

Lemma indexOfAt_unfold needle s pos :
  indexOfAt needle s pos
    = if String.prefix needle s then Some pos
      else match s with
           | EmptyString => None
           | String _ s' => indexOfAt needle s' (S pos)
           end.
Proof. by destruct s. Qed.

Lemma indexOfAt_bound needle s : forall pos e,
  indexOfAt needle s pos = Some e ->
  pos <= e /\ e + String.length needle <= pos + String.length s.
Proof.
  induction s as [|c s IH]; intros pos e.
  - rewrite indexOfAt_unfold.
    destruct (String.prefix needle "") eqn:Hp; [|done].
    intros [= <-]. apply prefix_length in Hp. lia.
  - rewrite (indexOfAt_unfold needle (String c s)).
    destruct (String.prefix needle (String c s)) eqn:Hp.
    + intros [= <-]. apply prefix_length in Hp. lia.
    + intros H%IH. simpl. lia.
Qed.

(** The first occurrence in a text is the first occurrence in every
    extension of the text. *)
Lemma indexOfAt_app needle s t : forall pos e,
  indexOfAt needle s pos = Some e -> indexOfAt needle (s +:+ t) pos = Some e.
Proof.
  induction s as [|c s IH]; intros pos e.
  - rewrite (indexOfAt_unfold needle EmptyString).
    destruct (String.prefix needle "") eqn:Hp; [|done].
    intros [= <-]. rewrite indexOfAt_unfold. by rewrite (prefix_app _ _ t Hp).
  - rewrite (indexOfAt_unfold needle (String c s)).
    rewrite (indexOfAt_unfold needle (String c s +:+ t)).
    destruct (String.prefix needle (String c s)) eqn:Hp.
    + intros [= <-]. by rewrite (prefix_app _ _ t Hp).
    + intros H. pose proof (indexOfAt_bound _ _ _ _ H) as [Hlo Hb].
      destruct (String.prefix needle (String c s +:+ t)) eqn:Hpt.
      * apply prefix_app_inv in Hpt; [congruence|]. simpl. lia.
      * change (String c s +:+ t) with (String c (s +:+ t)). by apply IH.
Qed.

Lemma append_nil_r s : s +:+ EmptyString = s.
Proof.
  induction s as [|c s IH]; [done|].
  change (String c (s +:+ EmptyString) = String c s). by rewrite IH.
Qed.

Lemma indexOfAt_found needle s : forall pos,
  exists e, indexOfAt needle (s +:+ needle) pos = Some e.
Proof.
  induction s as [|c s IH]; intros pos; rewrite indexOfAt_unfold.
  - change (EmptyString +:+ needle) with needle.
    pose proof (prefix_self needle EmptyString) as Hp.
    rewrite append_nil_r in Hp. rewrite Hp. by eexists.
  - destruct (String.prefix _ _); [by eexists|].
    change (String c s +:+ needle) with (String c (s +:+ needle)). apply IH.
Qed.

Lemma length_app s t :
  String.length (s +:+ t) = String.length s + String.length t.
Proof.
  induction s as [|c s IH]; [done|].
  change (S (String.length (s +:+ t)) = S (String.length s + String.length t)).
  by rewrite IH.
Qed.

Lemma takeStr_app n : forall s t,
  n <= String.length s -> takeStr n (s +:+ t) = takeStr n s.
Proof.
  induction n as [|n IH]; intros s t Hl.
  - by destruct s, t.
  - destruct s as [|c s]; [simpl in Hl; lia|].
    change (String c (takeStr n (s +:+ t)) = String c (takeStr n s)).
    rewrite IH; [done|simpl in Hl; lia].
Qed.

Lemma dropStr_app k : forall s t,
  k <= String.length s -> dropStr k (s +:+ t) = dropStr k s +:+ t.
Proof.
  induction k as [|k IH]; intros s t Hl.
  - by destruct s.
  - destruct s as [|c s]; [simpl in Hl; lia|].
    change (dropStr k (s +:+ t) = dropStr k s +:+ t).
    apply IH. simpl in Hl. lia.
Qed.

Lemma length_dropStr k : forall s,
  String.length (dropStr k s) = String.length s - k.
Proof.
  induction k as [|k IH]; intros [|c s]; simpl; try done; try lia.
Qed.

Lemma takeStr_dropStr_app n k s t :
  n + k <= String.length s ->
  takeStr n (dropStr k (s +:+ t)) = takeStr n (dropStr k s).
Proof.
  intros Hl. rewrite dropStr_app by lia. apply takeStr_app.
  rewrite length_dropStr. lia.
Qed.

Lemma append_assoc s t u : (s +:+ t) +:+ u = s +:+ (t +:+ u).
Proof.
  induction s as [|c s IH]; [done|].
  change (String c ((s +:+ t) +:+ u) = String c (s +:+ (t +:+ u))).
  by rewrite IH.
Qed.

(** X22: the text after the closing line plays no part.  Two texts that,
    once their line endings are normalized, share a prefix made of three
    dashes, a block and a line break followed by three dashes, parse to the
    same mapping. *)
Theorem parseFrontmatter_body_ignored (content1 content2 block rest1 rest2
    : string) :
  replaceCR (replaceCRLF content1)
    = "---" +:+ block +:+ String LF "---" +:+ rest1 ->
  replaceCR (replaceCRLF content2)
    = "---" +:+ block +:+ String LF "---" +:+ rest2 ->
  parseFrontmatter content1 = parseFrontmatter content2.
Proof.
  intros H1 H2. unfold parseFrontmatter. rewrite H1, H2.
  unfold startsWith, indexOf, slice. rewrite !prefix_self. cbn [negb].
  change (dropStr 3 ("---" +:+ ?x)) with x.
  change (dropStr 4 ("---" +:+ ?x)) with (dropStr 1 x).
  destruct (indexOfAt_found (String LF "---") block 3) as [e He].
  pose proof (indexOfAt_bound _ _ _ _ He) as [Hlo Hhi].
  rewrite length_app in Hhi. simpl in Hhi.
  rewrite <- !(append_assoc block (String LF "---")).
  rewrite !(indexOfAt_app _ _ _ _ _ He).
  rewrite !(takeStr_dropStr_app (e - 4) 1 (block +:+ String LF "---"));
    [done|rewrite length_app; simpl; lia..].
Qed.

Lemma removeLast_snoc s c : removeLast (s +:+ String c EmptyString) = s.
Proof.
  induction s as [|a s IH]; [done|].
  change (removeLast (String a (s +:+ String c EmptyString)) = String a s).
  destruct (s +:+ String c EmptyString) as [|b u] eqn:E.
  - by destruct s.
  - change (String a (removeLast (String b u)) = String a s). by rewrite IH.
Qed.

Lemma lastChar_snoc s c : lastChar (s +:+ String c EmptyString) = Some c.
Proof. by rewrite lastChar_app. Qed.

Lemma lastChar_wrapped q s :
  lastChar (String q (s +:+ String q EmptyString)) = Some q.
Proof.
  rewrite lastChar_cons; [apply lastChar_snoc|]. by destruct s.
Qed.

Lemma stripQuotes_wrapped q s :
  q = dquote \/ q = squote ->
  stripQuotes (String q (s +:+ String q EmptyString)) = s.
Proof.
  intros Hq. unfold stripQuotes, startsWithChar, endsWithChar.
  rewrite lastChar_wrapped.
  assert ((bool_decide (q = dquote) && bool_decide (q = dquote))
          || (bool_decide (q = squote) && bool_decide (q = squote)) = true) as ->.
  { destruct Hq as [-> | ->]; by vm_compute. }
  change (dropStr 1 (String q ?x)) with x. apply removeLast_snoc.
Qed.

(** X23: [stripQuotes] removes one layer of quotes: a text wrapped in a
    pair of double quotes or of single quotes loses exactly that pair,
    whatever it holds, a lone quote character becomes the empty string, and
    a text that does not start with a quote is returned as it is. *)
Theorem stripQuotes_one_pair (q : ascii) (s : string) :
  q = dquote \/ q = squote ->
  stripQuotes (String q (s +:+ String q EmptyString)) = s
  /\ stripQuotes (String q EmptyString) = EmptyString
  /\ (startsWithChar s dquote = false -> startsWithChar s squote = false ->
      stripQuotes s = s).
Proof.
  intros Hq. split_and!.
  - by apply stripQuotes_wrapped.
  - destruct Hq as [-> | ->]; reflexivity.
  - intros H1 H2. unfold stripQuotes. by rewrite H1, H2.
Qed.

Lemma stripQuotes_one_pair_witness :
  stripQuotes (String dquote ("'a'" +:+ String dquote EmptyString)) = "'a'".
Proof.
  apply (proj1 (stripQuotes_one_pair dquote "'a'" (or_introl eq_refl))).
Defined.

Lemma isWordOrDash_notBreak c : isWordOrDash c = true -> notBreak c = true.
Proof.
  destruct c as [[|] [|] [|] [|] [|] [|] [|] [|]]; vm_compute; congruence.
Qed.

Lemma indexOfAt_skip n s : forall pos,
  strForall notLF s = true ->
  indexOfAt (String LF n) (s +:+ String LF n) pos = Some (pos + String.length s).
Proof.
  induction s as [|c s IH]; intros pos Hs; rewrite indexOfAt_unfold.
  - change (EmptyString +:+ String LF n) with (String LF n).
    pose proof (prefix_self (String LF n) EmptyString) as Hp.
    rewrite append_nil_r in Hp. rewrite Hp. simpl. f_equal. lia.
  - simpl in Hs. apply andb_prop in Hs as [Hc%notLF_ne Hs].
    change (String c s +:+ String LF n) with (String c (s +:+ String LF n)).
    rewrite prefix_cons. destruct (ascii_dec LF c) as [E|_]; [by subst c|].
    rewrite IH by done. simpl. f_equal. lia.
Qed.

Lemma splitChar_no_sep d s :
  strForall (fun c => negb (bool_decide (c = d))) s = true ->
  splitChar d s = [s].
Proof.
  induction s as [|c s IH]; simpl; [done|].
  intros [Hc Hs]%andb_prop. rewrite (IH Hs).
  by destruct (bool_decide (c = d)).
Qed.

Lemma spanWord_app k c r :
  strForall isWordOrDash k = true -> isWordOrDash c = false ->
  spanWord (k +:+ String c r) = (k, String c r).
Proof.
  intros Hk Hc. induction k as [|a k IH].
  - change (spanWord (String c r) = (EmptyString, String c r)).
    simpl. by rewrite Hc.
  - simpl in Hk. apply andb_prop in Hk as [Ha Hk].
    change (spanWord (String a (k +:+ String c r)) = (String a k, String c r)).
    simpl. by rewrite Ha, (IH Hk).
Qed.

Lemma takeStr_all s : takeStr (String.length s) s = s.
Proof. induction s as [|c s IH]; simpl; [done|]. by rewrite IH. Qed.

(** X24: a quoted pair survives the parser.  For a key of the class
    [[\w-]] that does not start with a dash and a non-empty value without
    line break, the block of the one line [key: "value"] (or with single
    quotes) parses to the mapping of [key] to [value], the spaces and
    quotes inside the value included; but for the key [__proto__], whose
    assignment adds no property, it parses to the empty mapping. *)
Theorem parseFrontmatter_quoted_pair (k0 : ascii) (ks : string) (q : ascii)
    (value : string) :
  k0 <> "-"%char ->
  strForall isWordOrDash (String k0 ks) = true ->
  q = dquote \/ q = squote ->
  value <> EmptyString ->
  strForall notBreak value = true ->
  parseFrontmatter (oneLineBlock (quotedLine (String k0 ks) q value))
    = if bool_decide (String k0 ks = "__proto__") then ∅
      else {[ String k0 ks := value ]}.
Proof.
  intros Hk0 Hkey Hq Hne Hval.
  set (key := String k0 ks) in *.
  set (raw := String q (value +:+ String q EmptyString)).
  set (line := quotedLine key q value).
  assert (notBreak q = true) as Hqb by (destruct Hq as [-> | ->]; done).
  assert (strForall notBreak line = true) as Hline.
  { unfold line, quotedLine. rewrite !strForall_app. cbn [strForall].
    rewrite (strForall_impl _ _ _ isWordOrDash_notBreak Hkey).
    change (strForall notBreak (String q (value +:+ String q EmptyString)))
      with (notBreak q && strForall notBreak (value +:+ String q EmptyString)).
    rewrite strForall_app. cbn [strForall]. by rewrite Hqb, Hval. }
  assert (strForall notLF line = true) as Hlf.
  { apply (strForall_impl notBreak); [|done]. intros c. unfold notBreak.
    by intros [_ ?]%andb_prop. }
  assert (strForall notCR (oneLineBlock line) = true) as Hcr.
  { unfold oneLineBlock. rewrite !strForall_app.
    change (strForall notCR (String LF line))
      with (notCR LF && strForall notCR line).
    rewrite (strForall_impl notBreak notCR line); [done| |done].
    intros c. unfold notBreak. by intros [? _]%andb_prop. }
  unfold parseFrontmatter.
  rewrite (replaceCRLF_id _ Hcr), (replaceCR_id _ Hcr).
  unfold startsWith, indexOf, slice, oneLineBlock.
  rewrite prefix_self. cbn [negb].
  change (dropStr 3 ("---" +:+ ?x)) with x.
  change (dropStr 4 ("---" +:+ String LF line +:+ String LF "---"))
    with (line +:+ String LF "---").
  rewrite indexOfAt_unfold.
  change (String LF line +:+ String LF "---")
    with (String LF (line +:+ String LF "---")).
  assert (String.prefix (String LF "---") (String LF (line +:+ String LF "---"))
          = false) as ->.
  { rewrite prefix_cons. destruct (ascii_dec LF LF); [|done].
    unfold line, quotedLine, key.
    change (String k0 ks +:+ ?x) with (String k0 (ks +:+ x)).
    change (String k0 ?y +:+ ?x) with (String k0 (y +:+ x)).
    rewrite prefix_cons. by destruct (ascii_dec "-" k0). }
  rewrite indexOfAt_skip by done.
  replace (4 + String.length line - 4) with (String.length line) by lia.
  rewrite takeStr_app by lia. rewrite takeStr_all.
  rewrite splitChar_no_sep by done. cbn [foldl].
  assert (matchLine line = Some (key, raw)) as ->.
  { unfold matchLine.
    change line with (key +:+ String ":" (String " " raw)).
    rewrite spanWord_app by done. unfold key at 1.
    rewrite bool_decide_true by done. do 2 f_equal.
    change (trimStart (String " " raw)) with (trimStart raw).
    unfold raw. apply trimStart_head. by destruct Hq as [-> | ->]. }
  assert (trim raw = raw) as ->.
  { unfold raw. apply (trim_id _ _ q); [|apply lastChar_wrapped|];
      by destruct Hq as [-> | ->]. }
  unfold raw. rewrite stripQuotes_wrapped by done.
  assert (nonEmpty value = true) as -> by by destruct value.
  cbn [nonEmpty negb orb]. unfold assignProperty, key.
  by case_bool_decide.
Qed.

Lemma parseFrontmatter_quoted_pair_witness :
  parseFrontmatter (oneLineBlock (quotedLine "name" dquote " x y "))
    = {[ "name" := " x y " ]}
  /\ parseFrontmatter (oneLineBlock (quotedLine "__proto__" squote "v")) = ∅.
Proof.
  split.
  - apply (parseFrontmatter_quoted_pair "n" "ame" dquote " x y ").
    + discriminate.
    + reflexivity.
    + by left.
    + discriminate.
    + reflexivity.
  - apply (parseFrontmatter_quoted_pair "_" "_proto__" squote "v").
    + discriminate.
    + reflexivity.
    + by right.
    + discriminate.
    + reflexivity.
Defined.

(** ** Metadata decoding: cleaned lists *)

Lemma trimStart_idem s : trimStart (trimStart s) = trimStart s.
Proof.
  induction s as [|c s IH]; simpl; [done|].
  destruct (isSpace c) eqn:Hc; [done|]. simpl. by rewrite Hc.
Qed.

Lemma trimEnd_idem s : trimEnd (trimEnd s) = trimEnd s.
Proof.
  induction s as [|c s IH]; [done|].
  change (trimEnd (String c s))
    with (match trimEnd s with
          | EmptyString => if isSpace c then EmptyString else String c EmptyString
          | t => String c t
          end).
  destruct (trimEnd s) as [|d t] eqn:E.
  - destruct (isSpace c) eqn:Hc; [done|]. simpl. by rewrite Hc.
  - change (trimEnd (String c (String d t)))
      with (match trimEnd (String d t) with
            | EmptyString => if isSpace c then EmptyString else String c EmptyString
            | t' => String c t'
            end).
    by rewrite IH.
Qed.

Lemma trimStart_trimEnd s : trimStart s = s -> trimStart (trimEnd s) = trimEnd s.
Proof.
  destruct s as [|c s]; [done|]. intros H.
  assert (isSpace c = false) as Hc.
  { destruct (isSpace c) eqn:Hc; [|done]. simpl in H. rewrite Hc in H.
    assert (String.length (trimStart s) <= String.length s) as Hl.
    { clear. induction s as [|a s IH]; simpl; [lia|].
      destruct (isSpace a); simpl; lia. }
    rewrite H in Hl. simpl in Hl. lia. }
  change (trimEnd (String c s))
    with (match trimEnd s with
          | EmptyString => if isSpace c then EmptyString else String c EmptyString
          | t => String c t
          end).
  destruct (trimEnd s); rewrite ?Hc; simpl; by rewrite Hc.
Qed.

Lemma trim_idem s : trim (trim s) = trim s.
Proof.
  unfold trim. rewrite trimStart_trimEnd by apply trimStart_idem.
  apply trimEnd_idem.
Qed.

Lemma normalizeStringList_clean input names x :
  normalizeStringList input = Some names ->
  x ∈ names -> x <> EmptyString /\ trim x = x.
Proof.
  unfold normalizeStringList.
  assert (forall l : list string,
            x ∈ List.filter nonEmpty (map trim l) ->
            x <> EmptyString /\ trim x = x) as Hclean.
  { intros l [Hin Hne]%list_elem_of_In%filter_In.
    apply in_map_iff in Hin as (y & <- & _). split; [|apply trim_idem].
    by destruct (trim y). }
  destruct (negb (jsTruthy input)).
  { intros [= <-] H. by apply elem_of_nil in H. }
  destruct input as [[| | | s | items | ]|];
    try (intros [= <-] H; by apply elem_of_nil in H).
  - intros [= <-]. apply Hclean.
  - destruct (mapM jsToString items) as [texts|]; [|done].
    intros [= <-]. apply Hclean.
Qed.

(** X25: the names that decoded metadata requires (binaries, environment
    variables, configuration paths) are never empty and carry no white
    space at either end. *)
Theorem decodeClawdis_required_names_clean (parsed : JsValue)
    (md : ClawdisSkillMetadata) (x : string) :
  decodeClawdis parsed = Some md ->
  x ∈ requiredNamesOf md ->
  x <> EmptyString /\ trim x = x.
Proof.
  unfold decodeClawdis, requiredNamesOf.
  destruct (asObject (Some parsed)) as [o|]; [|done].
  destruct (asObject (jsGet o "clawdis")) as [c|]; [|done].
  destruct (mapM _ _) as [parsedSpecs|]; [|done]. simpl.
  unfold decodeRequires.
  destruct (asObject (jsGet c "requires")) as [r|]; simpl.
  - destruct (normalizeStringList (jsGet r "bins")) as [bins|] eqn:Hb; [|done].
    destruct (normalizeStringList (jsGet r "env")) as [envs|] eqn:He; [|done].
    destruct (normalizeStringList (jsGet r "config")) as [cfgs|] eqn:Hc; [|done].
    simpl. intros [= <-]. simpl. rewrite !elem_of_app.
    intros [H|[H|H]];
      [apply (normalizeStringList_clean _ _ _ Hb H)
      |apply (normalizeStringList_clean _ _ _ He H)
      |apply (normalizeStringList_clean _ _ _ Hc H)].
  - intros [= <-]. simpl. intros H. by apply elem_of_nil in H.
Qed.

Lemma decodeClawdis_required_names_clean_witness :
  "WEATHER_KEY" <> EmptyString /\ trim "WEATHER_KEY" = "WEATHER_KEY".
Proof.
  apply (decodeClawdis_required_names_clean ex_requires_doc
           (mkMeta None None None
              (Some {| req_bins := Some ["git"; "curl"];
                       req_env := Some ["WEATHER_KEY"; "null"];
                       req_config := Some [] |}) None)).
  - reflexivity.
  - vm_compute. apply list_elem_of_further, list_elem_of_further,
      list_elem_of_here.
Defined.

Lemma parseFrontmatter_line_endings_witness :
  parseFrontmatter (toCRLF ex_frontmatter_body)
    = parseFrontmatter ex_frontmatter_body.
Proof.
  apply (proj1 (parseFrontmatter_line_endings ex_frontmatter_body eq_refl)).
Defined.

Lemma parseFrontmatter_well_formed_witness :
  "name" <> EmptyString /\ strForall isWordOrDash "name" = true
  /\ "x" <> EmptyString /\ strForall notBreak "x" = true.
Proof.
  apply (parseFrontmatter_well_formed ex_frontmatter_body "name" "x").
  reflexivity.
Defined.

Lemma parseFrontmatter_body_ignored_witness :
  parseFrontmatter ex_frontmatter_body = parseFrontmatter (oneLineBlock "name: x").
Proof.
  apply (parseFrontmatter_body_ignored ex_frontmatter_body
           (oneLineBlock "name: x") (String LF "name: x")
           (String LF "body") EmptyString).
  - reflexivity.
  - reflexivity.
Defined.

Lemma applySkillEnvOverridesFromSnapshot_agreement_witness :
  snapshotEnvUpdates
    (Some {| snapshot_prompt := "";
             snapshot_skills := snapshotSkillsOf [ex_weather_primary] |})
    (Some ex_config_apiKey) ex_env
  = skillEnvUpdates [ex_weather_primary] (Some ex_config_apiKey) ex_env.
Proof.
  apply (snapshot_agrees_without_skillKey [ex_weather_primary]
           (Some ex_config_apiKey) ex_env "").
  apply List.Forall_cons; [reflexivity|apply List.Forall_nil].
Defined.

Lemma loadSkillEntries_validKinds_witness :
  Forall (fun s => validKind (spec_kind s)) (installSpecsOf (ex_loaded ex_brew_jq)).
Proof.
  apply (loadSkillEntries_validKinds (ex_host ex_brew_jq []) ex_env "/ws" None
           (ex_loaded ex_brew_jq)).
  vm_compute. apply list_elem_of_here.
Defined.

(** ** Further witnesses *)

Lemma installSkill_success_sound_witness :
  code (outcome (fun _ => ex_ok_run)
          (installSkill (ex_host ex_brew_jq ["brew"]) ex_env (ex_request "brew-0")))
    = Some 0%Z.
Proof.
  apply (proj1 (proj2 (installSkill_success_sound (ex_host ex_brew_jq ["brew"])
                         ex_env (ex_request "brew-0") (fun _ => ex_ok_run)))).
  reflexivity.
Defined.

Lemma installSkill_spawn_bounds_witness :
  head (spawned (fun _ => ex_ok_run)
          (installSkill (ex_host ex_uv_package ["brew"]) ex_env (ex_request "uv-0")))
    = Some ["brew"; "install"; "uv"].
Proof.
  apply (proj2 (proj2 (proj2 (proj2
           (installSkill_spawn_bounds (ex_host ex_uv_package ["brew"])
              ex_env (ex_request "uv-0") (fun _ => ex_ok_run)))))).
  reflexivity.
Defined.

Lemma isConfigPathTruthy_defaults_witness :
  isConfigPathTruthy (Some ex_config_browser_off) "browser.enabled"
    = isTruthy (Some (RData (JBool false))).
Proof.
  apply (proj2 (isConfigPathTruthy_defaults (Some ex_config_browser_off)
                  "browser.enabled")).
  reflexivity.
Defined.

Lemma findInstallSpec_complete_witness :
  findInstallSpec (mkEntry "plain" None) "brew-0" = None.
Proof.
  apply (proj1 (findInstallSpec_complete (mkEntry "plain" None) "brew-0")).
  intros i spec Hi. by destruct i.
Defined.

